(** * seed-template: extraction of model output and temporal backfill

    A shallow embedding of the parts of the seeding pipeline that the
    specification makes claims about:

    - [src/utils/helpers.py]: [skip_weekend], [ensure_unique_datetime];
    - [src/core/example_entity.py]: the deduplication loop of
      [seed_example_entity];
    - [src/utils/data_utils.py]: the per-record date arithmetic of
      [update_entity_dates];
    - [src/utils/api_utils.py]: [parse_anthropic_response].

    The second half of the file covers the code around these: the rest
    of [src/utils/helpers.py] that computes on values ([format_url],
    [format_phone_number], [get_min_entity_date], [resolve_user_id],
    [calculate_activity_date], [calculate_activity_date_modified]),
    [load_user_ids_and_emails], [update_entity_owners] and
    [get_all_users] of [src/utils/data_utils.py], the whole of
    [seed_example_entity], and the batch loop of
    [generate_example_entities] in [src/generate/example_generate.py].
    The data file is covered by [save_json_file], [load_existing_data]
    and [_normalize_loaded_json] of [src/utils/data_utils.py], over a
    model of [json.dump] with [indent=2, ensure_ascii=False]; the file
    ends with [safe_int] of [src/utils/helpers.py], over a model of
    [int] on a [str], and [build_company_id_mapping].

    Conventions.  A naive Python [datetime] is the number of microseconds
    since 0001-01-01T00:00:00 (a [Z]); a [timedelta] is a number of
    microseconds.  Python raises [OverflowError] outside
    [datetime.min, datetime.max]; the arithmetic below is total on [Z] and
    [valid_datetime] states the range where it matters.  Python floats are
    the kernel's binary64 floats. *)

From Stdlib Require Import ZArith Lia List Bool Ascii String.
From Stdlib Require Import PrimFloat FloatOps SpecFloat Uint63.
From stdpp Require Import gmap strings list.

Local Open Scope Z_scope.

(** ** Datetimes *)

Module DT.

Definition SECOND : Z := 1000000.
Definition MINUTE : Z := 60 * SECOND.
Definition HOUR : Z := 60 * MINUTE.
Definition DAY : Z := 24 * HOUR.

(** [date.max.toordinal()] is 3652059 (9999-12-31); ordinal 1 is
    0001-01-01, day number 0 here. *)
Definition MAX_ORDINAL : Z := 3652059.

Definition valid_datetime (t : Z) : Prop := 0 <= t < MAX_ORDINAL * DAY.

(** Number of the calendar day of [t] and its time of day. *)
Definition day_of (t : Z) : Z := t / DAY.
Definition tod_of (t : Z) : Z := t mod DAY.

(** [d.weekday()]: Monday is 0, Sunday is 6.  Python computes
    [(toordinal() + 6) % 7] and [toordinal() = day_of t + 1]. *)
Definition weekday (t : Z) : Z := (day_of t + 1 + 6) mod 7.

Definition days (n : Z) : Z := n * DAY.
Definition hours (n : Z) : Z := n * HOUR.
Definition seconds (n : Z) : Z := n * SECOND.

(** [d.hour], [d.minute], [d.second], [d.microsecond]. *)
Definition hour (t : Z) : Z := tod_of t / HOUR.
Definition minute (t : Z) : Z := (tod_of t mod HOUR) / MINUTE.
Definition second (t : Z) : Z := (tod_of t mod MINUTE) / SECOND.
Definition microsecond (t : Z) : Z := tod_of t mod SECOND.

(** [d.replace(hour=h, minute=m, second=s, microsecond=us)]. *)
Definition replace_hmsu (t h m s us : Z) : Z :=
  day_of t * DAY + h * HOUR + m * MINUTE + s * SECOND + us.

(** [d.replace(second=s, microsecond=us)]. *)
Definition replace_su (t s us : Z) : Z :=
  t - tod_of t mod MINUTE + s * SECOND + us.

(** [d.replace(microsecond=us)]. *)
Definition replace_u (t us : Z) : Z := t - microsecond t + us.

(** [(a - b).days]: a timedelta is normalised with a floored day count. *)
Definition delta_days (a b : Z) : Z := (a - b) / DAY.

Lemma DAY_val : DAY = 86400000000.
Proof. reflexivity. Qed.

(** Linear arithmetic with floored division and modulo by constants. *)
Ltac dlia := Z.to_euclidean_division_equations; lia.

Lemma day_tod (t : Z) : t = day_of t * DAY + tod_of t.
Proof. unfold day_of, tod_of. rewrite DAY_val. dlia. Qed.

Lemma tod_range (t : Z) : 0 <= tod_of t < DAY.
Proof. unfold tod_of. rewrite DAY_val. dlia. Qed.

Lemma day_of_add_days (t n : Z) : day_of (t + days n) = day_of t + n.
Proof.
  unfold day_of, days. rewrite Z.div_add by (rewrite DAY_val; lia). reflexivity.
Qed.

Lemma day_of_mono (a b : Z) : a <= b -> day_of a <= day_of b.
Proof. unfold day_of. rewrite DAY_val. intros. apply Z.div_le_mono; lia. Qed.

End DT.

(** ** [utils/helpers.py]: [skip_weekend] *)

Module SkipWeekend.

(** [[
def skip_weekend(date):
    weekday = date.weekday()
    if weekday == 5:  # Saturday
        date = date + timedelta(days=2)
    elif weekday == 6:  # Sunday
        date = date + timedelta(days=1)
    return date
]] *)
Definition skip_weekend (date : Z) : Z :=
  let weekday := DT.weekday date in
  if weekday =? 5 then date + DT.days 2
  else if weekday =? 6 then date + DT.days 1
  else date.

Definition is_weekend (t : Z) : bool :=
  (DT.weekday t =? 5) || (DT.weekday t =? 6).

Lemma weekday_range (t : Z) : 0 <= DT.weekday t < 7.
Proof. unfold DT.weekday. apply Z.mod_pos_bound. lia. Qed.

Lemma weekday_add_days (t n : Z) :
  DT.weekday (t + DT.days n) = (DT.weekday t + n) mod 7.
Proof.
  unfold DT.weekday. rewrite DT.day_of_add_days.
  rewrite Zplus_mod_idemp_l. f_equal. lia.
Qed.

Lemma skip_weekend_weekday (t : Z) :
  DT.weekday (skip_weekend t) =
  if is_weekend t then 0 else DT.weekday t.
Proof.
  unfold skip_weekend, is_weekend.
  destruct (DT.weekday t =? 5) eqn:E5; simpl.
  - apply Z.eqb_eq in E5. rewrite weekday_add_days, E5. reflexivity.
  - destruct (DT.weekday t =? 6) eqn:E6; [|reflexivity].
    apply Z.eqb_eq in E6. rewrite weekday_add_days, E6. reflexivity.
Qed.

Lemma skip_weekend_fixes_weekdays (t : Z) :
  is_weekend t = false -> skip_weekend t = t.
Proof.
  unfold skip_weekend, is_weekend. intros H.
  apply orb_false_iff in H as [-> ->]. reflexivity.
Qed.

(** The last representable day, 9999-12-31, is a Friday, so moving a
    weekend day to the next Monday never leaves the datetime range. *)
Lemma skip_weekend_valid (t : Z) :
  DT.valid_datetime t -> DT.valid_datetime (skip_weekend t).
Proof.
  unfold DT.valid_datetime, skip_weekend, DT.weekday, DT.day_of, DT.days.
  rewrite DT.DAY_val. unfold DT.MAX_ORDINAL. intros H.
  destruct (_ =? 5) eqn:E5; [apply Z.eqb_eq in E5; DT.dlia|].
  destruct (_ =? 6) eqn:E6; [apply Z.eqb_eq in E6; DT.dlia|].
  lia.
Qed.

Lemma skip_weekend_not_weekend (t : Z) : is_weekend (skip_weekend t) = false.
Proof.
  unfold is_weekend at 1. rewrite skip_weekend_weekday.
  destruct (is_weekend t) eqn:E; [reflexivity|exact E].
Qed.

(** 2026-11-07 is a Saturday (day number 739926), 2026-11-09 a Monday. *)
Example skip_weekend_saturday :
  DT.weekday (DT.days 739926 + DT.hours 15) = 5 /\
  skip_weekend (DT.days 739926 + DT.hours 15) = DT.days 739928 + DT.hours 15.
Proof. split; reflexivity. Qed.

(** C10. For every datetime, [skip_weekend] returns a datetime that is
    neither a Saturday nor a Sunday, returns a weekday input unchanged,
    and is idempotent; a datetime in Python's range stays in range, so
    the addition never overflows. *)
Theorem skip_weekend_weekday_idempotent (date : Z) :
  is_weekend (skip_weekend date) = false /\
  (is_weekend date = false -> skip_weekend date = date) /\
  skip_weekend (skip_weekend date) = skip_weekend date /\
  (DT.valid_datetime date -> DT.valid_datetime (skip_weekend date)).
Proof.
  split; [apply skip_weekend_not_weekend|].
  split; [apply skip_weekend_fixes_weekdays|].
  split; [|apply skip_weekend_valid].
  apply skip_weekend_fixes_weekdays, skip_weekend_not_weekend.
Qed.

End SkipWeekend.

(** Python [str] operations on strings of code points below 256. *)

Module PyStr.

Local Open Scope N_scope.

Definition code (c : ascii) : N := N_of_ascii c.

(** [str.isspace] on one character (also what [\s] matches). *)
Definition isspace (c : ascii) : bool :=
  let n := code c in
  ((9 <=? n) && (n <=? 13)) || ((28 <=? n) && (n <=? 32))
  || (n =? 133) || (n =? 160).

Fixpoint lstrip (s : string) : string :=
  match s with
  | EmptyString => EmptyString
  | String c r => if isspace c then lstrip r else s
  end.

Fixpoint rstrip (s : string) : string :=
  match s with
  | EmptyString => EmptyString
  | String c r =>
      match rstrip r with
      | EmptyString => if isspace c then EmptyString else String c EmptyString
      | r' => String c r'
      end
  end.

(** [s.strip()] *)
Definition strip (s : string) : string := rstrip (lstrip s).

Definition lower_char (c : ascii) : ascii :=
  let n := code c in
  if ((65 <=? n) && (n <=? 90)) || ((192 <=? n) && (n <=? 222) && negb (n =? 215))
  then ascii_of_N (n + 32) else c.

(** [s.lower()] *)
Fixpoint lower (s : string) : string :=
  match s with
  | EmptyString => EmptyString
  | String c r => String (lower_char c) (lower r)
  end.

(** [not s] for a string. *)
Definition is_empty (s : string) : bool :=
  match s with EmptyString => true | _ => false end.

End PyStr.

(** ** [core/example_entity.py]: deduplication in [seed_example_entity] *)

Module Dedup.

(** A candidate record: the value under ["name"] ([None] when the key is
    absent; a name is text) and the other fields, which deduplication
    never reads. *)
Record entity : Type := mk_entity {
  name : option string;
  payload : list (string * string)
}.

(** [entity.get("name", "").strip()] *)
Definition entity_name (e : entity) : string :=
  PyStr.strip (default EmptyString (name e)).

(** [entity_name.lower()]: the case-insensitive trimmed name. *)
Definition entity_name_lower (e : entity) : string :=
  PyStr.lower (entity_name e).

(** [[
seen_names = set()
unique_entities = []
for entity in entities_data:
    entity_name = entity.get("name", "").strip()
    if not entity_name:
        continue
    entity_name_lower = entity_name.lower()
    if entity_name_lower not in seen_names:
        seen_names.add(entity_name_lower)
        unique_entities.append(entity)
]] *)
Fixpoint dedup_loop (entities_data : list entity)
    (seen_names : gset string) (unique_entities : list entity)
    : gset string * list entity :=
  match entities_data with
  | [] => (seen_names, unique_entities)
  | entity :: rest =>
      if PyStr.is_empty (entity_name entity)
      then dedup_loop rest seen_names unique_entities
      else
        let entity_name_lower := entity_name_lower entity in
        if decide (entity_name_lower ∈ seen_names)
        then dedup_loop rest seen_names unique_entities
        else dedup_loop rest ({[entity_name_lower]} ∪ seen_names)
                        (unique_entities ++ [entity])
  end.

Definition deduplicate (entities_data : list entity) : list entity :=
  snd (dedup_loop entities_data ∅ []).

(** The records the loop appends when it starts with [seen]. *)
Fixpoint kept (seen : gset string) (es : list entity) : list entity :=
  match es with
  | [] => []
  | e :: rest =>
      if PyStr.is_empty (entity_name e) then kept seen rest
      else if decide (entity_name_lower e ∈ seen) then kept seen rest
      else e :: kept ({[entity_name_lower e]} ∪ seen) rest
  end.

(** A record that carries a name, and the test "its folded name is [k]". *)
Definition named (e : entity) : bool := negb (PyStr.is_empty (entity_name e)).

Lemma dedup_loop_kept es : forall seen unique,
  snd (dedup_loop es seen unique) = unique ++ kept seen es.
Proof.
  induction es as [|e es IH]; intros seen unique; simpl.
  - by rewrite app_nil_r.
  - destruct (PyStr.is_empty (entity_name e)); [apply IH|].
    destruct (decide (entity_name_lower e ∈ seen)); [apply IH|].
    rewrite IH, <- app_assoc. reflexivity.
Qed.

Lemma deduplicate_kept es : deduplicate es = kept ∅ es.
Proof. unfold deduplicate. by rewrite dedup_loop_kept. Qed.

Lemma kept_sublist es : forall seen, sublist (kept seen es) es.
Proof.
  induction es as [|e es IH]; intros seen; simpl; [constructor|].
  destruct (PyStr.is_empty (entity_name e)); [by constructor|].
  destruct (decide (entity_name_lower e ∈ seen)); by constructor.
Qed.

Lemma kept_fresh es : forall seen e,
  In e (kept seen es) -> named e = true /\ entity_name_lower e ∉ seen.
Proof.
  induction es as [|x es IH]; intros seen e; simpl; [tauto|].
  destruct (PyStr.is_empty (entity_name x)) eqn:Hx; [apply IH|].
  destruct (decide (entity_name_lower x ∈ seen)) as [Hin|Hin]; [apply IH|].
  intros [<-|He].
  - unfold named. rewrite Hx. auto.
  - destruct (IH _ _ He) as [? ?]. split; [done|set_solver].
Qed.

Lemma kept_NoDup es : forall seen,
  NoDup (map entity_name_lower (kept seen es)).
Proof.
  induction es as [|x es IH]; intros seen; simpl; [constructor|].
  destruct (PyStr.is_empty (entity_name x)); [apply IH|].
  destruct (decide (entity_name_lower x ∈ seen)); [apply IH|].
  simpl. apply NoDup_cons. split; [|apply IH].
  rewrite list_elem_of_In, in_map_iff. intros (e & Heq & He).
  apply kept_fresh in He as [_ He]. rewrite Heq in He. set_solver.
Qed.



End Dedup.

(** ** [datetime.isoformat] *)

Module Iso.

Definition digit (n : Z) : ascii := ascii_of_N (Z.to_N (48 + n mod 10)).

(** [n] in decimal on [width] digits, zero padded ([%02d], [%04d], [%06d]). *)
Fixpoint pad (width : nat) (n : Z) : string :=
  match width with
  | O => EmptyString
  | S w => (pad w (n / 10) ++ String (digit n) EmptyString)%string
  end.

(** Year, month and day of a day number (0 is 0001-01-01) in the
    proleptic Gregorian calendar, by 400-year eras that start on 1 March. *)
Definition civil (n : Z) : Z * Z * Z :=
  let z := n + 306 in
  let era := z / 146097 in
  let doe := z - era * 146097 in
  let yoe := (doe - doe / 1460 + doe / 36524 - doe / 146096) / 365 in
  let doy := doe - (365 * yoe + yoe / 4 - yoe / 100) in
  let mp := (5 * doy + 2) / 153 in
  let d := doy - (153 * mp + 2) / 5 + 1 in
  let m := if mp <? 10 then mp + 3 else mp - 9 in
  let y := yoe + era * 400 + (if m <=? 2 then 1 else 0) in
  (y, m, d).

(** [d.isoformat()] of a naive datetime: the fraction is printed only
    when the microsecond is not zero. *)
Definition isoformat (t : Z) : string :=
  let '(y, m, d) := civil (DT.day_of t) in
  (pad 4 y ++ "-" ++ pad 2 m ++ "-" ++ pad 2 d ++ "T"
   ++ pad 2 (DT.hour t) ++ ":" ++ pad 2 (DT.minute t) ++ ":"
   ++ pad 2 (DT.second t)
   ++ (if (DT.microsecond t =? 0)%Z then EmptyString
       else "." ++ pad 6 (DT.microsecond t)))%string.

(** A datetime from its fields, for examples. *)
Definition at_time (day h m s us : Z) : Z :=
  DT.days day + DT.hours h + m * DT.MINUTE + DT.seconds s + us.

Example isoformat_2026 :
  isoformat (at_time 739923 15 4 5 0) = "2026-11-04T15:04:05"%string.
Proof. reflexivity. Qed.

Example isoformat_leap_day :
  isoformat (at_time 738944 0 0 0 120) = "2024-02-29T00:00:00.000120"%string.
Proof. reflexivity. Qed.

Example isoformat_min_max :
  isoformat 0 = "0001-01-01T00:00:00"%string /\
  isoformat (DT.MAX_ORDINAL * DT.DAY - 1) = "9999-12-31T23:59:59.999999"%string.
Proof. split; reflexivity. Qed.

End Iso.

(** ** [utils/helpers.py]: [ensure_unique_datetime] *)

Module UniqueDatetime.

(** The two [logger.warning] calls of the function. *)
Inductive warning : Type :=
  | CannotFindInRange     (* "Cannot find unique timestamp for ... in range" *)
  | CouldNotFindUnique.   (* "Could not find unique datetime ... after 86400 attempts" *)

(** What a call leaves behind: the returned datetime, the mutated
    [used_dates] and [counters], the last value of the loop variable
    [attempt] (0 when the loop was not entered) and the warnings logged. *)
Record outcome : Type := mk_outcome {
  ret : Z;
  used_after : gset string;
  counters_after : gmap string Z;
  last_attempt : Z;
  log : list warning
}.

Definition max_attempts : Z := 86400.

(** [date > max_date] and [date < min_date] under [if max_date and ...]:
    a datetime is always truthy, so only [None] skips the test. *)
Definition above (bound : option Z) (date : Z) : bool :=
  match bound with Some m => m <? date | None => false end.
Definition below (bound : option Z) (date : Z) : bool :=
  match bound with Some m => date <? m | None => false end.

Section Probe.

Variable used_dates : gset string.
Variables min_date max_date : option Z.
Variable original_date : Z.

(** The datetime tried at one attempt: a second further, or a second
    back once the forward step passes [max_date]. *)
Definition candidate (attempt : Z) : Z :=
  let date := original_date + DT.seconds attempt in
  if above max_date date then original_date - DT.seconds attempt else date.

(** The backward step left the range: the loop breaks. *)
Definition out_of_range (attempt : Z) : bool :=
  above max_date (original_date + DT.seconds attempt)
  && below min_date (original_date - DT.seconds attempt).

(** How the [for] loop ends, with the values its variables then hold. *)
Inductive loop_exit : Type :=
  | Found (date : Z) (attempt : Z)
  | Broke (date : Z) (timestamp_str : string) (attempt : Z)
  | Ran_out (date : Z) (timestamp_str : string) (attempt : Z).

(** [[
for attempt in range(1, max_attempts + 1):
    date = original_date + timedelta(seconds=attempt)
    if max_date and date > max_date:
        date = original_date - timedelta(seconds=attempt)
        if min_date and date < min_date:
            logger.warning(...)
            break
    timestamp_str = date.isoformat()
    if timestamp_str not in used_dates:
        used_dates.add(timestamp_str)
        return date
]]
    [remaining] counts the iterations left; [date], [timestamp_str] and
    [prev_attempt] are the values the variables hold on entry. *)
Fixpoint probe (remaining : nat) (attempt : Z)
    (date : Z) (timestamp_str : string) (prev_attempt : Z) : loop_exit :=
  match remaining with
  | O => Ran_out date timestamp_str prev_attempt
  | S remaining' =>
      let date := original_date + DT.seconds attempt in
      if above max_date date then
        let date := original_date - DT.seconds attempt in
        if below min_date date then Broke date timestamp_str attempt
        else
          let timestamp_str := Iso.isoformat date in
          if decide (timestamp_str ∈ used_dates)
          then probe remaining' (attempt + 1) date timestamp_str attempt
          else Found date attempt
      else
        let timestamp_str := Iso.isoformat date in
        if decide (timestamp_str ∈ used_dates)
        then probe remaining' (attempt + 1) date timestamp_str attempt
        else Found date attempt
  end.

End Probe.

(** [[
date = date.replace(microsecond=0)
if max_date and date > max_date:
    date = max_date
if min_date and date < min_date:
    date = min_date
]] *)
Definition normalise (date : Z) (min_date max_date : option Z) : Z :=
  let date := DT.replace_u date 0 in
  let date := if above max_date date then default date max_date else date in
  if below min_date date then default date min_date else date.

(** [if field_name and field_name in counters:
       counters[field_name] = counters.get(field_name, 0) + 1] *)
Definition bump (field_name : string) (counters : gmap string Z)
    : gmap string Z :=
  match counters !! field_name with
  | Some n => if PyStr.is_empty field_name then counters
              else <[field_name := n + 1]> counters
  | None => counters
  end.

Definition ensure_unique_datetime (date : Z) (used_dates : gset string)
    (min_date max_date : option Z) (field_name : string)
    (counters : gmap string Z) : outcome :=
  let date := normalise date min_date max_date in
  let timestamp_str := Iso.isoformat date in
  if decide (timestamp_str ∈ used_dates) then
    let counters := bump field_name counters in
    let original_date := date in
    match probe used_dates min_date max_date original_date
                (Z.to_nat max_attempts) 1 date timestamp_str 0 with
    | Found date attempt =>
        mk_outcome date ({[Iso.isoformat date]} ∪ used_dates) counters
                   attempt []
    | Broke date timestamp_str attempt =>
        mk_outcome date ({[timestamp_str]} ∪ used_dates) counters attempt
                   [CannotFindInRange; CouldNotFindUnique]
    | Ran_out date timestamp_str attempt =>
        mk_outcome date ({[timestamp_str]} ∪ used_dates) counters attempt
                   [CouldNotFindUnique]
    end
  else
    mk_outcome date ({[timestamp_str]} ∪ used_dates) counters 0 [].

Section ProbeFacts.

Variable used_dates : gset string.
Variables min_date max_date : option Z.
Variable original_date : Z.

Local Abbreviation candidate := (candidate max_date original_date).
Local Abbreviation out_of_range := (out_of_range min_date max_date original_date).
Local Abbreviation probe := (probe used_dates min_date max_date original_date).

(** Every attempt in [from, to) met a used timestamp. *)
Definition all_used (from to : Z) : Prop :=
  forall j, from <= j < to -> Iso.isoformat (candidate j) ∈ used_dates.

Lemma all_used_empty a : all_used a a.
Proof. intros j Hj. lia. Qed.

Lemma all_used_step a b :
  Iso.isoformat (candidate a) ∈ used_dates ->
  all_used (a + 1) b -> all_used a b.
Proof.
  intros Ha Hab j Hj. destruct (Z.eq_dec j a) as [->|Hne]; [exact Ha|].
  apply Hab. lia.
Qed.

Lemma probe_exit (remaining : nat) : forall attempt date ts prev,
  ts ∈ used_dates ->
  match probe remaining attempt date ts prev with
  | Found d k =>
      attempt <= k < attempt + Z.of_nat remaining /\ d = candidate k /\
      (Iso.isoformat d ∉ used_dates) /\ all_used attempt k
  | Broke d ts' k =>
      attempt <= k < attempt + Z.of_nat remaining /\
      out_of_range k = true /\ d = original_date - DT.seconds k /\
      ts' ∈ used_dates /\ all_used attempt k
  | Ran_out d ts' k =>
      all_used attempt (attempt + Z.of_nat remaining) /\ ts' ∈ used_dates /\
      (remaining = O /\ d = date /\ k = prev \/
       k = attempt + Z.of_nat remaining - 1 /\ d = candidate k /\
       attempt <= k)
  end.
Proof.
  induction remaining as [|n IH]; intros attempt date ts prev Hts.
  - simpl. rewrite Z.add_0_r. split; [apply all_used_empty|]. auto.
  - cbn [UniqueDatetime.probe].
    assert (Hc : candidate attempt =
                 if above max_date (original_date + DT.seconds attempt)
                 then original_date - DT.seconds attempt
                 else original_date + DT.seconds attempt) by reflexivity.
    destruct (above max_date (original_date + DT.seconds attempt)) eqn:Hab.
    + destruct (below min_date (original_date - DT.seconds attempt)) eqn:Hbe.
      * repeat split; try lia; try done.
        -- unfold UniqueDatetime.out_of_range. by rewrite Hab, Hbe.
        -- apply all_used_empty.
      * destruct (decide (_ ∈ used_dates)) as [Hin|Hout].
        -- specialize (IH (attempt + 1) (original_date - DT.seconds attempt)
                         _ attempt Hin).
           rewrite <- Hc in Hin.
           destruct (probe n _ _ _ _) as [d k|d ts' k|d ts' k].
           ++ destruct IH as (? & ? & ? & ?).
              repeat split; try lia; try done. by apply all_used_step.
           ++ destruct IH as (? & ? & ? & ? & ?).
              repeat split; try lia; try done. by apply all_used_step.
           ++ destruct IH as (Hall & ? & Hk).
              split; [|split; [done|right]].
              ** apply all_used_step; [done|].
                 by replace (attempt + Z.of_nat (S n))
                   with (attempt + 1 + Z.of_nat n) by lia.
              ** destruct Hk as [(-> & -> & ->)|(-> & -> & ?)].
                 --- simpl. rewrite Hc. split; [lia|]. split; [done|lia].
                 --- split; [lia|]. split; [done|lia].
        -- rewrite <- Hc in *. repeat split; try lia; try done.
           apply all_used_empty.
    + destruct (decide (_ ∈ used_dates)) as [Hin|Hout].
      * specialize (IH (attempt + 1) (original_date + DT.seconds attempt)
                       _ attempt Hin).
        rewrite <- Hc in Hin.
        destruct (probe n _ _ _ _) as [d k|d ts' k|d ts' k].
        -- destruct IH as (? & ? & ? & ?).
           repeat split; try lia; try done. by apply all_used_step.
        -- destruct IH as (? & ? & ? & ? & ?).
           repeat split; try lia; try done. by apply all_used_step.
        -- destruct IH as (Hall & ? & Hk).
           split; [|split; [done|right]].
           ++ apply all_used_step; [done|].
              by replace (attempt + Z.of_nat (S n))
                with (attempt + 1 + Z.of_nat n) by lia.
           ++ destruct Hk as [(-> & -> & ->)|(-> & -> & ?)].
              ** simpl. rewrite Hc. split; [lia|]. split; [done|lia].
              ** split; [lia|]. split; [done|lia].
      * rewrite <- Hc in *. repeat split; try lia; try done.
        apply all_used_empty.
Qed.

End ProbeFacts.

(** A used timestamp is returned after a single attempt: with
    [min_date = max_date = date] the first forward step passes [max_date],
    the backward step passes [min_date], and the loop breaks. *)
Definition noon : Z := Iso.at_time 739923 12 0 0 0.
Definition noon_taken : gset string :=
  {[ Iso.isoformat noon; Iso.isoformat (noon - DT.seconds 1) ]}.



End UniqueDatetime.

(** ** Python numbers *)

Module PyNum.

(** [float(n)] for an [int] below 2^63 in absolute value (day counts and
    list lengths are far below 2^53, where the conversion is exact). *)
Definition float_of_int (n : Z) : float :=
  if n <? 0 then PrimFloat.opp (PrimFloat.of_uint63 (Uint63.of_Z (- n)))
  else PrimFloat.of_uint63 (Uint63.of_Z n).

(** [int(x)]: truncation toward zero.  Python raises on an infinity or a
    NaN, which the finite operands of this program never produce; the
    model returns 0 there. *)
Definition int_of_float (x : float) : Z :=
  match Prim2SF x with
  | S754_finite s m e =>
      let a := match e with
               | Z0 => Zpos m
               | Zpos p => Zpos m * 2 ^ Zpos p
               | Zneg p => Zpos m / 2 ^ Zpos p
               end in
      if s then - a else a
  | _ => 0
  end.

(** [a / b] on two ints: the correctly rounded quotient. *)
Definition true_div (a b : Z) : float :=
  PrimFloat.div (float_of_int a) (float_of_int b).

(** The literals [0.3] and [0.7]: the nearest binary64 values. *)
Definition f0_3 : float := 0x1.3333333333333p-2%float.
Definition f0_7 : float := 0x1.6666666666666p-1%float.

Example int_of_float_truncates :
  int_of_float (PrimFloat.div (float_of_int 7) (float_of_int 2)) = 3 /\
  int_of_float (PrimFloat.div (float_of_int (-7)) (float_of_int 2)) = -3 /\
  int_of_float (PrimFloat.mul f0_3 (float_of_int 10)) = 3 /\
  int_of_float (PrimFloat.mul (true_div 1 49) (float_of_int 49)) = 0.
Proof. repeat split; reflexivity. Qed.

End PyNum.

(** ** [utils/data_utils.py]: [update_entity_dates] *)

Module Backfill.

Import PyNum.

(** What [original_item.get(key, "")] followed by
    [safe_strptime(s, "%d-%m-%y %I:%M %p")] amounts to: a missing or
    empty value, a value that [strptime] rejects ([safe_strptime] returns
    [None]), or a parsed datetime. *)
Inductive date_field : Type :=
  | Absent
  | Unparsable
  | Parsed (d : Z).

(** The reference record of a seeded item, as far as the dates read it. *)
Record reference : Type := mk_reference {
  createdDateTime : date_field;
  modifiedDateTime : date_field
}.

(** The time of day synthesised from the index. *)
Definition hours_of (date_idx : Z) : Z :=
  Z.min 17 (Z.max 8 (8 + (date_idx * 7) mod 10)).
Definition minutes_of (date_idx : Z) : Z := (date_idx * 11) mod 60.
Definition seconds_of (date_idx : Z) : Z := (date_idx * 19) mod 60.
Definition microseconds_of (date_idx : Z) : Z := (date_idx * 23) mod 1000000.

(** [date.replace(hour=hours, minute=minutes, second=seconds,
    microsecond=microseconds)] with the four values above. *)
Definition at_index_time (date : Z) (date_idx : Z) : Z :=
  DT.replace_hmsu date (hours_of date_idx) (minutes_of date_idx)
                  (seconds_of date_idx) (microseconds_of date_idx).

(** The time of day of the modification, derived from the creation
    timestamp's own fields. *)
Definition mod_hours_of (created_date date_idx : Z) : Z :=
  Z.min 17 (Z.max 8 (8 + (DT.hour created_date + date_idx * 7) mod 10)).
Definition mod_minutes_of (created_date date_idx : Z) : Z :=
  (DT.minute created_date + date_idx * 11) mod 60.
Definition mod_seconds_of (created_date date_idx : Z) : Z :=
  (DT.second created_date + date_idx * 19) mod 60.
Definition mod_microseconds_of (date_idx : Z) : Z :=
  (date_idx * 29) mod 1000000.

(** The local variables of the modification pass that later statements
    read again. *)
Record locals : Type := mk_locals {
  modified_date : Z;
  mod_hours : Z;
  mod_minutes : Z;
  mod_seconds : Z;
  mod_microseconds : Z
}.

Definition with_modified (l : locals) (d : Z) : locals :=
  mk_locals d (mod_hours l) (mod_minutes l) (mod_seconds l)
            (mod_microseconds l).

Definition with_mod_hours (l : locals) (h : Z) : locals :=
  mk_locals (modified_date l) h (mod_minutes l) (mod_seconds l)
            (mod_microseconds l).

Definition with_mod_time (l : locals) (h m s us : Z) : locals :=
  mk_locals (modified_date l) h m s us.

(** [modified_date = modified_date.replace(hour=mod_hours,
    minute=mod_minutes, second=mod_seconds, microsecond=mod_microseconds)] *)
Definition replace_mod (l : locals) : locals :=
  with_modified l
    (DT.replace_hmsu (modified_date l) (mod_hours l) (mod_minutes l)
                     (mod_seconds l) (mod_microseconds l)).

(** [modified_date = modified_date.replace(microsecond=mod_microseconds)] *)
Definition replace_mod_micro (l : locals) : locals :=
  with_modified l (DT.replace_u (modified_date l) (mod_microseconds l)).

Section Record.

(** [now] is the reading of line 94, [min_date = now - timedelta(days=days_range)];
    [clock n] is the n-th later value of [datetime.now()]. *)
Variable clock : nat -> Z.
Variables now days_range total_items : Z.

Definition min_date : Z := now - DT.days days_range.

(** Lines 136-142: the position-based target when a reference creation
    date exists. *)
Definition days_offset_of (date_idx : Z) : Z :=
  if 1 <? total_items then
    let linear_offset :=
      PrimFloat.mul (true_div date_idx (total_items - 1))
                    (float_of_int days_range) in
    let variation_divisor := Z.max 10 (days_range / 10) in
    let prime_variation :=
      if 0 <? variation_divisor then (date_idx * 17) mod variation_divisor
      else 0 in
    int_of_float (PrimFloat.add linear_offset (float_of_int prime_variation))
  else days_range / 2.

(** Lines 133-167. *)
Definition created_from_reference (parsed_date date_idx : Z) : Z :=
  let parsed_date :=
    if now <? parsed_date then now - DT.days 1 else parsed_date in
  let days_offset := days_offset_of date_idx in
  let days_from_parsed := DT.delta_days parsed_date min_date in
  let days_from_parsed := Z.max 0 (Z.min days_from_parsed days_range) in
  let blended_days :=
    int_of_float
      (PrimFloat.add (PrimFloat.mul f0_3 (float_of_int days_from_parsed))
                     (PrimFloat.mul f0_7 (float_of_int days_offset))) in
  let blended_days := Z.max 0 (Z.min blended_days days_range) in
  let created_date := min_date + DT.days blended_days in
  let created_date :=
    if now <? created_date then now - DT.days 1 else created_date in
  let created_date :=
    if created_date <? min_date then min_date else created_date in
  let created_date := at_index_time created_date date_idx in
  if now <? created_date then at_index_time (now - DT.days 1) date_idx
  else created_date.

(** Lines 177-185: the days-ago value when no reference creation date
    is usable. *)
Definition days_ago_of (date_idx : Z) : Z :=
  let days_ago :=
    if 1 <? total_items then
      let linear_days :=
        PrimFloat.add (float_of_int 1)
          (PrimFloat.mul (true_div date_idx (total_items - 1))
                         (float_of_int (days_range - 1))) in
      let variation_divisor := Z.max 10 (days_range / 20) in
      let prime_variation :=
        if 0 <? variation_divisor then (date_idx * 17) mod variation_divisor
        else 0 in
      int_of_float (PrimFloat.add linear_days (float_of_int prime_variation))
    else days_range / 2 in
  Z.max 1 (Z.min days_ago days_range).

(** Lines 176-198; [fresh_now] is the value of the [datetime.now()] call
    of line 193. *)
Definition created_default (fresh_now date_idx : Z) : Z :=
  let days_ago := days_ago_of date_idx in
  let created_date := fresh_now - DT.days days_ago in
  let created_date := at_index_time created_date date_idx in
  if now <? created_date then at_index_time (now - DT.days 1) date_idx
  else created_date.

(** Lines 200-207. *)
Definition days_variation_of (date_idx : Z) : Z :=
  let days_variation :=
    if 1 <? total_items then
      let linear_days :=
        PrimFloat.add (float_of_int 1)
          (PrimFloat.mul (true_div date_idx (total_items - 1))
                         (float_of_int 179)) in
      let prime_variation := (date_idx * 13) mod 7 in
      int_of_float (PrimFloat.add linear_days (float_of_int prime_variation))
    else 30 in
  Z.max 1 (Z.min days_variation 180).

(** Lines 221-228. *)
Definition days_variation_within (max_days date_idx : Z) : Z :=
  let days_variation :=
    if 1 <? total_items then
      let linear_days :=
        PrimFloat.add (float_of_int 1)
          (PrimFloat.mul (true_div date_idx (total_items - 1))
                         (float_of_int (max_days - 1))) in
      let variation_divisor := Z.max 1 (Z.min 7 (max_days / 10)) in
      let prime_variation :=
        if 0 <? variation_divisor then (date_idx * 13) mod variation_divisor
        else 0 in
      int_of_float (PrimFloat.add linear_days (float_of_int prime_variation))
    else Z.max 1 (max_days / 2) in
  Z.max 1 (Z.min days_variation max_days).

(** Lines 209-216: the first modification date and its time of day. *)
Definition modified_initial (created_date date_idx : Z) : locals :=
  let days_variation := days_variation_of date_idx in
  replace_mod
    (mk_locals (created_date + DT.days days_variation)
       (mod_hours_of created_date date_idx)
       (mod_minutes_of created_date date_idx)
       (mod_seconds_of created_date date_idx)
       (mod_microseconds_of date_idx)).

(** Lines 218-256: narrowing when the first modification date is in
    the future. *)
Definition modified_narrowed (created_date date_idx : Z) (l : locals)
    : locals :=
  if now <? modified_date l then
    let max_days := DT.delta_days now created_date in
    if 0 <? max_days then
      let days_variation := days_variation_within max_days date_idx in
      let l := with_modified l (created_date + DT.days days_variation) in
      let l := with_mod_time l
                 (mod_hours_of created_date date_idx)
                 (mod_minutes_of created_date date_idx)
                 (mod_seconds_of created_date date_idx)
                 (mod_microseconds_of date_idx) in
      if modified_date l <=? now then replace_mod l
      else
        let l := with_mod_hours l (Z.min (DT.hour created_date + 1) 17) in
        let l := replace_mod l in
        if now <? modified_date l
        then with_modified l
               (DT.replace_su now (mod_seconds l) (mod_microseconds l))
        else l
    else
      if DT.day_of created_date =? DT.day_of now then
        let hours_offset := 1 + date_idx mod 2 in
        let l := with_mod_time l (mod_hours l) (mod_minutes l)
                   (seconds_of date_idx) (mod_microseconds_of date_idx) in
        let l := with_modified l
                   (created_date + DT.hours hours_offset
                    + DT.seconds (mod_seconds l)) in
        let l := replace_mod_micro l in
        if now <? modified_date l then
          let l := with_modified l
                     (created_date + DT.seconds (mod_seconds l)) in
          let l := replace_mod_micro l in
          if now <? modified_date l then with_modified l created_date
          else l
        else l
      else with_modified l created_date
  else l.

(** Lines 258-260. *)
Definition modified_not_before (created_date : Z) (l : locals) : locals :=
  if modified_date l <? created_date
  then replace_mod (with_modified l (created_date + DT.days 1))
  else l.

(** Lines 262-279: a creation date in the future is moved to yesterday
    and the modification date redone. *)
Definition created_reclamped (created_date date_idx : Z) (l : locals)
    : Z * locals :=
  if now <? created_date then
    let created_date := at_index_time (now - DT.days 1) date_idx in
    let l :=
      if modified_date l <=? created_date then
        let l := with_modified l (created_date + DT.days 1) in
        let l := with_mod_time l
                   (mod_hours_of created_date date_idx)
                   (mod_minutes_of created_date date_idx)
                   (mod_seconds_of created_date date_idx)
                   (mod_microseconds_of date_idx) in
        replace_mod l
      else l in
    (created_date,
     if now <? modified_date l then with_modified l now else l)
  else (created_date, l).

(** Lines 281-285. *)
Definition modified_clamped (created_date : Z) (l : locals) : locals :=
  if now <? modified_date l then
    let max_modified := Z.min now (created_date + DT.days 1) in
    let l := with_modified l max_modified in
    if modified_date l <? created_date then with_modified l created_date
    else l
  else l.

(** Lines 126-174: the reference dates.  The result is the creation
    date (if one was derived), the reference modification date (if it
    parsed), and the number of [datetime.now()] calls made so far. *)
Definition from_reference (reads : nat) (date_idx : Z)
    (original_item : option reference) : option Z * option Z * nat :=
  match original_item with
  | None => (None, None, reads)
  | Some item =>
      let created_date :=
        match createdDateTime item with
        | Parsed parsed_date =>
            Some (created_from_reference parsed_date date_idx)
        | _ => None
        end in
      match modifiedDateTime item with
      | Parsed parsed_modified =>
          if clock reads <? parsed_modified
          then (created_date, Some (clock (S reads)), S (S reads))
          else (created_date, Some parsed_modified, S reads)
      | _ => (created_date, None, reads)
      end
  end.

(** The body of the loop for one record with an identifier (lines
    109-285): the pair written to [date_created] and [date_modified],
    and the number of clock readings made. *)
Definition record_dates (reads : nat) (date_idx : Z)
    (original_item : option reference) : Z * Z * nat :=
  let '(created_date, modified_date_174, reads) :=
    from_reference reads date_idx original_item in
  let '(created_date, reads) :=
    match created_date with
    | Some d => (d, reads)
    | None => (created_default (clock reads) date_idx, S reads)
    end in
  (* line 209 assigns [modified_date] whatever it held after line 174 *)
  let l := modified_initial created_date date_idx in
  let l := modified_narrowed created_date date_idx l in
  let l := modified_not_before created_date l in
  let '(created_date, l) := created_reclamped created_date date_idx l in
  let l := modified_clamped created_date l in
  (created_date, modified_date l, reads).

End Record.

(** *** Ranges of the synthesised values *)

Definition time_of_day (h m s us : Z) : Z :=
  h * DT.HOUR + m * DT.MINUTE + s * DT.SECOND + us.

Definition fields_ok (h m s us : Z) : Prop :=
  0 <= h <= 23 /\ 0 <= m <= 59 /\ 0 <= s <= 59 /\ 0 <= us <= 999999.

Definition locals_ok (l : locals) : Prop :=
  fields_ok (mod_hours l) (mod_minutes l) (mod_seconds l)
            (mod_microseconds l).

Ltac unfold_units :=
  unfold DT.replace_hmsu, DT.replace_su, DT.replace_u, DT.delta_days,
    DT.hour, DT.minute, DT.second, DT.microsecond, DT.day_of, DT.tod_of,
    DT.days, DT.hours, DT.seconds, time_of_day,
    DT.DAY, DT.HOUR, DT.MINUTE, DT.SECOND in *.

Lemma replace_hmsu_day (t h m s us : Z) :
  fields_ok h m s us ->
  DT.day_of (DT.replace_hmsu t h m s us) = DT.day_of t /\
  DT.day_of t * DT.DAY <= DT.replace_hmsu t h m s us
    < (DT.day_of t + 1) * DT.DAY.
Proof.
  unfold fields_ok. intros H. unfold_units. split.
  - symmetry. apply (Z.div_unique _ _ _
      (h * 3600000000 + m * 60000000 + s * 1000000 + us)); lia.
  - lia.
Qed.

Lemma index_fields_ok (date_idx : Z) :
  fields_ok (hours_of date_idx) (minutes_of date_idx) (seconds_of date_idx)
            (microseconds_of date_idx).
Proof.
  unfold fields_ok, hours_of, minutes_of, seconds_of, microseconds_of.
  DT.dlia.
Qed.

Lemma mod_fields_ok (created_date date_idx : Z) :
  fields_ok (mod_hours_of created_date date_idx)
            (mod_minutes_of created_date date_idx)
            (mod_seconds_of created_date date_idx)
            (mod_microseconds_of date_idx).
Proof.
  unfold fields_ok, mod_hours_of, mod_minutes_of, mod_seconds_of,
    mod_microseconds_of.
  generalize (DT.hour created_date) (DT.minute created_date)
             (DT.second created_date). intros. DT.dlia.
Qed.

Lemma hour_range (t : Z) : 0 <= DT.hour t <= 23.
Proof. unfold_units. DT.dlia. Qed.

Lemma at_index_time_day (t date_idx : Z) :
  DT.day_of (at_index_time t date_idx) = DT.day_of t /\
  DT.day_of t * DT.DAY <= at_index_time t date_idx
    < (DT.day_of t + 1) * DT.DAY.
Proof. apply replace_hmsu_day, index_fields_ok. Qed.

Lemma day_floor (t : Z) : DT.day_of t * DT.DAY <= t < (DT.day_of t + 1) * DT.DAY.
Proof. unfold_units. DT.dlia. Qed.

Lemma day_of_sub_days (t n : Z) : DT.day_of (t - DT.days n) = DT.day_of t - n.
Proof.
  replace (t - DT.days n) with (t + DT.days (- n)) by (unfold DT.days; lia).
  rewrite DT.day_of_add_days. lia.
Qed.

Section Invariants.

Variable clock : nat -> Z.
Variables now days_range total_items : Z.

Lemma days_ago_range (date_idx : Z) :
  1 <= days_ago_of days_range total_items date_idx /\
  (1 <= days_range -> days_ago_of days_range total_items date_idx <= days_range).
Proof. unfold days_ago_of. lia. Qed.

Lemma days_variation_range (date_idx : Z) :
  1 <= days_variation_of total_items date_idx <= 180.
Proof. unfold days_variation_of. lia. Qed.

Lemma days_variation_within_range (max_days date_idx : Z) :
  1 <= max_days ->
  1 <= days_variation_within total_items max_days date_idx <= max_days.
Proof. unfold days_variation_within. lia. Qed.

(** Yesterday at the index's time of day is before [now]. *)
Lemma yesterday_before_now (date_idx : Z) :
  at_index_time (now - DT.days 1) date_idx < now /\
  DT.day_of (at_index_time (now - DT.days 1) date_idx) = DT.day_of now - 1.
Proof.
  destruct (at_index_time_day (now - DT.days 1) date_idx) as [Hd Hr].
  rewrite day_of_sub_days in Hd, Hr. split; [|exact Hd].
  pose proof (day_floor now). lia.
Qed.

Lemma created_from_reference_le_now (parsed_date date_idx : Z) :
  created_from_reference now days_range total_items parsed_date date_idx
  <= now.
Proof.
  unfold created_from_reference.
  match goal with |- (if now <? ?c then _ else _) <= _ =>
    destruct (Z.ltb_spec now c) end; [|lia].
  pose proof (yesterday_before_now date_idx). lia.
Qed.

Lemma created_default_le_now (fresh_now date_idx : Z) :
  created_default now days_range total_items fresh_now date_idx <= now.
Proof.
  unfold created_default.
  match goal with |- (if now <? ?c then _ else _) <= _ =>
    destruct (Z.ltb_spec now c) end; [|lia].
  pose proof (yesterday_before_now date_idx). lia.
Qed.

Lemma min_date_day : DT.day_of (min_date now days_range) = DT.day_of now - days_range.
Proof. unfold min_date. apply day_of_sub_days. Qed.

Lemma created_from_reference_day (parsed_date date_idx : Z) :
  1 <= days_range ->
  DT.day_of (min_date now days_range)
  <= DT.day_of (created_from_reference now days_range total_items
                  parsed_date date_idx).
Proof.
  intros HD. unfold created_from_reference.
  match goal with |- _ <= DT.day_of (if now <? ?c then _ else _) =>
    destruct (Z.ltb_spec now c) end.
  - rewrite (proj2 (yesterday_before_now date_idx)), min_date_day. lia.
  - rewrite (proj1 (at_index_time_day _ date_idx)).
    match goal with |- context [Z.max 0 (Z.min ?b days_range)] =>
      generalize b end.
    intros b.
    destruct (Z.ltb_spec now (min_date now days_range
                              + DT.days (Z.max 0 (Z.min b days_range)))).
    + destruct (Z.ltb_spec (now - DT.days 1) (min_date now days_range)).
      * lia.
      * rewrite day_of_sub_days, min_date_day. lia.
    + destruct (Z.ltb_spec (min_date now days_range
                            + DT.days (Z.max 0 (Z.min b days_range)))
                           (min_date now days_range)); [lia|].
      rewrite DT.day_of_add_days. lia.
Qed.

Lemma created_default_day (fresh_now date_idx : Z) :
  1 <= days_range -> now <= fresh_now ->
  DT.day_of (min_date now days_range)
  <= DT.day_of (created_default now days_range total_items fresh_now date_idx).
Proof.
  intros HD Hfresh. unfold created_default.
  match goal with |- _ <= DT.day_of (if now <? ?c then _ else _) =>
    destruct (Z.ltb_spec now c) end.
  - rewrite (proj2 (yesterday_before_now date_idx)), min_date_day. lia.
  - rewrite (proj1 (at_index_time_day _ date_idx)).
    rewrite day_of_sub_days, min_date_day.
    pose proof (days_ago_range date_idx) as [_ Hle].
    pose proof (DT.day_of_mono _ _ Hfresh). lia.
Qed.

Lemma replace_mod_ok (l : locals) :
  locals_ok l ->
  locals_ok (replace_mod l) /\
  DT.day_of (modified_date l) * DT.DAY <= modified_date (replace_mod l).
Proof.
  intros H. split; [exact H|].
  apply (replace_hmsu_day (modified_date l)) in H. simpl. lia.
Qed.

Lemma modified_initial_ok (created_date date_idx : Z) :
  locals_ok (modified_initial total_items created_date date_idx).
Proof. apply mod_fields_ok. Qed.

Lemma modified_narrowed_ok (created_date date_idx : Z) (l : locals) :
  locals_ok l ->
  locals_ok (modified_narrowed now total_items created_date date_idx l).
Proof.
  intros Hl. unfold modified_narrowed.
  pose proof (mod_fields_ok created_date date_idx) as Hm.
  pose proof (hour_range created_date) as Hh.
  assert (Hs : locals_ok (with_mod_time l (mod_hours l) (mod_minutes l)
                 (seconds_of date_idx) (mod_microseconds_of date_idx))).
  { destruct Hl as (? & ? & ? & ?), Hm as (? & ? & ? & ?).
    pose proof (index_fields_ok date_idx) as (? & ? & ? & ?).
    unfold locals_ok, fields_ok; simpl. lia. }
  assert (Hh1 : locals_ok (with_mod_time l
                 (Z.min (DT.hour created_date + 1) 17)
                 (mod_minutes_of created_date date_idx)
                 (mod_seconds_of created_date date_idx)
                 (mod_microseconds_of date_idx))).
  { destruct Hm as (? & ? & ? & ?). unfold locals_ok, fields_ok; simpl. lia. }
  repeat match goal with
         | |- locals_ok (if ?b then _ else _) => destruct b
         end; try assumption.
Qed.

Lemma modified_not_before_ok (created_date : Z) (l : locals) :
  locals_ok l ->
  locals_ok (modified_not_before created_date l) /\
  created_date <= modified_date (modified_not_before created_date l).
Proof.
  intros Hl. unfold modified_not_before.
  destruct (Z.ltb_spec (modified_date l) created_date); [|auto].
  split; [exact Hl|].
  pose proof (replace_mod_ok (with_modified l (created_date + DT.days 1)) Hl)
    as [_ H1].
  simpl in H1. rewrite DT.day_of_add_days in H1.
  pose proof (day_floor created_date). simpl. lia.
Qed.

Lemma created_reclamped_past (created_date date_idx : Z) (l : locals) :
  created_date <= now ->
  created_reclamped now created_date date_idx l = (created_date, l).
Proof.
  intros H. unfold created_reclamped.
  destruct (Z.ltb_spec now created_date); [lia|reflexivity].
Qed.

Lemma modified_clamped_between (created_date : Z) (l : locals) :
  created_date <= now -> created_date <= modified_date l ->
  created_date <= modified_date (modified_clamped now created_date l) <= now.
Proof.
  intros Hc Hm. unfold modified_clamped.
  destruct (Z.ltb_spec now (modified_date l)); [|lia].
  simpl. unfold DT.days, DT.DAY, DT.HOUR, DT.MINUTE, DT.SECOND.
  match goal with |- context [if ?a <? ?b then _ else _] =>
    destruct (Z.ltb_spec a b) end; simpl; lia.
Qed.

Lemma from_reference_created (reads : nat) (date_idx : Z)
    (original_item : option reference) :
  match from_reference clock now days_range total_items reads date_idx
          original_item with
  | (Some d, _, _) =>
      exists parsed_date,
        d = created_from_reference now days_range total_items
              parsed_date date_idx
  | (None, _, _) => True
  end.
Proof.
  unfold from_reference. destruct original_item as [[c m]|]; [|exact I].
  simpl. destruct c as [| |p], m as [| |pm]; simpl; try exact I;
    try destruct (clock reads <? pm); eauto.
Qed.

End Invariants.

(** The run of the specification's scenario: 4 November 2026, 15:00,
    a clock that does not advance during the batch. *)
Definition run_now : Z := Iso.at_time 739923 15 0 0 0.
Definition run_clock : nat -> Z := fun _ => run_now.

(** C1, as stated, fails: with ten records, the default window of 1080
    days and no reference dates, the last record is created on the
    window's first day at 11:39:51, before [min_date] (that day at
    15:00). *)
Lemma created_at_before_min_date :
  let r := record_dates run_clock run_now 1080 10 0 9 None in
  r.1.1 = Iso.at_time 738843 11 39 51 207 /\
  min_date run_now 1080 = Iso.at_time 738843 15 0 0 0 /\
  r.1.1 < min_date run_now 1080.
Proof. vm_compute. repeat split. Qed.

(** The pair that one record gets: never in the future, in order, and
    not before the calendar day of [min_date]. *)
Lemma record_dates_bounds (clock : nat -> Z)
    (now days_range total_items : Z) (reads : nat) (date_idx : Z)
    (original_item : option reference) :
  let r := record_dates clock now days_range total_items reads date_idx
             original_item in
  let created_at := r.1.1 in
  let modified_at := r.1.2 in
  created_at <= now /\ modified_at <= now /\ created_at <= modified_at /\
  (1 <= days_range -> (forall n, now <= clock n) ->
   DT.day_of (min_date now days_range) <= DT.day_of created_at).
Proof.
  cbv zeta. unfold record_dates.
  pose proof (from_reference_created clock now days_range total_items reads
                date_idx original_item) as Href.
  destruct (from_reference _ _ _ _ _ _ _) as [[c m] reads'].
  set (created :=
         match c with
         | Some d => (d, reads')
         | None => (created_default now days_range total_items
                      (clock reads') date_idx, S reads')
         end).
  assert (Hc : created.1 <= now /\
               (1 <= days_range -> (forall n, now <= clock n) ->
                DT.day_of (min_date now days_range) <= DT.day_of created.1)).
  { subst created. destruct c as [d|]; simpl.
    - destruct Href as [p ->]. split.
      + apply created_from_reference_le_now.
      + intros HD _. by apply created_from_reference_day.
    - split.
      + apply created_default_le_now.
      + intros HD Hclock. by apply created_default_day. }
  destruct created as [created_date reads'']. simpl in Hc.
  destruct Hc as [Hle Hday].
  set (l := modified_not_before created_date
              (modified_narrowed now total_items created_date date_idx
                 (modified_initial total_items created_date date_idx))).
  assert (Hl : created_date <= modified_date l).
  { apply modified_not_before_ok, modified_narrowed_ok, modified_initial_ok. }
  rewrite created_reclamped_past by exact Hle. simpl.
  pose proof (modified_clamped_between now created_date l Hle Hl).
  repeat split; try lia. exact Hday.
Qed.

(** C2: a reference modification date that parses and is ten days old
    is stored by line 172 and then overwritten by line 209; the record's
    final modification date is 2025-06-12T16:00:00, not the reference
    value. *)
Theorem reference_modified_date_overwritten :
  let item := mk_reference Absent (Parsed (run_now - DT.days 10)) in
  let r := record_dates run_clock run_now 1080 1 0 0 (Some item) in
  from_reference run_clock run_now 1080 1 0 0 (Some item)
    = (None, Some (run_now - DT.days 10), 1%nat) /\
  r.1.1 = Iso.at_time 739383 8 0 0 0 /\
  r.1.2 = Iso.at_time 739413 16 0 0 0 /\
  r.1.2 < run_now - DT.days 10.
Proof. vm_compute. repeat split. Qed.

(** The reference modification date never reaches the result: with a
    parsed reference creation date no clock reading separates the two
    computations, and the written pair is the same whatever
    [modifiedDateTime] holds. *)
Lemma reference_modified_ignored (clock : nat -> Z)
    (now days_range total_items : Z) (reads : nat) (date_idx p : Z)
    (m m' : date_field) :
  (record_dates clock now days_range total_items reads date_idx
     (Some (mk_reference (Parsed p) m))).1
  = (record_dates clock now days_range total_items reads date_idx
       (Some (mk_reference (Parsed p) m'))).1.
Proof.
  unfold record_dates, from_reference. cbn [createdDateTime modifiedDateTime].
  destruct m as [| |pm], m' as [| |pm']; try reflexivity;
    repeat match goal with
           | |- context [if clock reads <? ?x then _ else _] =>
               destruct (clock reads <? x)
           end;
    destruct (created_reclamped _ _ _ _); reflexivity.
Qed.

(** *** Creation-day offsets without reference dates *)

(** The days-ago values of a batch are non-decreasing in the index. *)
Definition nondecreasing (days_range total_items : Z) : bool :=
  forallb (fun i => days_ago_of days_range total_items i
                    <=? days_ago_of days_range total_items (i + 1))
          (seqZ 0 (total_items - 1)).

(** The first record is one day old, the last [days_range] days. *)
Definition spans_window (days_range total_items : Z) : bool :=
  (days_ago_of days_range total_items 0 =? 1)
  && (days_ago_of days_range total_items (total_items - 1) =? days_range).

Lemma forallb_seqZ (f : Z -> bool) (a len x : Z) :
  forallb f (seqZ a len) = true -> a <= x < a + len -> f x = true.
Proof.
  intros Hall Hx. rewrite forallb_forall in Hall. apply Hall.
  apply list_elem_of_In, elem_of_seqZ. lia.
Qed.

Lemma nondecreasing_spec (days_range total_items i : Z) :
  nondecreasing days_range total_items = true ->
  0 <= i < total_items - 1 ->
  days_ago_of days_range total_items i
  <= days_ago_of days_range total_items (i + 1).
Proof.
  intros H Hi. apply Z.leb_le.
  apply (forallb_seqZ _ 0 (total_items - 1) i H). lia.
Qed.

(** C8, as stated, fails: in a batch of 1000 records over the default
    1080 days, index 3 is 55 days old and index 4 only 19; the variation
    [(index * 17) mod 54] outweighs the linear step. *)
Lemma days_ago_decreases_in_large_batch :
  days_ago_of 1080 1000 3 = 55 /\ days_ago_of 1080 1000 4 = 19 /\
  days_ago_of 1080 31 3 = 159 /\ days_ago_of 1080 31 4 = 158.
Proof. vm_compute. repeat split. Qed.

(** The linear step between two records is at least the divisor of the
    variation. *)
Definition step_covers_variation (days_range total_items : Z) : bool :=
  (total_items - 1) * Z.max 10 (days_range / 20) <=? days_range - 1.

(** C8 (amended). Without reference dates and with shuffle disabled the
    days-ago values always lie in [1, lookback_days]; they are
    non-decreasing in the index for batches of 2 to 30 records over the
    default 1080 days and, over every window of 1 to 120 months, for
    every batch whose linear step [(lookback_days - 1) / (N - 1)] is at
    least the divisor [max(10, lookback_days // 20)] of the variation;
    over 1080 days the first record of a batch of 2 to 2000 gets 1 and
    the last gets 1080. *)
Theorem days_ago_nondecreasing_small_batches :
  (forall days_range total_items date_idx, 1 <= days_range ->
     1 <= days_ago_of days_range total_items date_idx <= days_range) /\
  (forall total_items i, 2 <= total_items <= 30 -> 0 <= i < total_items - 1 ->
     days_ago_of 1080 total_items i <= days_ago_of 1080 total_items (i + 1)) /\
  (forall months_back total_items i,
     1 <= months_back <= 120 -> 2 <= total_items ->
     step_covers_variation (months_back * 30) total_items = true ->
     0 <= i < total_items - 1 ->
     days_ago_of (months_back * 30) total_items i
     <= days_ago_of (months_back * 30) total_items (i + 1)) /\
  (forall total_items, 2 <= total_items <= 2000 ->
     days_ago_of 1080 total_items 0 = 1 /\
     days_ago_of 1080 total_items (total_items - 1) = 1080).
Proof.
  split; [|split; [|split]].
  - intros D N i HD. pose proof (days_ago_range D N i). lia.
  - intros N i HN Hi. apply nondecreasing_spec; [|exact Hi].
    apply (forallb_seqZ (nondecreasing 1080) 2 29 N); [|lia].
    vm_compute. reflexivity.
  - intros m N i Hm HN Hstep Hi. apply nondecreasing_spec; [|exact Hi].
    assert (HN30 : N <= 30).
    { unfold step_covers_variation in Hstep. apply Z.leb_le in Hstep.
      destruct (Z.le_gt_cases N 30) as [|Hbig]; [done|exfalso].
      assert (30 * Z.max 10 (m * 30 / 20)
              <= (N - 1) * Z.max 10 (m * 30 / 20)).
      { apply Z.mul_le_mono_nonneg_r; lia. }
      pose proof (Z.div_mod (m * 30) 20 ltac:(lia)).
      pose proof (Z.mod_pos_bound (m * 30) 20 ltac:(lia)). lia. }
    assert (Hall : implb (step_covers_variation (m * 30) N)
                     (nondecreasing (m * 30) N) = true).
    { apply (forallb_seqZ
               (fun N => implb (step_covers_variation (m * 30) N)
                           (nondecreasing (m * 30) N)) 2 29 N); [|lia].
      apply (forallb_seqZ
               (fun m => forallb
                           (fun N => implb (step_covers_variation (m * 30) N)
                                       (nondecreasing (m * 30) N))
                           (seqZ 2 29))
               1 120 m); [|lia].
      vm_compute. reflexivity. }
    by rewrite Hstep in Hall.
  - intros N HN.
    assert (H : spans_window 1080 N = true).
    { apply (forallb_seqZ (spans_window 1080) 2 1999 N); [|lia].
      vm_compute. reflexivity. }
    unfold spans_window in H. apply andb_true_iff in H as [H0 H1].
    split; by apply Z.eqb_eq.
Qed.

(** *** The loop over the batch *)

(** A reference record: its name under [name_key] and its dates.  An
    empty dict, which Python takes as false, is [None] below. *)
Record original : Type := mk_original {
  original_name : string;
  original_dates : reference
}.

(** A seeded record: the identifier under [seeded_id_key] ([None] when it
    is missing or falsy) and the record under ["original_data"]. *)
Record seeded_item : Type := mk_seeded {
  app_id : option Z;
  seeded_original : option original
}.

(** One [UPDATE ... SET date_created = %s, date_modified = %s]. *)
Record update : Type := mk_update {
  date_created : Z;
  date_modified : Z;
  update_id : Z
}.

Section Loop.

Variable clock : nat -> Z.
Variable months_back : Z.
Variable original_data : list (option original).
(** [None] when [shuffle_dates] is false, else the list that
    [random.shuffle] left. *)
Variable shuffled_indices : option (list Z).

(** Lines 88-92. *)
Definition original_data_map : gmap string original :=
  fold_left
    (fun m orig_item =>
       match orig_item with
       | Some o =>
           let key_value := PyStr.strip (original_name o) in
           if PyStr.is_empty key_value then m else <[key_value := o]> m
       | None => m
       end)
    original_data ∅.

(** Lines 97-102 and 109. *)
Definition index_mapping (idx : nat) : Z :=
  match shuffled_indices with
  | Some indices => default 0 (indices !! idx)
  | None => Z.of_nat idx
  end.

(** Lines 111-121.  The third step never finds anything: [temp_item] is
    the value that the first step found empty. *)
Definition select_original (idx : nat) (seeded : seeded_item)
    : option original :=
  let original_item := seeded_original seeded in
  let original_item :=
    match original_item with
    | None => mjoin (original_data !! idx)
    | Some _ => original_item
    end in
  match original_item with
  | None =>
      match seeded_original seeded with
      | Some temp_item =>
          let seeded_key := PyStr.strip (original_name temp_item) in
          if PyStr.is_empty seeded_key then None
          else original_data_map !! seeded_key
      | None => None
      end
  | Some _ => original_item
  end.

(** Lines 104-295, from the record at index [idx] on, after [reads]
    calls of [datetime.now()]: the updates executed, in order. *)
Fixpoint update_loop (now : Z) (total_items : Z) (idx : nat)
    (seeded_items : list seeded_item) (reads : nat) : list update :=
  match seeded_items with
  | [] => []
  | seeded :: rest =>
      match app_id seeded with
      | None => update_loop now total_items (S idx) rest reads
      | Some id =>
          let date_idx := index_mapping idx in
          let original_item := select_original idx seeded in
          let r := record_dates clock now (months_back * 30) total_items
                     reads date_idx (original_dates <$> original_item) in
          mk_update r.1.1 r.1.2 id
          :: update_loop now total_items (S idx) rest r.2
      end
  end.

(** [update_entity_dates]: [now] is the first reading of the clock. *)
Definition update_entity_dates (seeded_items : list seeded_item)
    : list update :=
  update_loop (clock 0) (Z.of_nat (length seeded_items)) 0 seeded_items 1.

(** What the specification asks of a pair, with the window's lower
    bound taken by calendar day. *)
Definition within_window (now days_range created_at modified_at : Z) : Prop :=
  created_at <= now /\ modified_at <= now /\ created_at <= modified_at /\
  (1 <= days_range -> (forall n, now <= clock n) ->
   DT.day_of (min_date now days_range) <= DT.day_of created_at).

Lemma update_loop_within_window (now total_items : Z)
    (seeded_items : list seeded_item) : forall idx reads,
  Forall (fun u => within_window now (months_back * 30)
                     (date_created u) (date_modified u))
         (update_loop now total_items idx seeded_items reads).
Proof.
  induction seeded_items as [|seeded rest IH]; intros idx reads; simpl.
  - constructor.
  - destruct (app_id seeded) as [id|]; [|apply IH].
    constructor; [|apply IH]. simpl. apply record_dates_bounds.
Qed.

End Loop.

(** C1 (amended). For every record, every batch size, index, reference
    dates and clock, the pair written satisfies [created_at <= now],
    [modified_at <= now] and [created_at <= modified_at]; and when the
    window has at least one day and the clock does not run backwards,
    [created_at] falls on or after the calendar day of [min_date] (its
    time of day comes from the index, so on that first day it may precede
    [min_date] itself).  So does every update that [update_entity_dates]
    executes for a batch, shuffled or not. *)
Theorem record_dates_invariants :
  (forall clock now days_range total_items reads date_idx original_item,
     let r := record_dates clock now days_range total_items reads date_idx
                original_item in
     within_window clock now days_range r.1.1 r.1.2) /\
  (forall clock months_back original_data shuffled_indices seeded_items,
     Forall (fun u => within_window clock (clock 0%nat) (months_back * 30)
                        (date_created u) (date_modified u))
            (update_entity_dates clock months_back original_data
               shuffled_indices seeded_items)).
Proof.
  split.
  - intros. apply record_dates_bounds.
  - intros. apply update_loop_within_window.
Qed.

End Backfill.

(** ** Text: Python [str] as a list of code points *)

Module Text.

Local Open Scope N_scope.

Abbreviation str := (list N) (only parsing).

(** A literal in Python's notation with the two quotes swapped, since a
    Rocq string cannot hold a double quote: ['] stands for the double
    quote, and a backslash before [n], [t], ['] or a backslash gives a
    line feed, a tab, a single quote or a backslash. *)
Fixpoint py_chars (l : list ascii) : str :=
  match l with
  | [] => []
  | c :: r =>
      if N_of_ascii c =? 39 then 34 :: py_chars r
      else if N_of_ascii c =? 92 then
        match r with
        | e :: r' =>
            (if N_of_ascii e =? 110 then 10
             else if N_of_ascii e =? 116 then 9
             else N_of_ascii e) :: py_chars r'
        | [] => [92]
        end
      else N_of_ascii c :: py_chars r
  end.

Definition py (s : string) : str := py_chars (list_ascii_of_string s).

(** A literal taken as it is. *)
Definition lit (s : string) : str := map N_of_ascii (list_ascii_of_string s).

(** [c.isspace()], which is also what [\s] matches in a [str] pattern. *)
Definition isspace (c : N) : bool :=
  ((9 <=? c) && (c <=? 13)) || ((28 <=? c) && (c <=? 32))
  || (c =? 133) || (c =? 160) || (c =? 5760)
  || ((8192 <=? c) && (c <=? 8202)) || (c =? 8232) || (c =? 8233)
  || (c =? 8239) || (c =? 8287) || (c =? 12288).

Fixpoint lstrip (s : str) : str :=
  match s with
  | [] => []
  | c :: r => if isspace c then lstrip r else s
  end.

Fixpoint rstrip (s : str) : str :=
  match s with
  | [] => []
  | c :: r =>
      match rstrip r with
      | [] => if isspace c then [] else [c]
      | r' => c :: r'
      end
  end.

(** [s.strip()] *)
Definition strip (s : str) : str := rstrip (lstrip s).

(** [s.startswith(p)] *)
Fixpoint startswith (p s : str) : bool :=
  match p, s with
  | [], _ => true
  | a :: p', b :: s' => (a =? b) && startswith p' s'
  | _ :: _, [] => false
  end.

(** [s.find(p)]: the lowest index where [p] occurs in [s], or -1. *)
Fixpoint find_from (p s : str) (i : Z) : Z :=
  if startswith p s then i
  else match s with
       | [] => (-1)%Z
       | _ :: r => find_from p r (i + 1)%Z
       end.

Definition find (p s : str) : Z := find_from p s 0.

(** [s.rfind(c)] for a single character: the highest index, or -1. *)
Fixpoint rfind_from (c : N) (s : str) (i : Z) (last : Z) : Z :=
  match s with
  | [] => last
  | x :: r => rfind_from c r (i + 1)%Z (if x =? c then i else last)
  end.

Definition rfind (c : N) (s : str) : Z := rfind_from c s 0 (-1).

(** [s[a:b]], [s[a:]] and [s[:b]] for indices that are not negative. *)
Definition slice (s : str) (a b : Z) : str :=
  take (Z.to_nat b - Z.to_nat a) (drop (Z.to_nat a) s).
Definition slice_from (s : str) (a : Z) : str := drop (Z.to_nat a) s.
Definition slice_to (s : str) (b : Z) : str := take (Z.to_nat b) s.

(** [len(s)] *)
Definition len (s : str) : Z := Z.of_nat (length s).

Example py_literal :
  py "['a\n']" = [91; 34; 97; 10; 34; 93] /\
  strip (py " \t[1] \n") = lit "[1]" /\
  find (lit "[") (lit "ab[c[") = 2%Z /\ find (lit "[") (lit "abc") = (-1)%Z /\
  rfind 93 (lit "a]b]c") = 3%Z /\ slice (lit "abcdef") 2 4 = lit "cd".
Proof. repeat split; reflexivity. Qed.

End Text.

(** A result or a raised exception. *)
Inductive result (A E : Type) : Type :=
  | Ok (a : A)
  | Err (e : E).
Arguments Ok {A E} a.
Arguments Err {A E} e.

Definition is_ok {A E : Type} (r : result A E) : bool :=
  match r with Ok _ => true | Err _ => false end.

(** ** Python's [json.loads] (CPython's [json.decoder] and [json.scanner]) *)

Module Json.

Import Text.
Local Open Scope N_scope.

(** What [json.loads] returns.  A [float] keeps its lexeme; a [dict]
    keeps its keys in insertion order. *)
Inductive json : Type :=
  | JNull
  | JBool (b : bool)
  | JInt (n : Z)
  | JFloat (lexeme : str)
  | JNaN
  | JInfinity (negative : bool)
  | JStr (s : str)
  | JArr (items : list json)
  | JObj (pairs : list (str * json)).

(** The messages of [JSONDecodeError]; [OutOfFuel] is the model's own
    and never returned by [loads] (lemma [WellFormed.loads_fuel]). *)
Inductive json_error : Type :=
  | ExpectingValue
  | ExpectingCommaDelimiter       (* "Expecting ',' delimiter" *)
  | ExpectingColonDelimiter       (* "Expecting ':' delimiter" *)
  | ExpectingPropertyName
  | UnterminatedString
  | InvalidControlCharacter
  | InvalidEscape
  | InvalidUnicodeEscape
  | ExtraData
  | UnexpectedBOM
  | OutOfFuel.

Definition res : Type := result (json * str) json_error.

(** JSON whitespace: space, tab, line feed, carriage return. *)
Definition is_ws (c : N) : bool :=
  (c =? 32) || (c =? 9) || (c =? 10) || (c =? 13).

Fixpoint skip_ws (s : str) : str :=
  match s with
  | c :: r => if is_ws c then skip_ws r else s
  | [] => []
  end.

Definition is_digit (c : N) : bool := (48 <=? c) && (c <=? 57).

Definition hex_digit (c : N) : option N :=
  if (48 <=? c) && (c <=? 57) then Some (c - 48)
  else if (97 <=? c) && (c <=? 102) then Some (c - 87)
  else if (65 <=? c) && (c <=? 70) then Some (c - 55)
  else None.

Definition hex4 (a b c d : N) : option N :=
  match hex_digit a, hex_digit b, hex_digit c, hex_digit d with
  | Some x, Some y, Some z, Some w => Some (((x * 16 + y) * 16 + z) * 16 + w)
  | _, _, _, _ => None
  end.

(** The [BACKSLASH] table of one-character escapes. *)
Definition backslash (esc : N) : option N :=
  if esc =? 34 then Some 34
  else if esc =? 92 then Some 92
  else if esc =? 47 then Some 47
  else if esc =? 98 then Some 8
  else if esc =? 102 then Some 12
  else if esc =? 110 then Some 10
  else if esc =? 114 then Some 13
  else if esc =? 116 then Some 9
  else None.

(** [s] after the character [c], when [s] starts with it. *)
Definition expect (c : N) (s : str) : option str :=
  match s with
  | x :: r => if x =? c then Some r else None
  | [] => None
  end.

(** [scanstring(s, end, strict=True)] from the character after the
    opening quote: the decoded string and the text after the closing
    quote. *)
Fixpoint scanstring (s : str) (acc : str) : result (str * str) json_error :=
  match s with
  | [] => Err UnterminatedString
  | c :: r =>
      if c =? 34 then Ok (rev acc, r)
      else if c =? 92 then
        match r with
        | [] => Err UnterminatedString
        | esc :: r1 =>
            if esc =? 117 then
              match r1 with
              | h1 :: h2 :: h3 :: h4 :: r2 =>
                  match hex4 h1 h2 h3 h4 with
                  | None => Err InvalidUnicodeEscape
                  | Some uni =>
                      if (55296 <=? uni) && (uni <=? 56319) then
                        match r2 with
                        | b :: u :: g1 :: g2 :: g3 :: g4 :: r3 =>
                            if (b =? 92) && (u =? 117) then
                              match hex4 g1 g2 g3 g4 with
                              | None => Err InvalidUnicodeEscape
                              | Some uni2 =>
                                  if (56320 <=? uni2) && (uni2 <=? 57343)
                                  then scanstring r3
                                         ((65536 + (uni - 55296) * 1024
                                           + (uni2 - 56320)) :: acc)
                                  else scanstring r2 (uni :: acc)
                              end
                            else scanstring r2 (uni :: acc)
                        | _ => scanstring r2 (uni :: acc)
                        end
                      else scanstring r2 (uni :: acc)
                  end
              | _ => Err InvalidUnicodeEscape
              end
            else
              match backslash esc with
              | Some ch => scanstring r1 (ch :: acc)
              | None => Err InvalidEscape
              end
        end
      else if c <? 32 then Err InvalidControlCharacter
      else scanstring r (c :: acc)
  end.

Fixpoint span_digits (s : str) : str * str :=
  match s with
  | c :: r => if is_digit c then (c :: (span_digits r).1, (span_digits r).2)
              else ([], s)
  | [] => ([], [])
  end.

Definition digits_value (ds : str) : Z :=
  fold_left (fun acc c => (acc * 10 + Z.of_N (c - 48))%Z) ds 0%Z.

(** The parts of [NUMBER_RE]: an optional minus, then 0 or a digit from
    1 to 9 and any digits; optionally a point and digits; optionally e
    or E, an optional sign and digits.  Each part is returned with the
    text that follows it. *)
Definition number_sign (s : str) : str * str :=
  match expect 45 s with
  | Some r => ([45], r)
  | None => ([], s)
  end.

Definition number_integer (s : str) : option (str * str) :=
  match s with
  | c :: r =>
      if c =? 48 then Some ([48], r)
      else if is_digit c then Some (c :: (span_digits r).1, (span_digits r).2)
      else None
  | [] => None
  end.

Definition number_frac (s : str) : str * str :=
  match expect 46 s with
  | Some r =>
      match (span_digits r).1 with
      | [] => ([], s)
      | ds => (46 :: ds, (span_digits r).2)
      end
  | None => ([], s)
  end.

Definition number_exp (s : str) : str * str :=
  match s with
  | e :: r =>
      if (e =? 101) || (e =? 69) then
        let '(esign, r1) :=
          match r with
          | x :: r' => if (x =? 43) || (x =? 45) then ([x], r') else ([], r)
          | [] => ([], r)
          end in
        match (span_digits r1).1 with
        | [] => ([], s)
        | ds => (e :: esign ++ ds, (span_digits r1).2)
        end
      else ([], s)
  | [] => ([], s)
  end.

Definition match_number (s : str) : option (json * str) :=
  let '(sign, s1) := number_sign s in
  match number_integer s1 with
  | None => None
  | Some (int_digits, s2) =>
      let '(frac, s3) := number_frac s2 in
      let '(exp, rest) := number_exp s3 in
      match frac, exp with
      | [], [] =>
          Some (JInt (if sign is [] then digits_value int_digits
                      else (- digits_value int_digits)%Z), rest)
      | _, _ => Some (JFloat (sign ++ int_digits ++ frac ++ exp), rest)
      end
  end.

(** [dict(pairs)]: a repeated key keeps its first position and takes
    the last value. *)
Fixpoint dict_set (k : str) (v : json) (d : list (str * json))
    : list (str * json) :=
  match d with
  | [] => [(k, v)]
  | (k', v') :: r =>
      if decide (k' = k) then (k, v) :: r else (k', v') :: dict_set k v r
  end.

Definition dict (pairs : list (str * json)) : list (str * json) :=
  fold_left (fun d kv => dict_set kv.1 kv.2 d) pairs [].

(** The constants and numbers of [scan_once]. *)
Definition parse_atom (s : str) : res :=
  if startswith (lit "null") s then Ok (JNull, drop 4 s)
  else if startswith (lit "true") s then Ok (JBool true, drop 4 s)
  else if startswith (lit "false") s then Ok (JBool false, drop 5 s)
  else
    match match_number s with
    | Some found => Ok found
    | None =>
        if startswith (lit "NaN") s then Ok (JNaN, drop 3 s)
        else if startswith (lit "Infinity") s
        then Ok (JInfinity false, drop 8 s)
        else if startswith (lit "-Infinity") s
        then Ok (JInfinity true, drop 9 s)
        else Err ExpectingValue
    end.

(** [scan_once], [JSONArray] and [JSONObject].  [parse_value] is at the
    first character of a value; [array_loop] is at the first character
    of the next item and [object_loop] after the opening quote of the
    next key, with the items read so far in reverse order. *)
Fixpoint parse_value (fuel : nat) (s : str) : res :=
  match fuel with
  | O => Err OutOfFuel
  | S fuel =>
      match s with
      | [] => Err ExpectingValue
      | c :: r =>
          if c =? 34 then
            match scanstring r [] with
            | Ok (v, rest) => Ok (JStr v, rest)
            | Err e => Err e
            end
          else if c =? 123 then
            match expect 34 r with
            | Some key_start => object_loop fuel key_start []
            | None =>
                match expect 125 (skip_ws r) with
                | Some rest => Ok (JObj [], rest)
                | None =>
                    match expect 34 (skip_ws r) with
                    | Some key_start => object_loop fuel key_start []
                    | None => Err ExpectingPropertyName
                    end
                end
            end
          else if c =? 91 then
            match expect 93 (skip_ws r) with
            | Some rest => Ok (JArr [], rest)
            | None => array_loop fuel (skip_ws r) []
            end
          else parse_atom s
      end
  end
with array_loop (fuel : nat) (s : str) (values : list json) : res :=
  match fuel with
  | O => Err OutOfFuel
  | S fuel =>
      match parse_value fuel s with
      | Err e => Err e
      | Ok (value, rest) =>
          match expect 93 (skip_ws rest) with
          | Some rest' => Ok (JArr (rev (value :: values)), rest')
          | None =>
              match expect 44 (skip_ws rest) with
              | Some rest' =>
                  array_loop fuel (skip_ws rest') (value :: values)
              | None => Err ExpectingCommaDelimiter
              end
          end
      end
  end
with object_loop (fuel : nat) (s : str) (pairs : list (str * json)) : res :=
  match fuel with
  | O => Err OutOfFuel
  | S fuel =>
      match scanstring s [] with
      | Err e => Err e
      | Ok (key, rest) =>
          match expect 58 (skip_ws rest) with
          | None => Err ExpectingColonDelimiter
          | Some rest =>
              match parse_value fuel (skip_ws rest) with
              | Err e => Err e
              | Ok (value, rest) =>
                  match expect 125 (skip_ws rest) with
                  | Some rest' =>
                      Ok (JObj (dict (rev ((key, value) :: pairs))), rest')
                  | None =>
                      match expect 44 (skip_ws rest) with
                      | None => Err ExpectingCommaDelimiter
                      | Some rest' =>
                          match expect 34 (skip_ws rest') with
                          | Some key_start =>
                              object_loop fuel key_start
                                          ((key, value) :: pairs)
                          | None => Err ExpectingPropertyName
                          end
                      end
                  end
              end
          end
      end
  end.

(** The fuel that [loads] gives: more than the calls a text of this
    length can need. *)
Definition fuel_for (s : str) : nat := S (2 * length s).

(** [json.loads(s)] for a [str]. *)
Definition loads (s : str) : result json json_error :=
  if startswith [65279] s then Err UnexpectedBOM
  else
    match parse_value (fuel_for (skip_ws s)) (skip_ws s) with
    | Err e => Err e
    | Ok (obj, rest) =>
        match skip_ws rest with
        | [] => Ok obj
        | _ => Err ExtraData
        end
    end.

End Json.

(** ** [utils/api_utils.py]: [parse_anthropic_response] *)

Module Extract.

Import Text Json.
Local Open Scope Z_scope.

(** The two [RuntimeError]s raised inside the [try] block. *)
Inductive cause : Type :=
  | NoJsonArrayFound (snippet : str)
  | NoValidEnding (json_start json_end : Z).

(** The [RuntimeError]s that leave the function: the one of
    [except Exception], which wraps a [cause], and the one of
    [except json.JSONDecodeError], with the decode error and a snippet
    of [json_str]. *)
Inductive extract_error : Type :=
  | ErrorParsing (c : cause)
  | FailedToParseJson (e : json_error) (snippet : str).

Definition fence : str := [96; 96; 96]%N.
Definition open_bracket : str := [91]%N.

(** [markdown_match.group(1).strip()] for
    [re.search(r"```(?:json)?\s*(.*?)\s*```", text_content, re.DOTALL)].
    A match starts at the first fence: the optional [json] is taken when
    it is there, the lazy group stops before the first fence that
    follows, and the white space that [\s*] takes on either side is what
    [strip] removes anyway.  When no fence follows the first one, no
    later start matches either. *)
Definition fenced_content (text_content : str) : option str :=
  let opening := find fence text_content in
  if opening =? -1 then None
  else
    let after := slice_from text_content (opening + 3) in
    let body := if startswith (lit "json") after then drop 4 after
                else after in
    let closing := find fence body in
    if closing =? -1 then None
    else Some (strip (slice_to body closing)).

(** Lines 418-428: the text searched from here on and [json_start]. *)
Definition locate_start (text_content : str) : str * Z :=
  match fenced_content text_content with
  | Some extracted_content =>
      let json_start_in_extracted := find open_bracket extracted_content in
      if negb (json_start_in_extracted =? -1)
      then (slice_from extracted_content json_start_in_extracted, 0)
      else (text_content, find open_bracket text_content)
  | None => (text_content, find open_bracket text_content)
  end.

Definition prefixes : list str :=
  [lit "Here's"; lit "Here is"; lit "JSON:"; lit "Array:"].

(** Lines 430-435. *)
Fixpoint probe_prefixes (ps : list str) (text_content : str) : Z :=
  match ps with
  | [] => -1
  | prefix :: rest =>
      let idx := find (prefix ++ open_bracket) text_content in
      if negb (idx =? -1) then idx + len prefix
      else probe_prefixes rest text_content
  end.

(** [s[:n] + "..." if len(s) > n else s] *)
Definition snippet (n : Z) (s : str) : str :=
  if n <? len s then slice_to s n ++ lit "..." else s.

(** Lines 448-470: the string-aware bracket scan from index [i], which
    stops at the first return to depth zero. *)
Fixpoint scan_end (s : str) (i : Z) (bracket_count : Z)
    (in_string escape_next : bool) : Z :=
  match s with
  | [] => -1
  | char :: r =>
      if escape_next then scan_end r (i + 1) bracket_count in_string false
      else if (char =? 92)%N
      then scan_end r (i + 1) bracket_count in_string true
      else if (char =? 34)%N
      then scan_end r (i + 1) bracket_count (negb in_string) false
      else if negb in_string then
        if (char =? 91)%N
        then scan_end r (i + 1) (bracket_count + 1) in_string false
        else if (char =? 93)%N then
          let bracket_count := bracket_count - 1 in
          if bracket_count =? 0 then i + 1
          else scan_end r (i + 1) bracket_count in_string false
        else scan_end r (i + 1) bracket_count in_string false
      else scan_end r (i + 1) bracket_count in_string false
  end.

(** Lines 478-499: the same scan, recording every return to depth zero. *)
Fixpoint potential_ends (s : str) (i : Z) (bracket_count : Z)
    (in_string escape_next : bool) : list Z :=
  match s with
  | [] => []
  | char :: r =>
      if escape_next then potential_ends r (i + 1) bracket_count in_string false
      else if (char =? 92)%N
      then potential_ends r (i + 1) bracket_count in_string true
      else if (char =? 34)%N
      then potential_ends r (i + 1) bracket_count (negb in_string) false
      else if negb in_string then
        if (char =? 91)%N
        then potential_ends r (i + 1) (bracket_count + 1) in_string false
        else if (char =? 93)%N then
          let bracket_count := bracket_count - 1 in
          if bracket_count =? 0
          then (i + 1) :: potential_ends r (i + 1) bracket_count in_string false
          else potential_ends r (i + 1) bracket_count in_string false
        else potential_ends r (i + 1) bracket_count in_string false
      else potential_ends r (i + 1) bracket_count in_string false
  end.

(** Lines 443-505. *)
Definition locate_end (text_content : str) (json_start : Z) : Z :=
  let json_end :=
    scan_end (slice_from text_content json_start) json_start 0 false false in
  if json_end =? -1 then
    match last (potential_ends (slice_from text_content json_start)
                  json_start 0 false false) with
    | Some e => e
    | None =>
        let last_bracket := rfind 93 text_content in
        if json_start <? last_bracket then last_bracket + 1 else -1
    end
  else json_end.

(** [[\x00-\x08\x0B\x0C\x0E-\x1F\x7F]] *)
Definition is_control (c : N) : bool :=
  ((c <=? 8) || (c =? 11) || (c =? 12) || ((14 <=? c) && (c <=? 31))
   || (c =? 127))%N.

(** [re.sub(r"\s+", " ", s)]; [in_run] says that the previous character
    was white space. *)
Fixpoint collapse_spaces (in_run : bool) (s : str) : str :=
  match s with
  | [] => []
  | c :: r =>
      if isspace c
      then if in_run then collapse_spaces true r
           else 32%N :: collapse_spaces true r
      else c :: collapse_spaces false r
  end.

(** Whether [\s*[}\]]] matches at the head of [s]. *)
Definition closer_follows (s : str) : bool :=
  match lstrip s with
  | c :: _ => ((c =? 125) || (c =? 93))%N
  | [] => false
  end.

(** [re.sub(r",(\s*[}\]])", r"\1", s)]: a comma is deleted when white
    space and a closing brace or bracket follow. *)
Fixpoint drop_trailing_commas (s : str) : str :=
  match s with
  | [] => []
  | c :: r =>
      if (c =? 44)%N && closer_follows r then drop_trailing_commas r
      else c :: drop_trailing_commas r
  end.

(** Lines 516-519. *)
Definition sanitize (json_str : str) : str :=
  let json_str := strip json_str in
  let json_str := map (fun c => if is_control c then 32%N else c) json_str in
  let json_str := collapse_spaces false json_str in
  drop_trailing_commas json_str.

(** ["Expecting ',' delimiter" in str(e) or "Expecting ':' delimiter" in str(e)] *)
Definition is_delimiter_error (e : json_error) : bool :=
  match e with
  | ExpectingCommaDelimiter | ExpectingColonDelimiter => true
  | _ => false
  end.

Section Loads.

(** [json.loads] *)
Variable json_loads : str -> result json json_error.

(** Line 529: [json_str[: last_complete_brace + 1] + "]"]. *)
Definition truncated_json (json_str : str) : str :=
  slice_to json_str (rfind 125 json_str + 1) ++ lit "]".

(** Lines 521-543. *)
Definition parse_json_str (json_str : str) : result json extract_error :=
  match json_loads json_str with
  | Ok records => Ok records
  | Err e =>
      let repaired :=
        if is_delimiter_error e then
          let last_complete_brace := rfind 125 json_str in
          if 0 <? last_complete_brace then
            match json_loads (truncated_json json_str) with
            | Ok records => Some records
            | Err _ => None
            end
          else None
        else None in
      match repaired with
      | Some records => Ok records
      | None => Err (FailedToParseJson e (snippet 300 json_str))
      end
  end.

(** The function on [text_content = content[0].get("text", "")]. *)
Definition parse_anthropic_response (text_content : str)
    : result json extract_error :=
  let '(text_content, json_start) := locate_start text_content in
  let json_start :=
    if json_start =? -1 then probe_prefixes prefixes text_content
    else json_start in
  if json_start =? -1
  then Err (ErrorParsing (NoJsonArrayFound (snippet 500 text_content)))
  else
    let json_end := locate_end text_content json_start in
    if (json_end =? -1) || (json_end <=? json_start)
    then Err (ErrorParsing (NoValidEnding json_start json_end))
    else
      let json_str := slice text_content json_start json_end in
      parse_json_str (sanitize json_str).

End Loads.

(** [extract]: the function with Python's [json.loads]. *)
Definition extract : str -> result json extract_error :=
  parse_anthropic_response Json.loads.

End Extract.

(** ** Facts about the text operations *)

Module TextFacts.

Import Text.
Local Open Scope Z_scope.

Lemma startswith_app (p s : str) : startswith p (p ++ s) = true.
Proof.
  induction p as [|a p IH]; simpl; [reflexivity|].
  by rewrite N.eqb_refl, IH.
Qed.

Lemma startswith_elem (p s : str) (c : N) :
  startswith p s = true -> c ∈ p -> c ∈ s.
Proof.
  revert s. induction p as [|a p IH]; intros s Hs Hc.
  - by apply elem_of_nil in Hc.
  - destruct s as [|b s]; [discriminate|]. simpl in Hs.
    apply andb_true_iff in Hs as [Hab Hs]. apply N.eqb_eq in Hab. subst b.
    apply elem_of_cons in Hc as [->|Hc]; [left|right; eauto].
Qed.

Lemma startswith_head (c : N) (p s : str) :
  startswith (c :: p) s = true -> head s = Some c.
Proof.
  destruct s as [|b s]; [discriminate|]. simpl. intros H.
  apply andb_true_iff in H as [H _]. apply N.eqb_eq in H. by subst.
Qed.

(** [find]: either -1 and no suffix starts with [p], or the offset of
    the first suffix that does. *)
Lemma find_from_spec (p s : str) : forall i,
  (find_from p s i = -1 /\ forall k, startswith p (drop k s) = false) \/
  (exists k : nat,
     find_from p s i = i + Z.of_nat k /\ (k <= length s)%nat /\
     startswith p (drop k s) = true /\
     forall j : nat, (j < k)%nat -> startswith p (drop j s) = false) \/
  i < 0.
Proof.
  induction s as [|c s IH]; intros i.
  - simpl. destruct (startswith p []) eqn:Hp.
    + right. left. exists 0%nat. simpl. repeat split; try lia; auto.
    + left. split; [reflexivity|]. intros k. by rewrite drop_nil.
  - cbn [find_from]. destruct (startswith p (c :: s)) eqn:Hp.
    + right. left. exists 0%nat. simpl. repeat split; try lia; auto.
    + destruct (Z.ltb_spec i 0) as [Hneg|Hpos]; [right; right; lia|].
      destruct (IH (i + 1)) as [[H1 H2]|[(k & H1 & Hk & H2 & H3)|H1]].
      * left. split; [exact H1|]. intros [|k]; [exact Hp|apply H2].
      * right. left. exists (S k). repeat split.
        -- rewrite H1. lia.
        -- simpl. lia.
        -- exact H2.
        -- intros [|j] Hj; [exact Hp|]. apply H3. lia.
      * lia.
Qed.

Lemma find_spec (p s : str) :
  (find p s = -1 /\ forall k, startswith p (drop k s) = false) \/
  (exists k : nat,
     find p s = Z.of_nat k /\ (k <= length s)%nat /\
     startswith p (drop k s) = true /\
     forall j : nat, (j < k)%nat -> startswith p (drop j s) = false).
Proof.
  unfold find. destruct (find_from_spec p s 0) as [H|[(k & H)|H]];
    [by left|right; exists k; exact H|lia].
Qed.

Lemma find_range (p s : str) : find p s = -1 \/ 0 <= find p s <= len s.
Proof.
  destruct (find_spec p s) as [[H _]|(k & -> & Hk & _)]; [by left|right].
  unfold len. lia.
Qed.

Lemma drop_head_lookup (s : str) (k : nat) (b : N) (r : str) :
  drop k s = b :: r -> s !! k = Some b.
Proof.
  intros Hd. pose proof (lookup_drop s k 0) as Hl.
  rewrite Hd, Nat.add_0_r in Hl. by rewrite <- Hl.
Qed.

(** A pattern that holds a character absent from the text is not found. *)
Lemma find_absent (p s : str) (c : N) : c ∈ p -> c ∉ s -> find p s = -1.
Proof.
  intros Hp Hs.
  destruct (find_spec p s) as [[H _]|(k & _ & _ & Hk & _)]; [exact H|].
  exfalso. apply Hs. apply (startswith_elem _ _ c) in Hk; [|exact Hp].
  apply list_elem_of_lookup in Hk as [i Hi].
  rewrite lookup_drop in Hi. by eapply list_elem_of_lookup_2.
Qed.

Lemma find_char_present (c : N) (s : str) :
  c ∈ s -> exists k : nat, find [c] s = Z.of_nat k /\ s !! k = Some c.
Proof.
  intros Hc. destruct (find_spec [c] s) as [[_ H]|(k & Hf & _ & Hk & _)].
  - exfalso. apply list_elem_of_lookup in Hc as [i Hi].
    specialize (H i). rewrite (drop_S _ _ _ Hi) in H.
    simpl in H. by rewrite N.eqb_refl in H.
  - exists k. split; [exact Hf|].
    destruct (drop k s) as [|b r] eqn:Hd; [discriminate|].
    apply startswith_head in Hk. simpl in Hk. injection Hk as ->.
    by eapply drop_head_lookup.
Qed.

Lemma find_char_absent (c : N) (s : str) : find [c] s = -1 <-> c ∉ s.
Proof.
  split.
  - intros Hf Hc. apply find_char_present in Hc as (k & Hk & _). lia.
  - apply find_absent. by left.
Qed.

(** The first occurrence of a pattern whose first character does not
    occur before it. *)
Lemma find_after_clean_prefix (c : N) (p pre rest : str) :
  c ∉ pre -> find (c :: p) (pre ++ (c :: p) ++ rest) = len pre.
Proof.
  intros Hpre.
  destruct (find_spec (c :: p) (pre ++ (c :: p) ++ rest))
    as [[_ H]|(k & Hf & _ & Hk & Hmin)].
  - specialize (H (length pre)). rewrite drop_app_length in H.
    by rewrite startswith_app in H.
  - rewrite Hf. unfold len. f_equal.
    destruct (Nat.lt_trichotomy k (length pre)) as [Hlt|[Heq|Hgt]];
      [|exact Heq|].
    + exfalso. apply Hpre.
      destruct (drop k (pre ++ (c :: p) ++ rest)) as [|b r] eqn:Hd;
        [discriminate|].
      apply startswith_head in Hk. simpl in Hk. injection Hk as ->.
      apply drop_head_lookup in Hd. rewrite lookup_app_l in Hd by lia.
      by eapply list_elem_of_lookup_2.
    + specialize (Hmin (length pre) Hgt). rewrite drop_app_length in Hmin.
      by rewrite startswith_app in Hmin.
Qed.

(** [rfind]: -1 exactly when the character is absent; otherwise the
    index of its last occurrence. *)
Lemma rfind_from_spec (c : N) (s : str) : forall i last,
  (rfind_from c s i last = last /\ c ∉ s) \/
  (exists k : nat,
     rfind_from c s i last = i + Z.of_nat k /\ s !! k = Some c /\
     forall j : nat, (k < j)%nat -> s !! j <> Some c).
Proof.
  induction s as [|x s IH]; intros i last; simpl.
  - left. split; [reflexivity|]. apply not_elem_of_nil.
  - destruct (IH (i + 1) (if (x =? c)%N then i else last))
      as [[H1 H2]|(k & H1 & H2 & H3)].
    + destruct (N.eqb_spec x c) as [->|Hne].
      * right. exists 0%nat. rewrite H1. repeat split; [lia|].
        intros [|j] Hj; [lia|]. simpl. intros Hj'.
        apply H2. by eapply list_elem_of_lookup_2.
      * left. split; [exact H1|]. by apply not_elem_of_cons.
    + right. exists (S k). rewrite H1. repeat split; [lia|exact H2|].
      intros [|j] Hj; [lia|]. simpl. apply H3. lia.
Qed.

Lemma rfind_spec (c : N) (s : str) :
  (rfind c s = -1 /\ c ∉ s) \/
  (exists k : nat,
     rfind c s = Z.of_nat k /\ s !! k = Some c /\
     forall j : nat, (k < j)%nat -> s !! j <> Some c).
Proof.
  unfold rfind. destruct (rfind_from_spec c s 0 (-1)) as [H|(k & H)];
    [by left|right; exists k; by rewrite Z.add_0_l in H].
Qed.

Lemma rfind_range (c : N) (s : str) : -1 <= rfind c s < len s.
Proof.
  destruct (rfind_spec c s) as [[-> _]|(k & -> & Hk & _)].
  - unfold len. lia.
  - apply lookup_lt_Some in Hk. unfold len. lia.
Qed.

Lemma lstrip_suffix (s : str) : exists ws, s = ws ++ lstrip s.
Proof.
  induction s as [|c s [ws IH]]; simpl; [by exists []|].
  destruct (isspace c); [|by exists []].
  exists (c :: ws). simpl. by rewrite <- IH.
Qed.

Lemma rstrip_prefix (s : str) : exists ws, s = rstrip s ++ ws.
Proof.
  induction s as [|c s [ws IH]]; simpl; [by exists []|].
  destruct (rstrip s) as [|b r] eqn:Hr.
  - simpl in IH. subst ws.
    destruct (isspace c); [by exists (c :: s)|by exists s].
  - exists ws. simpl. by rewrite IH at 1.
Qed.

(** [strip] keeps a part of the text. *)
Lemma strip_infix (s : str) : exists a b, s = a ++ strip s ++ b.
Proof.
  unfold strip. destruct (lstrip_suffix s) as [a Ha].
  destruct (rstrip_prefix (lstrip s)) as [b Hb].
  exists a, b. by rewrite <- Hb.
Qed.

Lemma lstrip_spaces (ws s : str) :
  Forall (fun c => isspace c = true) ws -> lstrip (ws ++ s) = lstrip s.
Proof.
  induction 1 as [|c ws Hc _ IH]; simpl; [reflexivity|]. by rewrite Hc.
Qed.

Lemma lstrip_nonspace (c : N) (s : str) :
  isspace c = false -> lstrip (c :: s) = c :: s.
Proof. intros H. simpl. by rewrite H. Qed.

Lemma rstrip_spaces (ws : str) :
  Forall (fun c => isspace c = true) ws -> rstrip ws = [].
Proof.
  induction 1 as [|c ws Hc _ IH]; simpl; [reflexivity|]. by rewrite IH, Hc.
Qed.

Lemma rstrip_app_nonspace (s : str) (c : N) (ws : str) :
  isspace c = false -> Forall (fun c => isspace c = true) ws ->
  rstrip (s ++ c :: ws) = s ++ [c].
Proof.
  intros Hc Hws. induction s as [|x s IH]; simpl.
  - by rewrite (rstrip_spaces ws Hws), Hc.
  - rewrite IH. by destruct s.
Qed.

End TextFacts.

(** ** Facts about [parse_anthropic_response] *)

Module ExtractFacts.

Import Text Json Extract TextFacts.
Local Open Scope Z_scope.

(** *** Where the array starts *)

Lemma probe_prefixes_absent (ps : list str) (text_content : str) :
  91%N ∉ text_content -> probe_prefixes ps text_content = -1.
Proof.
  intros H. induction ps as [|p ps IH]; simpl; [reflexivity|].
  rewrite (find_absent (p ++ open_bracket) text_content 91%N); [exact IH| |exact H].
  apply elem_of_app. right. by left.
Qed.

Lemma fenced_content_elem (text_content extracted : str) (c : N) :
  fenced_content text_content = Some extracted ->
  c ∈ extracted -> c ∈ text_content.
Proof.
  unfold fenced_content.
  destruct (find fence text_content =? -1); [discriminate|].
  set (after := slice_from text_content (find fence text_content + 3)).
  set (body := if startswith (lit "json") after then drop 4 after else after).
  destruct (find fence body =? -1); [discriminate|].
  intros [= <-] Hc.
  destruct (strip_infix (slice_to body (find fence body))) as (a & b & Hs).
  assert (Hin : c ∈ slice_to body (find fence body)).
  { rewrite Hs. rewrite !elem_of_app. auto. }
  unfold slice_to in Hin. apply elem_of_take in Hin as (i & Hi & _).
  assert (Hbody : c ∈ body) by (by eapply list_elem_of_lookup_2).
  assert (Hafter : c ∈ after).
  { subst body. destruct (startswith (lit "json") after); [|exact Hbody].
    apply list_elem_of_lookup in Hbody as [j Hj].
    rewrite lookup_drop in Hj. by eapply list_elem_of_lookup_2. }
  subst after. unfold slice_from in Hafter.
  apply list_elem_of_lookup in Hafter as [j Hj].
  rewrite lookup_drop in Hj. by eapply list_elem_of_lookup_2.
Qed.

(** [json_start] after lines 418-435. *)
Definition json_start_of (text_content : str) : Z :=
  let '(work, json_start) := locate_start text_content in
  if json_start =? -1 then probe_prefixes prefixes work else json_start.

Lemma plain_start_absent (text_content : str) :
  (if find open_bracket text_content =? -1
   then probe_prefixes prefixes text_content
   else find open_bracket text_content) = -1
  <-> 91%N ∉ text_content.
Proof.
  destruct (Z.eqb_spec (find open_bracket text_content) (-1)) as [Ht|Ht].
  - apply find_char_absent in Ht.
    split; [done|]. intros _. by apply probe_prefixes_absent.
  - split; [done|]. intros Hno. by apply find_char_absent in Hno.
Qed.

(** No array start is found exactly when the text holds no [[]: the
    preamble phrases are searched together with the bracket that follows
    them, so they cannot be found either. *)
Lemma json_start_absent (text_content : str) :
  json_start_of text_content = -1 <-> 91%N ∉ text_content.
Proof.
  unfold json_start_of, locate_start.
  destruct (fenced_content text_content) as [extracted|] eqn:Hf;
    [|apply plain_start_absent].
  destruct (Z.eqb_spec (find open_bracket extracted) (-1)) as [He|He];
    cbn [negb]; [apply plain_start_absent|].
  change (0 =? -1) with false. cbv iota.
  split; [discriminate|]. intros Hno. exfalso.
  apply He, find_char_absent. intros Hin. apply Hno.
  by eapply fenced_content_elem.
Qed.

Lemma locate_start_nonneg (text_content : str) :
  (locate_start text_content).2 = -1 \/ 0 <= (locate_start text_content).2.
Proof.
  unfold locate_start.
  destruct (fenced_content text_content) as [extracted|].
  - destruct (negb _); cbn [snd]; [lia|].
    destruct (find_range open_bracket text_content); lia.
  - cbn [snd]. destruct (find_range open_bracket text_content); lia.
Qed.

(** *** Where the array ends *)

Lemma scan_end_found (s : str) : forall i bracket_count in_string escape_next,
  0 <= i ->
  scan_end s i bracket_count in_string escape_next = -1 \/
  exists k : nat,
    scan_end s i bracket_count in_string escape_next = i + Z.of_nat k + 1 /\
    s !! k = Some 93%N /\ (bracket_count <> 1 -> (1 <= k)%nat).
Proof.
  induction s as [|c s IH]; intros i bc ins esc Hi; [by left|].
  assert (Hstep : forall bc' ins' esc',
            scan_end s (i + 1) bc' ins' esc' = -1 \/
            exists k : nat,
              scan_end s (i + 1) bc' ins' esc' = i + Z.of_nat k + 1 /\
              (c :: s) !! k = Some 93%N /\ (1 <= k)%nat).
  { intros bc' ins' esc'.
    destruct (IH (i + 1) bc' ins' esc') as [H|(k & H1 & H2 & _)]; [lia|by left|].
    right. exists (S k). repeat split; [lia|exact H2|lia]. }
  assert (Hweak : forall bc' ins' esc',
            scan_end s (i + 1) bc' ins' esc' = -1 \/
            exists k : nat,
              scan_end s (i + 1) bc' ins' esc' = i + Z.of_nat k + 1 /\
              (c :: s) !! k = Some 93%N /\ (bc <> 1 -> (1 <= k)%nat)).
  { intros bc' ins' esc'. destruct (Hstep bc' ins' esc') as [H|(k & H1 & H2 & H3)];
      [by left|right; exists k; auto]. }
  cbn [scan_end].
  destruct esc; [apply Hweak|].
  destruct (c =? 92)%N; [apply Hweak|].
  destruct (c =? 34)%N; [apply Hweak|].
  destruct (negb ins); [|apply Hweak].
  destruct (c =? 91)%N; [apply Hweak|].
  destruct (N.eqb_spec c 93) as [->|_]; [|apply Hweak].
  destruct (Z.eqb_spec (bc - 1) 0) as [Hz|_]; [|apply Hweak].
  right. exists 0%nat. repeat split; [lia|]. intros Hbc. lia.
Qed.

Lemma potential_ends_none (s : str) : forall i bracket_count in_string escape_next,
  0 <= i ->
  scan_end s i bracket_count in_string escape_next = -1 ->
  potential_ends s i bracket_count in_string escape_next = [].
Proof.
  induction s as [|c s IH]; intros i bc ins esc Hi; [reflexivity|].
  cbn [scan_end potential_ends].
  destruct esc; [apply IH; lia|].
  destruct (c =? 92)%N; [apply IH; lia|].
  destruct (c =? 34)%N; [apply IH; lia|].
  destruct (negb ins); [|apply IH; lia].
  destruct (c =? 91)%N; [apply IH; lia|].
  destruct (c =? 93)%N; [|apply IH; lia].
  destruct (bc - 1 =? 0); [lia|apply IH; lia].
Qed.

Lemma scan_end_no_closer (s : str) : forall i bracket_count in_string escape_next,
  93%N ∉ s -> scan_end s i bracket_count in_string escape_next = -1.
Proof.
  induction s as [|c s IH]; intros i bc ins esc H; [reflexivity|].
  apply not_elem_of_cons in H as [Hc Hs].
  cbn [scan_end].
  destruct esc; [by apply IH|].
  destruct (c =? 92)%N; [by apply IH|].
  destruct (c =? 34)%N; [by apply IH|].
  destruct (negb ins); [|by apply IH].
  destruct (c =? 91)%N; [by apply IH|].
  destruct (N.eqb_spec c 93) as [->|_]; [done|by apply IH].
Qed.

(** No end is found exactly when the last [[]]] of the text is not after
    the start; an end that is found is after the start, so the test
    [json_end <= json_start] adds nothing. *)
Lemma locate_end_spec (text_content : str) (json_start : Z) :
  0 <= json_start ->
  (locate_end text_content json_start = -1 /\
   rfind 93 text_content <= json_start) \/
  (json_start < locate_end text_content json_start /\
   json_start < rfind 93 text_content).
Proof.
  intros Hjs. unfold locate_end.
  destruct (scan_end_found (slice_from text_content json_start) json_start 0
              false false Hjs) as [Hnone|(k & Hk & Hlook & Hk1)].
  - rewrite Hnone. simpl.
    rewrite potential_ends_none by done. simpl.
    destruct (Z.ltb_spec json_start (rfind 93 text_content)).
    + right. lia.
    + left. lia.
  - rewrite Hk. destruct (Z.eqb_spec (json_start + Z.of_nat k + 1) (-1)); [lia|].
    right. split; [lia|].
    unfold slice_from in Hlook. rewrite lookup_drop in Hlook.
    specialize (Hk1 ltac:(lia)).
    destruct (rfind_spec 93 text_content) as [[_ Hno]|(r & -> & _ & Hr)].
    + exfalso. apply Hno. by eapply list_elem_of_lookup_2.
    + destruct (Nat.lt_ge_cases r (Z.to_nat json_start + k)) as [Hlt|Hge].
      * by apply Hr in Hlt.
      * lia.
Qed.

(** *** The function by cases *)

(** The text searched after lines 418-428. *)
Definition working_text (text_content : str) : str :=
  (locate_start text_content).1.

Lemma working_text_elem (text_content : str) (c : N) :
  c ∈ working_text text_content -> c ∈ text_content.
Proof.
  unfold working_text, locate_start.
  destruct (fenced_content text_content) as [extracted|] eqn:Hf; [|done].
  destruct (negb _); [|done]. cbn [fst]. unfold slice_from. intros Hc.
  apply list_elem_of_lookup in Hc as [j Hj]. rewrite lookup_drop in Hj.
  eapply fenced_content_elem; [exact Hf|]. by eapply list_elem_of_lookup_2.
Qed.

Lemma working_text_plain (text_content : str) :
  91%N ∉ text_content -> working_text text_content = text_content.
Proof.
  intros Hno. unfold working_text, locate_start.
  destruct (fenced_content text_content) as [extracted|] eqn:Hf; [|done].
  destruct (Z.eqb_spec (find open_bracket extracted) (-1)) as [He|He];
    cbn [negb]; [done|].
  exfalso. apply He, find_char_absent. intros Hin. apply Hno.
  by eapply fenced_content_elem.
Qed.

Lemma probe_prefixes_range (ps : list str) (text_content : str) :
  probe_prefixes ps text_content = -1 \/ 0 <= probe_prefixes ps text_content.
Proof.
  induction ps as [|p ps IH]; cbn [probe_prefixes]; [by left|].
  destruct (find_range (p ++ open_bracket) text_content) as [H|H].
  - rewrite H. exact IH.
  - destruct (Z.eqb_spec (find (p ++ open_bracket) text_content) (-1));
      [lia|]. cbn [negb]. right. unfold len. lia.
Qed.

Lemma json_start_present (text_content : str) :
  91%N ∈ text_content -> 0 <= json_start_of text_content.
Proof.
  intros Hin.
  assert (Hne : json_start_of text_content <> -1).
  { intros H. by apply json_start_absent in H. }
  revert Hne. unfold json_start_of.
  pose proof (locate_start_nonneg text_content) as Hs.
  destruct (locate_start text_content) as [work js]. cbn [snd] in Hs.
  destruct (Z.eqb_spec js (-1)); [|lia].
  destruct (probe_prefixes_range prefixes work); lia.
Qed.

Section Loads.

Variable json_loads : str -> result json json_error.

Lemma parse_anthropic_response_cases (text_content : str) :
  parse_anthropic_response json_loads text_content =
  let work := working_text text_content in
  let json_start := json_start_of text_content in
  if json_start =? -1
  then Err (ErrorParsing (NoJsonArrayFound (snippet 500 work)))
  else
    let json_end := locate_end work json_start in
    if (json_end =? -1) || (json_end <=? json_start)
    then Err (ErrorParsing (NoValidEnding json_start json_end))
    else parse_json_str json_loads
           (sanitize (slice work json_start json_end)).
Proof.
  unfold parse_anthropic_response, working_text, json_start_of.
  by destruct (locate_start text_content).
Qed.

(** The three ways to fail, in the specification's words. *)
Definition no_array_start (text_content : str) : Prop :=
  (91%N ∉ text_content) /\
  Forall (fun prefix => find (prefix ++ open_bracket) text_content = -1)
         prefixes.

Definition no_array_end (text_content : str) : Prop :=
  91%N ∈ text_content /\
  rfind 93 (working_text text_content) <= json_start_of text_content.

Definition parsing_fails (text_content : str) : Prop :=
  let work := working_text text_content in
  let json_start := json_start_of text_content in
  91%N ∈ text_content /\ json_start < rfind 93 work /\
  is_ok (parse_json_str json_loads
           (sanitize (slice work json_start (locate_end work json_start))))
  = false.

(** C7. [parse_anthropic_response] raises exactly when no array start
    is found (the text holds no opening bracket, hence no preamble
    phrase followed by one either), or no closing bracket follows the
    start, or parsing the sanitized slice fails, the repair included;
    otherwise it returns the parsed value. *)
Theorem parse_anthropic_response_fails_iff (text_content : str) :
  is_ok (parse_anthropic_response json_loads text_content) = false <->
  no_array_start text_content \/ no_array_end text_content \/
  parsing_fails text_content.
Proof.
  rewrite parse_anthropic_response_cases. cbv zeta.
  unfold no_array_start, no_array_end, parsing_fails.
  destruct (decide (91%N ∈ text_content)) as [Hin|Hout].
  - pose proof (json_start_present _ Hin) as Hjs.
    destruct (Z.eqb_spec (json_start_of text_content) (-1)); [lia|].
    destruct (locate_end_spec (working_text text_content)
                (json_start_of text_content) Hjs) as [[He Hr]|[He Hr]].
    + rewrite He. cbn [Z.eqb orb is_ok]. split; [auto|done].
    + replace (_ || _) with false by lia.
      split.
      * intros H. right. right. auto.
      * intros [[H _]|[[_ H]|(_ & _ & H)]]; [done|lia|exact H].
  - pose proof (proj2 (json_start_absent _) Hout) as ->.
    cbn [Z.eqb is_ok]. split; [|done]. intros _. left. split; [exact Hout|].
    apply Forall_forall. intros p _.
    apply (find_absent _ _ 91%N); [|exact Hout].
    apply elem_of_app. right. by left.
Qed.

Lemma snippet_bounded (n : Z) (s : str) :
  0 <= n -> len (snippet n s) <= n + 3 /\
  slice_to (snippet n s) n = slice_to s n.
Proof.
  intros Hn. unfold snippet, len, slice_to.
  destruct (Z.ltb_spec n (Z.of_nat (length s))) as [Hlt|Hge].
  - rewrite length_app, length_take. split; [simpl; lia|].
    rewrite take_app_le by (rewrite length_take; lia).
    by rewrite take_take, Nat.min_id.
  - split; [lia|done].
Qed.

(** The repair of lines 521-535 on the sanitized text. *)
Lemma parse_json_str_repair (json_str : str) :
  (forall records, json_loads json_str = Ok records ->
     parse_json_str json_loads json_str = Ok records) /\
  (forall e, json_loads json_str = Err e ->
     parse_json_str json_loads json_str =
     if is_delimiter_error e && (0 <? rfind 125 json_str)
     then match json_loads (truncated_json json_str) with
          | Ok records => Ok records
          | Err _ => Err (FailedToParseJson e (snippet 300 json_str))
          end
     else Err (FailedToParseJson e (snippet 300 json_str))).
Proof.
  split.
  - intros records H. unfold parse_json_str. by rewrite H.
  - intros e H. unfold parse_json_str. rewrite H.
    destruct (is_delimiter_error e); [|reflexivity]. cbn [andb].
    destruct (0 <? rfind 125 json_str); [|reflexivity].
    by destruct (json_loads (truncated_json json_str)).
Qed.

(** The repaired text is the text up to its last closing brace, closed
    by a bracket. *)
Lemma truncated_json_spec (json_str : str) (k : nat) :
  rfind 125 json_str = Z.of_nat k ->
  truncated_json json_str = take (S k) json_str ++ [93%N] /\
  json_str !! k = Some 125%N /\
  forall j : nat, (k < j)%nat -> json_str !! j <> Some 125%N.
Proof.
  intros Hk.
  destruct (rfind_spec 125 json_str) as [[H _]|(k' & H & Hl & Hlast)];
    [lia|].
  assert (k' = k) as -> by lia. split; [|by split].
  unfold truncated_json, slice_to. rewrite Hk.
  by replace (Z.to_nat (Z.of_nat k + 1)) with (S k) by lia.
Qed.

(** The slice that is parsed, when a start and an end are found. *)
Lemma parse_anthropic_response_parses (text_content : str) :
  91%N ∈ text_content ->
  json_start_of text_content < rfind 93 (working_text text_content) ->
  parse_anthropic_response json_loads text_content =
  parse_json_str json_loads
    (sanitize (slice (working_text text_content)
                 (json_start_of text_content)
                 (locate_end (working_text text_content)
                    (json_start_of text_content)))).
Proof.
  intros Hin Hr. rewrite parse_anthropic_response_cases. cbv zeta.
  pose proof (json_start_present _ Hin) as Hjs.
  destruct (Z.eqb_spec (json_start_of text_content) (-1)); [lia|].
  destruct (locate_end_spec (working_text text_content)
              (json_start_of text_content) Hjs) as [[He Hr']|[He Hr']];
    [lia|].
  by replace (_ || _) with false by lia.
Qed.

(** C6 (amended). Let a start and an end be found, and [json_str] be
    the sanitized slice.  When the first parse succeeds its value is
    returned.  When it fails, the repair is attempted only for a
    missing [,] or [:] delimiter and only when a closing brace occurs
    after the first character: [json_str] is cut after its last closing
    brace, a closing bracket is appended, and the result parsed once;
    if no repair is attempted or the repair fails, the first error is
    raised with the first 300 characters of [json_str] (and an ellipsis
    when it is longer). *)
Theorem parse_anthropic_response_one_repair (text_content : str) :
  let work := working_text text_content in
  let json_start := json_start_of text_content in
  let json_str :=
    sanitize (slice work json_start (locate_end work json_start)) in
  91%N ∈ text_content -> json_start < rfind 93 work ->
  (forall records, json_loads json_str = Ok records ->
     parse_anthropic_response json_loads text_content = Ok records) /\
  (forall e, json_loads json_str = Err e ->
     parse_anthropic_response json_loads text_content =
     if is_delimiter_error e && (0 <? rfind 125 json_str)
     then match json_loads (truncated_json json_str) with
          | Ok records => Ok records
          | Err _ => Err (FailedToParseJson e (snippet 300 json_str))
          end
     else Err (FailedToParseJson e (snippet 300 json_str))) /\
  (forall k : nat, rfind 125 json_str = Z.of_nat k ->
     truncated_json json_str = take (S k) json_str ++ [93%N] /\
     json_str !! k = Some 125%N /\
     forall j : nat, (k < j)%nat -> json_str !! j <> Some 125%N) /\
  len (snippet 300 json_str) <= 303 /\
  slice_to (snippet 300 json_str) 300 = slice_to json_str 300.
Proof.
  intros work json_start json_str Hin Hr.
  rewrite (parse_anthropic_response_parses _ Hin Hr).
  fold work json_start json_str.
  destruct (parse_json_str_repair json_str) as [Hok Herr].
  split; [exact Hok|]. split; [exact Herr|].
  split; [apply truncated_json_spec|].
  apply (snippet_bounded 300). lia.
Qed.

(** Without a closing bracket anywhere the function raises, however
    many complete objects the text holds. *)
Lemma parse_anthropic_response_no_closer (text_content : str) :
  93%N ∉ text_content ->
  parse_anthropic_response json_loads text_content =
  if decide (91%N ∈ text_content)
  then Err (ErrorParsing (NoValidEnding (json_start_of text_content) (-1)))
  else Err (ErrorParsing (NoJsonArrayFound (snippet 500 text_content))).
Proof.
  intros Hno. rewrite parse_anthropic_response_cases. cbv zeta.
  destruct (decide (91%N ∈ text_content)) as [Hin|Hout].
  - pose proof (json_start_present _ Hin) as Hjs.
    destruct (Z.eqb_spec (json_start_of text_content) (-1)); [lia|].
    destruct (locate_end_spec (working_text text_content)
                (json_start_of text_content) Hjs) as [[He Hr]|[He Hr]].
    + by rewrite He.
    + exfalso.
      destruct (rfind_spec 93 (working_text text_content))
        as [[H _]|(k & _ & Hk & _)]; [lia|].
      apply Hno, working_text_elem. by eapply list_elem_of_lookup_2.
  - pose proof (proj2 (json_start_absent _) Hout) as ->.
    by rewrite working_text_plain.
Qed.

End Loads.

(** The theorem at the text [Here is the data: [{"a":1}, tru] done]:
    the slice fails with "Expecting value", which is raised at once. *)
Lemma parse_anthropic_response_one_repair_witness :
  let text_content := py "Here is the data: [{'a':1}, tru] done" in
  91%N ∈ text_content /\
  json_start_of text_content < rfind 93 (working_text text_content) /\
  extract text_content
  = Err (FailedToParseJson ExpectingValue (py "[{'a':1}, tru]")).
Proof.
  cbv zeta.
  assert (H1 : 91%N ∈ py "Here is the data: [{'a':1}, tru] done")
    by (apply (bool_decide_unpack _); vm_compute; exact I).
  assert (H2 : json_start_of (py "Here is the data: [{'a':1}, tru] done")
               < rfind 93 (working_text
                             (py "Here is the data: [{'a':1}, tru] done")))
    by (vm_compute; reflexivity).
  split; [exact H1|]. split; [exact H2|].
  destruct (parse_anthropic_response_one_repair Json.loads _ H1 H2)
    as (_ & Herr & _).
  unfold extract. rewrite (Herr ExpectingValue); vm_compute; reflexivity.
Defined.

(** *** Truncated arrays *)

(** C4, as stated, fails: an array cut inside its third object holds two
    complete objects and no closing bracket, and the function raises
    "No valid JSON array ending found". *)
Lemma truncated_array_raises :
  extract (py "[{'name':'A'},{'name':'B'},{'na")
  = Err (ErrorParsing (NoValidEnding 0 (-1))).
Proof. vm_compute. reflexivity. Qed.

(** C4 (amended). A text with no closing bracket makes the function
    raise, whatever complete objects a truncated array holds.  The
    repair is reached only when a closing bracket of a nested array
    follows the start: the slice then ends at the last such bracket,
    and what is returned is the prefix up to the last closing brace
    before it; here one of the two complete objects. *)
Theorem truncated_array_needs_closer :
  (forall json_loads text_content, 93%N ∉ text_content ->
     parse_anthropic_response json_loads text_content =
     if decide (91%N ∈ text_content)
     then Err (ErrorParsing (NoValidEnding (json_start_of text_content) (-1)))
     else Err (ErrorParsing (NoJsonArrayFound (snippet 500 text_content)))) /\
  extract (py "[{'a':[1]},{'b':[2]},{'c':")
  = Ok (JArr [JObj [(lit "a", JArr [JInt 1])]]).
Proof.
  split; [apply parse_anthropic_response_no_closer|].
  vm_compute. reflexivity.
Qed.

(** *** Repair *)

(** C6, as stated, fails: the slice [[{"a":1}, tru]] fails to parse with
    "Expecting value"; cutting after the closing brace and closing the
    array would parse, but no repair is attempted for this error. *)
Lemma no_repair_for_other_errors :
  extract (py "Here is the data: [{'a':1}, tru] done")
  = Err (FailedToParseJson ExpectingValue (py "[{'a':1}, tru]")) /\
  Json.loads (truncated_json (py "[{'a':1}, tru]"))
  = Ok (JArr [JObj [(lit "a", JInt 1)]]).
Proof. vm_compute. split; reflexivity. Qed.

(** *** Fenced arrays *)

Definition spaces (ws : str) : Prop := Forall (fun c => isspace c = true) ws.

Lemma spaces_no_backtick (ws : str) : spaces ws -> 96%N ∉ ws.
Proof.
  intros Hws Hin. unfold spaces in Hws. rewrite Forall_forall in Hws.
  by apply Hws in Hin.
Qed.

Lemma drop_len_app (a b : str) (n : Z) :
  0 <= n -> drop (Z.to_nat (len a + n)) (a ++ b) = drop (Z.to_nat n) b.
Proof.
  intros Hn. unfold len.
  replace (Z.to_nat (Z.of_nat (length a) + n))
    with (length a + Z.to_nat n)%nat by lia.
  by rewrite drop_app_add.
Qed.

(** The last character of a text whose bracket scan closes at its end. *)
Lemma scan_end_last (arr : str) :
  scan_end arr 0 0 false false = len arr ->
  exists init, arr = init ++ [93%N].
Proof.
  intros H.
  destruct (scan_end_found arr 0 0 false false ltac:(lia))
    as [Hn|(k & Hk & Hl & _)].
  - unfold len in H. lia.
  - assert (Hlen : length arr = S k) by (unfold len in H; lia).
    exists (take k arr).
    rewrite <- (take_drop k arr) at 1. f_equal.
    rewrite (drop_S _ _ _ Hl).
    by rewrite drop_ge by lia.
Qed.

Lemma startswith_other_head (c : N) (p s : str) :
  head s <> Some c -> startswith (c :: p) s = false.
Proof.
  destruct s as [|b s]; [done|]. cbn [head startswith]. intros H.
  destruct (N.eqb_spec c b) as [->|]; [done|reflexivity].
Qed.

Section Fenced.

Variables pre tag ws1 arr ws2 post : str.
Hypothesis pre_clean : 96%N ∉ pre.
Hypothesis arr_clean : 96%N ∉ arr.
Hypothesis tag_json : tag = [] \/ tag = lit "json".
Hypothesis ws1_spaces : spaces ws1.
Hypothesis ws2_spaces : spaces ws2.
Hypothesis arr_head : head arr = Some 91%N.
Hypothesis arr_closes : scan_end arr 0 0 false false = len arr.

Let text_content : str :=
  pre ++ fence ++ tag ++ ws1 ++ arr ++ ws2 ++ fence ++ post.

Lemma fenced_content_array : fenced_content text_content = Some arr.
Proof.
  unfold fenced_content, text_content.
  rewrite (find_after_clean_prefix 96 [96; 96]%N pre _ pre_clean).
  assert (Hlen : len pre <> -1) by (unfold len; lia).
  destruct (Z.eqb_spec (len pre) (-1)); [done|].
  unfold slice_from. rewrite drop_len_app by lia.
  change (drop (Z.to_nat 3) (fence ++ ?x)) with x.
  set (body := ws1 ++ arr ++ ws2 ++ fence ++ post).
  destruct arr as [|a0 arr0] eqn:Harr; [discriminate|].
  injection arr_head as ->.
  assert (Hbody : (if startswith (lit "json") (tag ++ body)
                   then drop 4 (tag ++ body) else tag ++ body) = body).
  { destruct tag_json as [->| ->]; [|by rewrite startswith_app].
    rewrite app_nil_l. change (lit "json") with (106%N :: lit "son").
    rewrite (startswith_other_head 106 (lit "son") body); [done|].
    subst body. destruct ws1 as [|w ws]; [by intros [=]|].
    apply Forall_cons in ws1_spaces as [Hw _].
    intros [= ->]. discriminate Hw. }
  rewrite Hbody. subst body.
  assert (Hclean : 96%N ∉ ws1 ++ (91%N :: arr0) ++ ws2).
  { rewrite !elem_of_app. intros [H|[H|H]].
    - by apply spaces_no_backtick in H.
    - by apply arr_clean.
    - by apply spaces_no_backtick in H. }
  replace (ws1 ++ (91%N :: arr0) ++ ws2 ++ fence ++ post)
    with ((ws1 ++ (91%N :: arr0) ++ ws2) ++ (96%N :: [96; 96]%N) ++ post)
    by (by rewrite <- !app_assoc).
  unfold fence.
  rewrite (find_after_clean_prefix 96 [96; 96]%N _ post Hclean).
  destruct (Z.eqb_spec (len (ws1 ++ (91%N :: arr0) ++ ws2)) (-1));
    [unfold len in *; lia|].
  unfold slice_to, len. rewrite Nat2Z.id, take_app_length.
  f_equal. unfold strip.
  rewrite lstrip_spaces by exact ws1_spaces.
  rewrite <- app_comm_cons, lstrip_nonspace by reflexivity.
  destruct (scan_end_last _ arr_closes) as [init Hinit].
  rewrite app_comm_cons, Hinit, <- app_assoc.
  change ([93%N] ++ ws2) with (93%N :: ws2).
  by rewrite rstrip_app_nonspace.
Qed.

Lemma fenced_locate_start : locate_start text_content = (arr, 0).
Proof.
  unfold locate_start. rewrite fenced_content_array.
  destruct arr as [|a0 arr0] eqn:Harr; [discriminate|].
  injection arr_head as ->. reflexivity.
Qed.

Lemma fenced_parse (json_loads : str -> result json json_error) :
  parse_anthropic_response json_loads text_content
  = parse_json_str json_loads (sanitize arr).
Proof.
  rewrite parse_anthropic_response_cases.
  unfold working_text, json_start_of. rewrite fenced_locate_start.
  cbn [fst]. cbv zeta. change (0 =? -1) with false. cbv iota.
  assert (Hpos : 0 < len arr).
  { unfold len. destruct arr; [discriminate|]. simpl. lia. }
  assert (He : locate_end arr 0 = len arr).
  { unfold locate_end, slice_from. change (drop (Z.to_nat 0) arr) with arr.
    rewrite arr_closes. destruct (Z.eqb_spec (len arr) (-1)); [lia|done]. }
  rewrite He.
  replace ((len arr =? -1) || (len arr <=? 0)) with false by lia.
  assert (Hs : slice arr 0 (len arr) = arr).
  { unfold slice, len. change (drop (Z.to_nat 0) arr) with arr.
    by rewrite Nat2Z.id, Nat.sub_0_r, firstn_all. }
  by rewrite Hs.
Qed.

End Fenced.

(** C5, as stated, fails: white space inside a string value is
    collapsed before parsing, so the record returned for a fenced,
    well-formed array is not the array's record. *)
Lemma fenced_array_spaces_collapsed :
  extract (py "```json\n[{'name':'A  B'}]\n```")
  = Ok (JArr [JObj [(lit "name", JStr (lit "A B"))]]) /\
  Json.loads (py "[{'name':'A  B'}]")
  = Ok (JArr [JObj [(lit "name", JStr (lit "A  B"))]]).
Proof. vm_compute. split; reflexivity. Qed.

End ExtractFacts.

(** ** A text that [json.loads] accepts and the bracket scan *)

Module WellFormed.

Import Text Json Extract TextFacts ExtractFacts.
Local Open Scope Z_scope.

(** Scanning [w] outside a string at a depth of at least one neither
    stops the scan nor changes its state. *)
Definition neutral (w : str) : Prop :=
  forall rest i bracket_count, 1 <= bracket_count ->
    scan_end (w ++ rest) i bracket_count false false
    = scan_end rest (i + len w) bracket_count false false.

(** Scanning [w] inside a string leaves the string at the end of [w]. *)
Definition closes_string (w : str) : Prop :=
  forall rest i bracket_count, 1 <= bracket_count ->
    scan_end (w ++ rest) i bracket_count true false
    = scan_end rest (i + len w) bracket_count false false.

(** Scanning [w] inside a string stays inside it. *)
Definition inside_string (w : str) : Prop :=
  forall rest i bracket_count,
    scan_end (w ++ rest) i bracket_count true false
    = scan_end rest (i + len w) bracket_count true false.

(** A character that the scan ignores outside a string. *)
Definition plain (c : N) : bool :=
  negb ((c =? 34) || (c =? 92) || (c =? 91) || (c =? 93))%N.

Lemma len_cons (c : N) (w : str) : len (c :: w) = 1 + len w.
Proof. unfold len. simpl. lia. Qed.

Lemma len_app (a b : str) : len (a ++ b) = len a + len b.
Proof. unfold len. rewrite length_app. lia. Qed.

Lemma neutral_nil : neutral [].
Proof. intros rest i bc _. simpl. f_equal. unfold len. simpl. lia. Qed.

Lemma neutral_app (a b : str) : neutral a -> neutral b -> neutral (a ++ b).
Proof.
  intros Ha Hb rest i bc Hbc. rewrite <- app_assoc, Ha, Hb by done.
  f_equal. rewrite len_app. lia.
Qed.

Lemma neutral_plain_char (c : N) : plain c = true -> neutral [c].
Proof.
  unfold plain. intros Hc rest i bc _.
  apply negb_true_iff in Hc. repeat (apply orb_false_iff in Hc as [Hc ?]).
  cbn [app scan_end negb]. rewrite Hc.
  replace (c =? 92)%N with false by done.
  replace (c =? 91)%N with false by done.
  replace (c =? 93)%N with false by done.
  f_equal.
Qed.

Lemma neutral_plain (w : str) :
  Forall (fun c => plain c = true) w -> neutral w.
Proof.
  induction 1 as [|c w Hc _ IH]; [apply neutral_nil|].
  change (c :: w) with ([c] ++ w).
  apply neutral_app; [by apply neutral_plain_char|exact IH].
Qed.

Lemma closes_string_app (a b : str) :
  closes_string a -> neutral b -> closes_string (a ++ b).
Proof.
  intros Ha Hb rest i bc Hbc. rewrite <- app_assoc, Ha, Hb by done.
  f_equal. rewrite len_app. lia.
Qed.

Lemma neutral_string (w : str) : closes_string w -> neutral (34%N :: w).
Proof.
  intros Hw rest i bc Hbc. cbn [app scan_end N.eqb Pos.eqb negb].
  rewrite Hw by done. f_equal. rewrite len_cons. lia.
Qed.

Lemma neutral_array (w : str) : neutral w -> neutral (91%N :: w ++ [93%N]).
Proof.
  intros Hw rest i bc Hbc. cbn [app scan_end N.eqb Pos.eqb negb].
  rewrite <- app_assoc, Hw by lia. cbn [app scan_end N.eqb Pos.eqb negb].
  destruct (Z.eqb_spec (bc + 1 - 1) 0); [lia|].
  replace (bc + 1 - 1) with bc by lia. f_equal.
  rewrite len_cons, len_app. unfold len. simpl. lia.
Qed.

Lemma inside_string_nil : inside_string [].
Proof. intros rest i bc. simpl. f_equal. unfold len. simpl. lia. Qed.

Lemma inside_string_char (c : N) (w : str) :
  c <> 34%N -> c <> 92%N -> inside_string w -> inside_string (c :: w).
Proof.
  intros H1 H2 Hw rest i bc. cbn [app scan_end negb].
  destruct (N.eqb_spec c 92); [done|]. destruct (N.eqb_spec c 34); [done|].
  rewrite Hw. f_equal. rewrite len_cons. lia.
Qed.

Lemma inside_string_escape (e : N) (w : str) :
  inside_string w -> inside_string (92%N :: e :: w).
Proof.
  intros Hw rest i bc. cbn [app scan_end N.eqb Pos.eqb negb].
  rewrite Hw. f_equal. rewrite !len_cons. lia.
Qed.

Lemma inside_string_closes (w : str) :
  inside_string w -> closes_string (w ++ [34%N]).
Proof.
  intros Hw rest i bc _. rewrite <- app_assoc, Hw.
  cbn [app scan_end N.eqb Pos.eqb negb]. f_equal.
  rewrite len_app. unfold len. simpl. lia.
Qed.

(** *** What the parser consumes *)

(** [s] is [w] followed by [rest], for some [w] with the property [P]. *)
Definition consumes (P : str -> Prop) (s rest : str) : Prop :=
  exists w, s = w ++ rest /\ P w.

Lemma consumes_nil (P : str -> Prop) (s : str) : P [] -> consumes P s s.
Proof. intros H. by exists []. Qed.

Lemma consumes_cons (P Q : str -> Prop) (c : N) (s rest : str) :
  (forall w, P w -> Q (c :: w)) ->
  consumes P s rest -> consumes Q (c :: s) rest.
Proof. intros H (w & -> & Hw). exists (c :: w). split; [done|auto]. Qed.

Lemma consumes_trans (P Q R : str -> Prop) (s mid rest : str) :
  (forall a b, P a -> Q b -> R (a ++ b)) ->
  consumes P s mid -> consumes Q mid rest -> consumes R s rest.
Proof.
  intros H (a & -> & Ha) (b & -> & Hb). exists (a ++ b).
  split; [by rewrite app_assoc|auto].
Qed.

Lemma consumes_weaken (P Q : str -> Prop) (s rest : str) :
  (forall w, P w -> Q w) -> consumes P s rest -> consumes Q s rest.
Proof. intros H (w & -> & Hw). exists w. auto. Qed.

Lemma consumes_length (P : str -> Prop) (s rest : str) :
  consumes P s rest -> (length rest <= length s)%nat.
Proof. intros (w & -> & _). rewrite length_app. lia. Qed.

Lemma expect_spec (c : N) (s r : str) : expect c s = Some r -> s = c :: r.
Proof.
  destruct s as [|x s]; [done|]. simpl.
  destruct (N.eqb_spec x c) as [->|]; [|done]. by intros [= ->].
Qed.

Lemma skip_ws_consumes (s : str) :
  consumes (fun w => Forall (fun c => is_ws c = true) w) s (skip_ws s).
Proof.
  induction s as [|c s IH]; simpl; [by apply consumes_nil|].
  destruct (is_ws c) eqn:Hc; [|by apply consumes_nil].
  revert IH. apply consumes_cons. intros w Hw. by constructor.
Qed.

Lemma is_ws_plain (c : N) : is_ws c = true -> plain c = true.
Proof.
  unfold is_ws, plain. intros H.
  repeat (apply orb_true_iff in H as [H|H]); apply N.eqb_eq in H; by subst.
Qed.

Lemma skip_ws_neutral (s : str) : consumes neutral s (skip_ws s).
Proof.
  eapply consumes_weaken; [|apply skip_ws_consumes].
  intros w Hw. apply neutral_plain.
  eapply Forall_impl; [exact Hw|]. intros c. apply is_ws_plain.
Qed.

Lemma consumes_prefix (P Q : str -> Prop) (pre s rest : str) :
  (forall w, P w -> Q (pre ++ w)) ->
  consumes P s rest -> consumes Q (pre ++ s) rest.
Proof.
  intros H (w & -> & Hw). exists (pre ++ w).
  split; [by rewrite app_assoc|auto].
Qed.

Lemma hex_digit_char (c x : N) :
  hex_digit c = Some x -> c <> 34%N /\ c <> 92%N.
Proof.
  unfold hex_digit. intros H. split; intros ->; discriminate H.
Qed.

Lemma hex4_inside (a b c d u : N) (w : str) :
  hex4 a b c d = Some u -> inside_string w ->
  inside_string (a :: b :: c :: d :: w).
Proof.
  unfold hex4. intros H Hw.
  destruct (hex_digit a) eqn:Ha; [|discriminate].
  destruct (hex_digit b) eqn:Hb; [|discriminate].
  destruct (hex_digit c) eqn:Hc; [|discriminate].
  destruct (hex_digit d) eqn:Hd; [|discriminate].
  apply hex_digit_char in Ha as [? ?], Hb as [? ?], Hc as [? ?], Hd as [? ?].
  repeat apply inside_string_char; assumption.
Qed.

(** A string body: the scan stays inside the string up to the closing
    quote. *)
Lemma scanstring_body (n : nat) : forall s acc v rest,
  (length s <= n)%nat -> scanstring s acc = Ok (v, rest) ->
  consumes inside_string s (34%N :: rest).
Proof.
  induction n as [|n IH]; intros s acc v rest Hlen H.
  { destruct s; [discriminate|simpl in Hlen; lia]. }
  destruct s as [|c r]; [discriminate|]. cbn [scanstring] in H.
  destruct (N.eqb_spec c 34) as [->|Hq].
  { injection H as <- <-. apply consumes_nil, inside_string_nil. }
  destruct (N.eqb_spec c 92) as [->|Hb].
  - destruct r as [|esc r1]; [discriminate|].
    destruct (esc =? 117)%N.
    + destruct r1 as [|h1 [|h2 [|h3 [|h4 r2]]]]; try discriminate.
      destruct (hex4 h1 h2 h3 h4) as [uni|] eqn:Hh; [|discriminate].
      assert (Hr2 : forall acc', scanstring r2 acc' = Ok (v, rest) ->
                consumes inside_string
                  (92%N :: esc :: h1 :: h2 :: h3 :: h4 :: r2)
                  (34%N :: rest)).
      { intros acc' H'. apply IH in H'; [|simpl in *; lia].
        revert H'. apply (consumes_prefix _ _ [92; esc; h1; h2; h3; h4]%N).
        intros w Hw. apply inside_string_escape. by eapply hex4_inside. }
      destruct ((55296 <=? uni)%N && (uni <=? 56319)%N); [|eauto].
      destruct r2 as [|b [|u [|g1 [|g2 [|g3 [|g4 r3]]]]]]; eauto.
      destruct ((b =? 92)%N && (u =? 117)%N) eqn:Ebu; [|eauto].
      destruct (hex4 g1 g2 g3 g4) as [uni2|] eqn:Hg; [|discriminate].
      destruct ((56320 <=? uni2)%N && (uni2 <=? 57343)%N); [|eauto].
      apply andb_true_iff in Ebu as [Eb Eu].
      apply N.eqb_eq in Eb as ->. apply N.eqb_eq in Eu as ->.
      apply IH in H; [|simpl in *; lia].
      revert H.
      apply (consumes_prefix _ _
               [92; esc; h1; h2; h3; h4; 92; 117; g1; g2; g3; g4]%N).
      intros w Hw. apply inside_string_escape.
      eapply hex4_inside; [exact Hh|].
      apply inside_string_escape. by eapply hex4_inside.
    + destruct (backslash esc); [|discriminate].
      apply IH in H; [|simpl in *; lia].
      revert H. apply (consumes_prefix _ _ [92; esc]%N).
      intros w. apply inside_string_escape.
  - destruct (c <? 32)%N; [discriminate|].
    apply IH in H; [|simpl in *; lia].
    revert H. apply consumes_cons. intros w. by apply inside_string_char.
Qed.

Lemma scanstring_closes (s acc v rest : str) :
  scanstring s acc = Ok (v, rest) ->
  consumes (fun w => closes_string w /\ w <> []) s rest.
Proof.
  intros H. apply (scanstring_body (length s)) in H as (w & -> & Hw); [|lia].
  exists (w ++ [34%N]). split; [by rewrite <- app_assoc|].
  split; [by apply inside_string_closes|]. by destruct w.
Qed.

(** Numbers and constants are made of characters the scan ignores. *)
Definition plain_text (w : str) : Prop := Forall (fun c => plain c = true) w.

Lemma plain_text_app (a b : str) :
  plain_text a -> plain_text b -> plain_text (a ++ b).
Proof. apply Forall_app_2. Qed.

Lemma is_digit_plain (c : N) : is_digit c = true -> plain c = true.
Proof.
  unfold is_digit, plain. intros H. apply andb_true_iff in H as [H1 H2].
  apply N.leb_le in H1, H2.
  destruct (N.eqb_spec c 34); [lia|]. destruct (N.eqb_spec c 92); [lia|].
  destruct (N.eqb_spec c 91); [lia|]. destruct (N.eqb_spec c 93); [lia|].
  reflexivity.
Qed.

Lemma span_digits_spec (s : str) :
  s = (span_digits s).1 ++ (span_digits s).2 /\
  plain_text (span_digits s).1.
Proof.
  induction s as [|c s [IH1 IH2]]; simpl; [by split; [|constructor]|].
  destruct (is_digit c) eqn:Hc; simpl; [|by split; [|constructor]].
  split; [by rewrite <- IH1|]. constructor; [by apply is_digit_plain|done].
Qed.

Lemma startswith_split (p s : str) :
  startswith p s = true -> s = p ++ drop (length p) s.
Proof.
  revert s. induction p as [|a p IH]; intros s H; [done|].
  destruct s as [|b s]; [discriminate|]. simpl in H.
  apply andb_true_iff in H as [Hab H]. apply N.eqb_eq in Hab as ->.
  simpl. f_equal. by apply IH.
Qed.

Lemma number_sign_spec (s : str) :
  s = (number_sign s).1 ++ (number_sign s).2 /\
  plain_text (number_sign s).1.
Proof.
  unfold number_sign. destruct (expect 45 s) as [r|] eqn:He; simpl.
  - apply expect_spec in He as ->. split; [done|]. by repeat constructor.
  - split; [done|constructor].
Qed.

Lemma number_integer_spec (s ds rest : str) :
  number_integer s = Some (ds, rest) ->
  s = ds ++ rest /\ plain_text ds /\ ds <> [].
Proof.
  unfold number_integer. destruct s as [|c r]; [done|].
  destruct (N.eqb_spec c 48) as [->|_].
  - intros [= <- <-]. split; [done|]. split; [by repeat constructor|done].
  - destruct (is_digit c) eqn:Hc; [|done]. intros [= <- <-].
    destruct (span_digits_spec r) as [H1 H2].
    split; [simpl; by rewrite <- H1|].
    split; [|done]. constructor; [by apply is_digit_plain|done].
Qed.

Lemma number_frac_spec (s : str) :
  s = (number_frac s).1 ++ (number_frac s).2 /\
  plain_text (number_frac s).1.
Proof.
  unfold number_frac. destruct (expect 46 s) as [r|] eqn:He;
    [|by split; [|constructor]].
  apply expect_spec in He as ->.
  destruct (span_digits_spec r) as [H1 H2].
  destruct (span_digits r).1 as [|d ds] eqn:Hd; simpl;
    [by split; [|constructor]|].
  split; [by rewrite H1 at 1|]. by constructor.
Qed.

Lemma number_exp_spec (s : str) :
  s = (number_exp s).1 ++ (number_exp s).2 /\
  plain_text (number_exp s).1.
Proof.
  unfold number_exp. destruct s as [|e r]; [by split; [|constructor]|].
  destruct ((e =? 101)%N || (e =? 69)%N) eqn:He;
    [|by split; [|constructor]].
  assert (Hpe : plain e = true).
  { apply orb_true_iff in He as [He|He]; apply N.eqb_eq in He; by subst. }
  set (sg := match r with
             | x :: r' => if ((x =? 43) || (x =? 45))%N then ([x], r')
                          else ([], r)
             | [] => ([], r)
             end).
  assert (Hsg : r = sg.1 ++ sg.2 /\ plain_text sg.1).
  { subst sg. destruct r as [|x r']; [by split; [|constructor]|].
    destruct ((x =? 43)%N || (x =? 45)%N) eqn:Hx;
      [|by split; [|constructor]].
    split; [done|]. constructor; [|constructor].
    apply orb_true_iff in Hx as [Hx|Hx]; apply N.eqb_eq in Hx; by subst. }
  destruct sg as [esign r1]. simpl in Hsg. destruct Hsg as [-> Hes].
  destruct (span_digits_spec r1) as [H1 H2].
  destruct (span_digits r1).1 as [|d ds] eqn:Hd; simpl;
    [by split; [|constructor]|].
  split.
  - f_equal. rewrite <- app_assoc. f_equal. by rewrite H1 at 1.
  - constructor; [done|]. by apply plain_text_app.
Qed.

Lemma match_number_spec (s : str) (v : json) (rest : str) :
  match_number s = Some (v, rest) ->
  consumes (fun w => plain_text w /\ w <> []) s rest.
Proof.
  unfold match_number.
  destruct (number_sign_spec s) as [Hs1 Hs2].
  destruct (number_sign s) as [sign s1]. simpl in Hs1, Hs2.
  destruct (number_integer s1) as [[ds s2]|] eqn:Hi; [|done].
  apply number_integer_spec in Hi as (Hi1 & Hi2 & Hi3).
  destruct (number_frac_spec s2) as [Hf1 Hf2].
  destruct (number_frac s2) as [frac s3]. simpl in Hf1, Hf2.
  destruct (number_exp_spec s3) as [He1 He2].
  destruct (number_exp s3) as [exp rest']. simpl in He1, He2.
  intros H. assert (rest' = rest) as ->.
  { destruct frac, exp; by injection H. }
  exists (sign ++ ds ++ frac ++ exp). split.
  - rewrite Hs1, Hi1, Hf1, He1. by rewrite <- !app_assoc.
  - split; [by repeat apply plain_text_app|].
    destruct sign; [|done]. by destruct ds.
Qed.

Lemma literal_consumes (p s : str) :
  startswith p s = true -> plain_text p -> p <> [] ->
  consumes (fun w => plain_text w /\ w <> []) s (drop (length p) s).
Proof.
  intros H Hp Hne. exists p. split; [by apply startswith_split|done].
Qed.

Lemma parse_atom_consumes (s : str) (v : json) (rest : str) :
  parse_atom s = Ok (v, rest) ->
  consumes (fun w => plain_text w /\ w <> []) s rest.
Proof.
  unfold parse_atom.
  destruct (startswith (lit "null") s) eqn:H1.
  { intros [= <- <-]. apply (literal_consumes (lit "null")); [done| |done].
    by repeat constructor. }
  destruct (startswith (lit "true") s) eqn:H2.
  { intros [= <- <-]. apply (literal_consumes (lit "true")); [done| |done].
    by repeat constructor. }
  destruct (startswith (lit "false") s) eqn:H3.
  { intros [= <- <-]. apply (literal_consumes (lit "false")); [done| |done].
    by repeat constructor. }
  destruct (match_number s) as [[v' rest']|] eqn:Hn.
  { intros [= <- <-]. by eapply match_number_spec. }
  destruct (startswith (lit "NaN") s) eqn:H4.
  { intros [= <- <-]. apply (literal_consumes (lit "NaN")); [done| |done].
    by repeat constructor. }
  destruct (startswith (lit "Infinity") s) eqn:H5.
  { intros [= <- <-]. apply (literal_consumes (lit "Infinity")); [done| |done].
    by repeat constructor. }
  destruct (startswith (lit "-Infinity") s) eqn:H6; [|done].
  intros [= <- <-]. apply (literal_consumes (lit "-Infinity")); [done| |done].
  by repeat constructor.
Qed.

Ltac list_eq :=
  repeat first [rewrite <- app_assoc | rewrite <- app_comm_cons];
  simpl; reflexivity.

Ltac split_ws r ws H Hws :=
  destruct (skip_ws_neutral r) as (ws & H & Hws).

Lemma neutral_char_123 : neutral [123%N].
Proof. by apply neutral_plain_char. Qed.
Lemma neutral_char_125 : neutral [125%N].
Proof. by apply neutral_plain_char. Qed.
Lemma neutral_char_44 : neutral [44%N].
Proof. by apply neutral_plain_char. Qed.
Lemma neutral_char_58 : neutral [58%N].
Proof. by apply neutral_plain_char. Qed.

(** Every value, and every run of items, that the parser reads is a
    text over which the bracket scan keeps its state. *)
Lemma parse_consumes (fuel : nat) :
  (forall s v rest, parse_value fuel s = Ok (v, rest) ->
     consumes (fun w => neutral w /\ w <> []) s rest) /\
  (forall s values v rest, array_loop fuel s values = Ok (v, rest) ->
     consumes neutral s (93%N :: rest)) /\
  (forall s pairs v rest, object_loop fuel s pairs = Ok (v, rest) ->
     consumes (fun w => closes_string w /\ w <> []) s rest).
Proof.
  induction fuel as [|fuel (IHv & IHa & IHo)]; [by repeat split|].
  split; [|split].
  - intros s v rest H. cbn [parse_value] in H.
    destruct s as [|c r]; [discriminate|].
    destruct (N.eqb_spec c 34) as [->|_].
    { destruct (scanstring r []) as [[v' rest']|] eqn:Hs; [|discriminate].
      injection H as <- <-.
      apply scanstring_closes in Hs as (w & -> & Hw & _).
      exists (34%N :: w). split; [done|]. split; [by apply neutral_string|done]. }
    destruct (N.eqb_spec c 123) as [->|_].
    { destruct (expect 34 r) as [ks|] eqn:E1.
      { apply expect_spec in E1 as ->.
        apply IHo in H as (w & -> & Hw & _).
        exists ([123%N] ++ (34%N :: w)). split; [done|]. split; [|done].
        apply neutral_app; [apply neutral_char_123|by apply neutral_string]. }
      split_ws r ws Hr Hws.
      destruct (expect 125 (skip_ws r)) as [rest'|] eqn:E2.
      { injection H as <- <-. apply expect_spec in E2. rewrite E2 in Hr.
        exists ([123%N] ++ ws ++ [125%N]). split; [rewrite Hr; list_eq|].
        split; [|done].
        repeat apply neutral_app; auto using neutral_char_123, neutral_char_125. }
      destruct (expect 34 (skip_ws r)) as [ks|] eqn:E3; [|discriminate].
      apply expect_spec in E3. rewrite E3 in Hr.
      apply IHo in H as (w & -> & Hw & _).
      exists ([123%N] ++ ws ++ (34%N :: w)). split; [rewrite Hr; list_eq|].
      split; [|done].
      repeat apply neutral_app; auto using neutral_char_123, neutral_string. }
    destruct (N.eqb_spec c 91) as [->|_].
    { split_ws r ws Hr Hws.
      destruct (expect 93 (skip_ws r)) as [rest'|] eqn:E1.
      { injection H as <- <-. apply expect_spec in E1. rewrite E1 in Hr.
        exists (91%N :: ws ++ [93%N]). split; [rewrite Hr; list_eq|].
        split; [by apply neutral_array|done]. }
      apply IHa in H as (w & Hw & Hn). rewrite Hw in Hr.
      exists (91%N :: (ws ++ w) ++ [93%N]). split; [rewrite Hr; list_eq|].
      split; [|done]. apply neutral_array. by apply neutral_app. }
    apply parse_atom_consumes in H as (w & -> & Hw & Hne).
    exists w. split; [done|]. split; [by apply neutral_plain|done].
  - intros s values v rest H. cbn [array_loop] in H.
    destruct (parse_value fuel s) as [[value rest0]|] eqn:Hv; [|discriminate].
    apply IHv in Hv as (w0 & -> & Hw0 & _).
    split_ws rest0 ws0 Hr0 Hws0.
    destruct (expect 93 (skip_ws rest0)) as [rest'|] eqn:E1.
    { injection H as <- <-. apply expect_spec in E1. rewrite E1 in Hr0.
      exists (w0 ++ ws0). split; [rewrite Hr0; list_eq|].
      by apply neutral_app. }
    destruct (expect 44 (skip_ws rest0)) as [rest1|] eqn:E2; [|discriminate].
    apply expect_spec in E2. rewrite E2 in Hr0.
    split_ws rest1 ws1 Hr1 Hws1.
    apply IHa in H as (w' & Hw' & Hn'). rewrite Hw' in Hr1.
    exists (w0 ++ ws0 ++ [44%N] ++ ws1 ++ w').
    split; [rewrite Hr0, Hr1; list_eq|].
    repeat apply neutral_app; auto using neutral_char_44.
  - intros s pairs v rest H. cbn [object_loop] in H.
    destruct (scanstring s []) as [[key rest0]|] eqn:Hs; [|discriminate].
    apply scanstring_closes in Hs as (kw & -> & Hkw & Hne).
    split_ws rest0 ws0 Hr0 Hws0.
    destruct (expect 58 (skip_ws rest0)) as [rest1|] eqn:E1; [|discriminate].
    apply expect_spec in E1. rewrite E1 in Hr0.
    split_ws rest1 ws1 Hr1 Hws1.
    destruct (parse_value fuel (skip_ws rest1)) as [[value rest2]|] eqn:Hv;
      [|discriminate].
    apply IHv in Hv as (wv & Hwv & Hnv & _). rewrite Hwv in Hr1.
    split_ws rest2 ws2 Hr2 Hws2.
    destruct (expect 125 (skip_ws rest2)) as [rest'|] eqn:E2.
    { injection H as <- <-. apply expect_spec in E2. rewrite E2 in Hr2.
      exists (kw ++ ws0 ++ [58%N] ++ ws1 ++ wv ++ ws2 ++ [125%N]).
      split; [rewrite Hr0, Hr1, Hr2; list_eq|].
      split; [|by destruct kw].
      apply closes_string_app; [done|].
      repeat apply neutral_app; auto using neutral_char_58, neutral_char_125. }
    destruct (expect 44 (skip_ws rest2)) as [rest3|] eqn:E3; [|discriminate].
    apply expect_spec in E3. rewrite E3 in Hr2.
    split_ws rest3 ws3 Hr3 Hws3.
    destruct (expect 34 (skip_ws rest3)) as [ks|] eqn:E4; [|discriminate].
    apply expect_spec in E4. rewrite E4 in Hr3.
    apply IHo in H as (w' & -> & Hw' & _).
    exists (kw ++ ws0 ++ [58%N] ++ ws1 ++ wv ++ ws2 ++ [44%N] ++ ws3
            ++ (34%N :: w')).
    split; [rewrite Hr0, Hr1, Hr2, Hr3; list_eq|].
    split; [|by destruct kw].
    apply closes_string_app; [done|].
    repeat apply neutral_app;
      auto using neutral_char_58, neutral_char_44, neutral_string.
Qed.

(** *** The fuel of [loads] is enough *)

Lemma scanstring_fuel (s acc : str) : scanstring s acc <> Err OutOfFuel.
Proof.
  remember (length s) as n eqn:Hn. assert (Hle : (length s <= n)%nat) by lia.
  clear Hn. revert s acc Hle.
  induction n as [|n IH]; intros s acc Hlen.
  { destruct s; [done|simpl in Hlen; lia]. }
  destruct s as [|c r]; [done|]. cbn [scanstring].
  destruct (c =? 34)%N; [done|].
  destruct (c =? 92)%N.
  - destruct r as [|esc r1]; [done|].
    destruct (esc =? 117)%N.
    + destruct r1 as [|h1 [|h2 [|h3 [|h4 r2]]]]; try done.
      destruct (hex4 h1 h2 h3 h4) as [uni|]; [|done].
      assert (Hr2 : forall acc', scanstring r2 acc' <> Err OutOfFuel).
      { intros acc'. apply IH. simpl in *. lia. }
      destruct ((55296 <=? uni)%N && (uni <=? 56319)%N); [|auto].
      destruct r2 as [|b [|u [|g1 [|g2 [|g3 [|g4 r3]]]]]]; auto.
      destruct ((b =? 92)%N && (u =? 117)%N); [|auto].
      destruct (hex4 g1 g2 g3 g4) as [uni2|]; [|done].
      destruct ((56320 <=? uni2)%N && (uni2 <=? 57343)%N); [|auto].
      apply IH. simpl in *. lia.
    + destruct (backslash esc); [|done]. apply IH. simpl in *. lia.
  - destruct (c <? 32)%N; [done|]. apply IH. simpl in *. lia.
Qed.

Lemma parse_atom_fuel (s : str) : parse_atom s <> Err OutOfFuel.
Proof.
  unfold parse_atom.
  repeat match goal with
         | |- context [if ?b then _ else _] => destruct b; [done|]
         end.
  destruct (match_number s); [done|].
  repeat match goal with
         | |- context [if ?b then _ else _] => destruct b; [done|]
         end.
  done.
Qed.

Ltac lengths :=
  repeat match goal with
         | H : _ = _ ++ _ |- _ =>
             apply (f_equal length) in H; rewrite ?length_app in H;
             simpl in H
         | H : _ = _ :: _ |- _ =>
             apply (f_equal length) in H; rewrite ?length_app in H;
             simpl in H
         end;
  simpl in *; lia.

Lemma parse_fuel (fuel : nat) :
  (forall s, (2 * length s < fuel)%nat ->
     parse_value fuel s <> Err OutOfFuel) /\
  (forall s values, (2 * length s + 1 < fuel)%nat ->
     array_loop fuel s values <> Err OutOfFuel) /\
  (forall s pairs, (2 * length s + 1 < fuel)%nat ->
     object_loop fuel s pairs <> Err OutOfFuel).
Proof.
  induction fuel as [|fuel (IHv & IHa & IHo)]; [repeat split; intros; lia|].
  destruct (parse_consumes fuel) as (Cv & Ca & Co).
  split; [|split].
  - intros s Hf. cbn [parse_value].
    destruct s as [|c r]; [done|].
    destruct (c =? 34)%N.
    { pose proof (scanstring_fuel r []) as Hs.
      destruct (scanstring r []) as [[v' rest']|e]; [done|]. congruence. }
    destruct (c =? 123)%N.
    { destruct (expect 34 r) as [ks|] eqn:E1.
      { apply expect_spec in E1. apply IHo. lengths. }
      split_ws r ws Hr Hws.
      destruct (expect 125 (skip_ws r)); [done|].
      destruct (expect 34 (skip_ws r)) as [ks|] eqn:E3; [|done].
      apply expect_spec in E3. rewrite E3 in Hr. apply IHo. lengths. }
    destruct (c =? 91)%N; [|apply parse_atom_fuel].
    split_ws r ws Hr Hws.
    destruct (expect 93 (skip_ws r)); [done|]. apply IHa. lengths.
  - intros s values Hf. cbn [array_loop].
    pose proof (IHv s ltac:(lia)) as Hv.
    destruct (parse_value fuel s) as [[value rest0]|e] eqn:Hp; [|congruence].
    apply Cv in Hp as (w0 & Hw0 & _ & Hne).
    split_ws rest0 ws0 Hr0 Hws0.
    destruct (expect 93 (skip_ws rest0)); [done|].
    destruct (expect 44 (skip_ws rest0)) as [rest1|] eqn:E2; [|done].
    apply expect_spec in E2. rewrite E2 in Hr0.
    split_ws rest1 ws1 Hr1 Hws1.
    apply IHa. destruct w0; [done|]. lengths.
  - intros s pairs Hf. cbn [object_loop].
    pose proof (scanstring_fuel s []) as Hs.
    destruct (scanstring s []) as [[key rest0]|e] eqn:Hk; [|congruence].
    apply scanstring_closes in Hk as (kw & Hkw & _ & Hne).
    split_ws rest0 ws0 Hr0 Hws0.
    destruct (expect 58 (skip_ws rest0)) as [rest1|] eqn:E1; [|done].
    apply expect_spec in E1. rewrite E1 in Hr0.
    split_ws rest1 ws1 Hr1 Hws1.
    assert (Hv : parse_value fuel (skip_ws rest1) <> Err OutOfFuel).
    { apply IHv. destruct kw; [done|]. lengths. }
    destruct (parse_value fuel (skip_ws rest1)) as [[value rest2]|e] eqn:Hp;
      [|congruence].
    apply Cv in Hp as (wv & Hwv & _ & _).
    split_ws rest2 ws2 Hr2 Hws2.
    destruct (expect 125 (skip_ws rest2)); [done|].
    destruct (expect 44 (skip_ws rest2)) as [rest3|] eqn:E3; [|done].
    apply expect_spec in E3. rewrite E3 in Hr2.
    split_ws rest3 ws3 Hr3 Hws3.
    destruct (expect 34 (skip_ws rest3)) as [ks|] eqn:E4; [|done].
    apply expect_spec in E4. rewrite E4 in Hr3.
    apply IHo. destruct kw; [done|]. lengths.
Qed.

(** [loads] never runs out of fuel: an error it returns is one of
    Python's. *)
Lemma loads_fuel (s : str) : loads s <> Err OutOfFuel.
Proof.
  unfold loads. destruct (startswith [65279%N] s); [done|].
  pose proof (proj1 (parse_fuel (fuel_for (skip_ws s))) (skip_ws s)) as H.
  destruct (parse_value _ _) as [[obj rest]|e].
  - by destruct (skip_ws rest).
  - intros [= ->]. apply H; [unfold fuel_for; lia|done].
Qed.

(** *** A well-formed array closes the bracket scan at its end *)

Lemma scan_end_array (inner rest : str) (i : Z) :
  neutral inner ->
  scan_end (91%N :: inner ++ 93%N :: rest) i 0 false false
  = i + len inner + 2.
Proof.
  intros Hn. cbn [scan_end N.eqb Pos.eqb negb].
  rewrite Hn by lia. cbn [scan_end N.eqb Pos.eqb negb]. simpl. lia.
Qed.

Lemma skip_ws_head (c : N) (s : str) :
  is_ws c = false -> skip_ws (c :: s) = c :: s.
Proof. intros H. simpl. by rewrite H. Qed.

Lemma last_spaces (s rest : str) :
  Forall (fun c => is_ws c = true) rest ->
  last (s ++ 93%N :: rest) = Some 93%N -> rest = [].
Proof.
  intros Hws Hl. destruct rest as [|c rest] using rev_ind; [done|].
  exfalso. rewrite app_comm_cons, app_assoc, last_snoc in Hl.
  injection Hl as ->. apply Forall_app in Hws as [_ Hws].
  apply Forall_cons in Hws as [Hws _]. discriminate Hws.
Qed.

Lemma wellformed_array_closes (arr : str) (records : json) :
  loads arr = Ok records -> head arr = Some 91%N -> last arr = Some 93%N ->
  scan_end arr 0 0 false false = len arr.
Proof.
  intros Hl Hh Hlast. destruct arr as [|c r]; [discriminate|].
  injection Hh as ->. unfold loads in Hl.
  change (startswith [65279%N] (91%N :: r)) with false in Hl. cbv iota in Hl.
  rewrite skip_ws_head in Hl by reflexivity.
  destruct (parse_value _ _) as [[obj rest]|] eqn:Hp; [|discriminate].
  assert (Hrest : Forall (fun c => is_ws c = true) rest).
  { destruct (skip_ws_consumes rest) as (ws & Hws & Hall).
    destruct (skip_ws rest); [|discriminate].
    by rewrite Hws, app_nil_r. }
  clear Hl. unfold fuel_for in Hp. cbn [parse_value] in Hp.
  change (91 =? 34)%N with false in Hp. change (91 =? 123)%N with false in Hp.
  change (91 =? 91)%N with true in Hp. cbv iota in Hp.
  split_ws r ws Hr Hws.
  assert (Hshape : exists inner, r = inner ++ 93%N :: rest /\ neutral inner).
  { destruct (expect 93 (skip_ws r)) as [rest'|] eqn:E1.
    - injection Hp as <- <-. apply expect_spec in E1. rewrite E1 in Hr.
      by exists ws.
    - apply parse_consumes in Hp as (w & Hw & Hn). rewrite Hw in Hr.
      exists (ws ++ w). split; [by rewrite <- app_assoc|by apply neutral_app]. }
  destruct Hshape as (inner & -> & Hinner).
  rewrite app_comm_cons in Hlast. apply last_spaces in Hlast; [|done].
  subst rest. rewrite scan_end_array by done.
  rewrite len_cons, len_app. unfold len. simpl. lia.
Qed.

(** C5 (amended). Let the first fence of the text, with or without the
    tag [json], be followed by white space, a well-formed JSON array
    [arr] without a backtick (it starts with its opening and ends with
    its closing bracket, and [json.loads] accepts it), white space and
    a closing fence.  Then the function returns what parsing the
    sanitized [arr] gives, and so the array's records exactly when
    sanitizing leaves [arr] as it is.  On the scenario's input it
    returns the one record with name A. *)
Theorem fenced_array_parsed_after_sanitizing :
  (forall pre tag ws1 arr ws2 post records,
     96%N ∉ pre -> 96%N ∉ arr -> tag = [] \/ tag = lit "json" ->
     spaces ws1 -> spaces ws2 ->
     head arr = Some 91%N -> last arr = Some 93%N ->
     Json.loads arr = Ok records ->
     let text_content :=
       pre ++ fence ++ tag ++ ws1 ++ arr ++ ws2 ++ fence ++ post in
     extract text_content = parse_json_str Json.loads (sanitize arr) /\
     (sanitize arr = arr -> extract text_content = Ok records)) /\
  extract (py "Sure! ```json\n[{'name':'A'}]\n```")
  = Ok (JArr [JObj [(lit "name", JStr (lit "A"))]]).
Proof.
  split; [|vm_compute; reflexivity].
  intros pre tag ws1 arr ws2 post records H1 H2 H3 H4 H5 H6 H7 H8 text.
  subst text. unfold extract.
  rewrite (fenced_parse pre tag ws1 arr ws2 post); try assumption.
  - split; [reflexivity|].
    intros Hs. rewrite Hs. unfold parse_json_str. by rewrite H8.
  - by eapply wellformed_array_closes.
Qed.

End WellFormed.

(** * Further properties of the code *)

(** ** [skip_weekend]: where a weekend day goes *)

Module SkipWeekendFacts.

Import SkipWeekend.

Lemma tod_of_add_days (t n : Z) : DT.tod_of (t + DT.days n) = DT.tod_of t.
Proof.
  unfold DT.tod_of, DT.days. apply Z.mod_add. rewrite DT.DAY_val. lia.
Qed.

(** X1. [skip_weekend] keeps the time of day and never moves a date
    backwards: a Saturday goes two calendar days forward and a Sunday
    one, both to the Monday that follows, and every other day stays. *)
Theorem skip_weekend_next_monday (date : Z) :
  DT.tod_of (skip_weekend date) = DT.tod_of date /\
  DT.day_of (skip_weekend date) - DT.day_of date
  = (if DT.weekday date =? 5 then 2
     else if DT.weekday date =? 6 then 1 else 0) /\
  DT.weekday (skip_weekend date)
  = (if is_weekend date then 0 else DT.weekday date).
Proof.
  split; [|split; [|apply skip_weekend_weekday]].
  - unfold skip_weekend.
    destruct (DT.weekday date =? 5); [apply tod_of_add_days|].
    destruct (DT.weekday date =? 6); [apply tod_of_add_days|reflexivity].
  - unfold skip_weekend.
    destruct (DT.weekday date =? 5); [rewrite DT.day_of_add_days; lia|].
    destruct (DT.weekday date =? 6); [rewrite DT.day_of_add_days; lia|lia].
Qed.

End SkipWeekendFacts.

(** ** [ensure_unique_datetime]: bounds and counters *)

Module UniqueDatetimeFacts.

Import UniqueDatetime.

(** [min_date <= date <= max_date], a missing bound not constraining. *)
Definition in_range (min_date max_date : option Z) (date : Z) : bool :=
  negb (above max_date date) && negb (below min_date date).

(** The bounds do not exclude each other. *)
Definition ordered (min_date max_date : option Z) : Prop :=
  match min_date, max_date with
  | Some a, Some b => a <= b
  | _, _ => True
  end.

(** Case analysis on the comparisons of the goal, innermost first. *)
Ltac case_ltb :=
  repeat match goal with
         | |- context [?x <? ?y] =>
             lazymatch x with
             | context [if _ then _ else _] => fail
             | _ => lazymatch y with
                    | context [if _ then _ else _] => fail
                    | _ => destruct (Z.ltb_spec x y); simpl
                    end
             end
         end.

Lemma normalise_in_range (date : Z) (min_date max_date : option Z) :
  ordered min_date max_date ->
  in_range min_date max_date (normalise date min_date max_date) = true.
Proof.
  unfold ordered, in_range, normalise, above, below.
  generalize (DT.replace_u date 0). intros d.
  destruct min_date as [a|], max_date as [b|]; simpl; intros H;
    case_ltb; try reflexivity; lia.
Qed.

Lemma seconds_pos (k : Z) : 1 <= k -> 0 < DT.seconds k.
Proof. unfold DT.seconds, DT.SECOND. lia. Qed.

Lemma candidate_in_range (min_date max_date : option Z)
    (original_date attempt : Z) :
  1 <= attempt ->
  in_range min_date max_date original_date = true ->
  out_of_range min_date max_date original_date attempt = false ->
  in_range min_date max_date (candidate max_date original_date attempt) = true.
Proof.
  intros Hk. pose proof (seconds_pos attempt Hk) as Hs.
  unfold in_range, out_of_range, candidate, above, below.
  generalize dependent (DT.seconds attempt). intros s Hs.
  destruct min_date as [a|], max_date as [b|]; simpl;
    case_ltb; intros; try reflexivity; try discriminate; lia.
Qed.

(** An attempt that is returned did not leave the range. *)
Lemma probe_found (used_dates : gset string) (min_date max_date : option Z)
    (original_date : Z) (remaining : nat) :
  forall attempt date ts prev d k,
    probe used_dates min_date max_date original_date remaining attempt
          date ts prev = Found d k ->
    attempt <= k /\ d = candidate max_date original_date k /\
    out_of_range min_date max_date original_date k = false.
Proof.
  induction remaining as [|n IH]; intros attempt date ts prev d k;
    [discriminate|].
  cbn [probe]. unfold out_of_range, candidate.
  destruct (above max_date (original_date + DT.seconds attempt)) eqn:Hab.
  - destruct (below min_date (original_date - DT.seconds attempt)) eqn:Hbe;
      [discriminate|].
    destruct (decide (_ ∈ used_dates)).
    + intros H. apply IH in H as (? & ? & ?). split; [lia|]. by split.
    + intros [= <- <-]. rewrite Hab, Hbe. split; [lia|]. by split.
  - destruct (decide (_ ∈ used_dates)).
    + intros H. apply IH in H as (? & ? & ?). split; [lia|]. by split.
    + intros [= <- <-]. rewrite Hab. split; [lia|]. by split.
Qed.

(** The three ways the function ends. *)
Lemma ensure_unique_datetime_exits
    (date : Z) (used_dates : gset string) (min_date max_date : option Z)
    (field_name : string) (counters : gmap string Z) :
  let r := ensure_unique_datetime date used_dates min_date max_date
             field_name counters in
  let original_date := normalise date min_date max_date in
  (log r = [] /\
   (ret r = original_date \/
    exists k, 1 <= k /\ ret r = candidate max_date original_date k /\
              out_of_range min_date max_date original_date k = false))
  \/ log r = [CouldNotFindUnique]
  \/ (log r = [CannotFindInRange; CouldNotFindUnique] /\
      below min_date (ret r) = true).
Proof.
  cbv zeta. unfold ensure_unique_datetime.
  set (original_date := normalise date min_date max_date).
  destruct (decide (Iso.isoformat original_date ∈ used_dates)) as [Hin|Hout];
    [|left; simpl; auto].
  pose proof (probe_exit used_dates min_date max_date original_date
                (Z.to_nat max_attempts) 1 original_date _ 0 Hin) as Hp.
  destruct (probe _ _ _ _ _ _ _ _ _) as [d k|d ts k|d ts k] eqn:E; simpl.
  - apply probe_found in E as (? & ? & ?). left. split; [done|].
    right. by exists k.
  - destruct Hp as (_ & Hout & -> & _). right. right. split; [done|].
    unfold out_of_range in Hout. by apply andb_true_iff in Hout as [_ ?].
  - right. by left.
Qed.

(** X2. When the bounds do not exclude each other ([min_date <=
    max_date] where both are given) and no warning is logged, the
    returned datetime lies within them; when the warning "Cannot find
    unique timestamp ... in range" is logged, the returned datetime lies
    before [min_date]. *)
Theorem ensure_unique_datetime_in_range
    (date : Z) (used_dates : gset string) (min_date max_date : option Z)
    (field_name : string) (counters : gmap string Z) :
  ordered min_date max_date ->
  let r := ensure_unique_datetime date used_dates min_date max_date
             field_name counters in
  (log r = [] -> in_range min_date max_date (ret r) = true) /\
  (In CannotFindInRange (log r) -> below min_date (ret r) = true).
Proof.
  intros Hord r.
  pose proof (normalise_in_range date min_date max_date Hord) as Hn.
  destruct (ensure_unique_datetime_exits date used_dates min_date max_date
              field_name counters) as [[Hlog Hret]|[Hlog|[Hlog Hret]]];
    fold r in Hlog; try fold r in Hret; rewrite Hlog.
  - split; [intros _|intros []].
    destruct Hret as [->|(k & Hk & -> & Hout)]; [exact Hn|].
    by apply candidate_in_range.
  - split; [discriminate|]. intros [H|[]]. discriminate H.
  - split; [discriminate|]. intros _. exact Hret.
Qed.

(** The theorem between 11:00 and 12:00 with 12:00:00 and 11:59:59
    taken: the result is 11:59:58. *)
Lemma ensure_unique_datetime_in_range_witness :
  let r := ensure_unique_datetime noon noon_taken
             (Some (noon - DT.hours 1)) (Some noon) EmptyString ∅ in
  ret r = noon - DT.seconds 2 /\
  in_range (Some (noon - DT.hours 1)) (Some noon) (ret r) = true.
Proof.
  cbv zeta. split; [vm_compute; reflexivity|].
  assert (Hord : ordered (Some (noon - DT.hours 1)) (Some noon))
    by (vm_compute; discriminate).
  destruct (ensure_unique_datetime_in_range noon noon_taken
              (Some (noon - DT.hours 1)) (Some noon) EmptyString ∅ Hord)
    as [Hin _].
  apply Hin. vm_compute. reflexivity.
Defined.

Lemma bump_lookup (field_name : string) (counters : gmap string Z) :
  dom (bump field_name counters) = dom counters /\
  (forall k, k <> field_name -> bump field_name counters !! k = counters !! k).
Proof.
  unfold bump. destruct (counters !! field_name) as [n|] eqn:E; [|done].
  destruct (PyStr.is_empty field_name); [done|]. split.
  - rewrite dom_insert_L.
    assert (field_name ∈ dom counters) by (apply elem_of_dom; eauto).
    set_solver.
  - intros k Hk. by rewrite lookup_insert_ne.
Qed.

(** X3. [ensure_unique_datetime] never creates a counter: the keys of
    [counters] are the same after the call, no entry but that of
    [field_name] changes, and that entry is incremented by one exactly
    when the normalised datetime was already used, the field name is not
    empty and the entry exists. *)
Theorem ensure_unique_datetime_counters
    (date : Z) (used_dates : gset string) (min_date max_date : option Z)
    (field_name : string) (counters : gmap string Z) :
  let r := ensure_unique_datetime date used_dates min_date max_date
             field_name counters in
  dom (counters_after r) = dom counters /\
  (forall k, k <> field_name -> counters_after r !! k = counters !! k) /\
  counters_after r !! field_name
  = (if decide (Iso.isoformat (normalise date min_date max_date) ∈ used_dates)
     then (fun n => if PyStr.is_empty field_name then n else n + 1)
          <$> counters !! field_name
     else counters !! field_name).
Proof.
  cbv zeta. unfold ensure_unique_datetime.
  destruct (decide (_ ∈ used_dates)) as [Hin|Hout]; [|done].
  assert (Hc : forall o : outcome,
            counters_after
              match probe used_dates min_date max_date
                      (normalise date min_date max_date)
                      (Z.to_nat max_attempts) 1
                      (normalise date min_date max_date)
                      (Iso.isoformat (normalise date min_date max_date)) 0 with
              | Found d k =>
                  mk_outcome d ({[Iso.isoformat d]} ∪ used_dates)
                             (bump field_name counters) k []
              | Broke d ts k =>
                  mk_outcome d ({[ts]} ∪ used_dates)
                             (bump field_name counters) k
                             [CannotFindInRange; CouldNotFindUnique]
              | Ran_out d ts k =>
                  mk_outcome d ({[ts]} ∪ used_dates)
                             (bump field_name counters) k
                             [CouldNotFindUnique]
              end = bump field_name counters).
  { intros _. by destruct (probe _ _ _ _ _ _ _ _ _). }
  rewrite (Hc (mk_outcome 0 ∅ ∅ 0 [])).
  destruct (bump_lookup field_name counters) as [Hd Hk].
  split; [exact Hd|]. split; [exact Hk|].
  unfold bump. destruct (counters !! field_name) as [n|] eqn:E; [|by rewrite E].
  destruct (PyStr.is_empty field_name); [by rewrite E|].
  by rewrite lookup_insert_eq.
Qed.

End UniqueDatetimeFacts.

(** ** [update_entity_dates]: what the loop reads and what it never runs *)

Module BackfillFacts.

Import Backfill.

Lemma replace_hmsu_fields (t h m s us : Z) :
  fields_ok h m s us ->
  DT.tod_of (DT.replace_hmsu t h m s us) = time_of_day h m s us /\
  DT.hour (DT.replace_hmsu t h m s us) = h /\
  DT.minute (DT.replace_hmsu t h m s us) = m /\
  DT.second (DT.replace_hmsu t h m s us) = s /\
  DT.microsecond (DT.replace_hmsu t h m s us) = us.
Proof.
  intros (Hh & Hm & Hs & Hus).
  assert (Ht : DT.tod_of (DT.replace_hmsu t h m s us) = time_of_day h m s us).
  { unfold DT.tod_of, DT.replace_hmsu, time_of_day. symmetry.
    apply (Z.mod_unique_pos _ _ (DT.day_of t)).
    - unfold DT.DAY, DT.HOUR, DT.MINUTE, DT.SECOND. lia.
    - lia. }
  split; [exact Ht|].
  unfold DT.hour, DT.minute, DT.second, DT.microsecond. rewrite Ht.
  unfold time_of_day, DT.HOUR, DT.MINUTE, DT.SECOND.
  repeat split; DT.dlia.
Qed.

(** The creation date after lines 123-198: derived from the reference
    creation date when it parses, else from the index alone. *)
Definition created_of (clock : nat -> Z) (now days_range total_items : Z)
    (reads : nat) (date_idx : Z) (original_item : option reference) : Z :=
  let '(created_date, _, reads) :=
    from_reference clock now days_range total_items reads date_idx
                   original_item in
  match created_date with
  | Some d => d
  | None => created_default now days_range total_items (clock reads) date_idx
  end.

Section Created.

Variable clock : nat -> Z.
Variables now days_range total_items : Z.
Variable reads : nat.
Variable date_idx : Z.
Variable original_item : option reference.

Local Abbreviation created :=
  (created_of clock now days_range total_items reads date_idx original_item).

Lemma created_of_shape :
  created <= now /\ exists base, created = at_index_time base date_idx.
Proof.
  unfold created_of.
  pose proof (from_reference_created clock now days_range total_items reads
                date_idx original_item) as Href.
  destruct (from_reference _ _ _ _ _ _ _) as [[c m] reads'].
  destruct c as [d|].
  - destruct Href as [p ->]. split; [apply created_from_reference_le_now|].
    unfold created_from_reference.
    match goal with |- exists _, (if ?b then _ else _) = _ => destruct b end;
      eauto.
  - split; [apply created_default_le_now|].
    unfold created_default.
    match goal with |- exists _, (if ?b then _ else _) = _ => destruct b end;
      eauto.
Qed.

Lemma record_dates_created :
  (record_dates clock now days_range total_items reads date_idx
     original_item).1.1 = created.
Proof.
  pose proof created_of_shape as [Hle _]. revert Hle.
  unfold record_dates, created_of.
  destruct (from_reference _ _ _ _ _ _ _) as [[c m] reads'].
  destruct c as [d|]; intros Hle; by rewrite created_reclamped_past.
Qed.

End Created.

(** X4. The creation timestamp written for a record has the time of
    day synthesised from its date index, whatever the reference dates
    and the clock are: hour [8 + (7 i mod 10)], minute [11 i mod 60],
    second [19 i mod 60], microsecond [23 i mod 1000000].  Its hour is
    therefore between 8 and 17. *)
Theorem created_time_of_day_from_index (clock : nat -> Z)
    (now days_range total_items : Z) (reads : nat) (date_idx : Z)
    (original_item : option reference) :
  let created_at :=
    (record_dates clock now days_range total_items reads date_idx
       original_item).1.1 in
  DT.hour created_at = 8 + (date_idx * 7) mod 10 /\
  DT.minute created_at = (date_idx * 11) mod 60 /\
  DT.second created_at = (date_idx * 19) mod 60 /\
  DT.microsecond created_at = (date_idx * 23) mod 1000000 /\
  8 <= DT.hour created_at <= 17.
Proof.
  cbv zeta. rewrite record_dates_created.
  destruct (created_of_shape clock now days_range total_items reads date_idx
              original_item) as [_ [base ->]].
  destruct (replace_hmsu_fields base _ _ _ _ (index_fields_ok date_idx))
    as (_ & Hh & Hm & Hs & Hus).
  unfold at_index_time. rewrite Hh, Hm, Hs, Hus.
  unfold hours_of, minutes_of, seconds_of, microseconds_of.
  repeat split; DT.dlia.
Qed.

(** X5. Two branches of the loop body never run.  The creation date is
    never after [now] when line 262 tests it, so lines 263-279 change
    nothing; and in the narrowing of a future modification date, the
    date [created_date + days_variation] of line 229 is never after
    [now], so the [else] of lines 237-242 is not reached. *)
Theorem update_entity_dates_dead_branches :
  (forall clock now days_range total_items reads date_idx original_item l,
     let created_date :=
       created_of clock now days_range total_items reads date_idx
                  original_item in
     (record_dates clock now days_range total_items reads date_idx
        original_item).1.1 = created_date /\
     (now <? created_date) = false /\
     created_reclamped now created_date date_idx l = (created_date, l)) /\
  (forall now total_items created_date date_idx,
     let max_days := DT.delta_days now created_date in
     0 < max_days ->
     (created_date
      + DT.days (days_variation_within total_items max_days date_idx)
      <=? now) = true).
Proof.
  split.
  - intros clock now days_range total_items reads date_idx original_item l.
    cbv zeta.
    destruct (created_of_shape clock now days_range total_items reads date_idx
                original_item) as [Hle _].
    split; [apply record_dates_created|].
    split; [lia|by apply created_reclamped_past].
  - intros now total_items created_date date_idx max_days Hpos.
    pose proof (days_variation_within_range total_items max_days date_idx
                  ltac:(lia)) as Hv.
    apply Z.leb_le. subst max_days.
    unfold DT.delta_days, DT.days in *. rewrite DT.DAY_val in *.
    assert (days_variation_within total_items
              ((now - created_date) / 86400000000) date_idx * 86400000000
            <= (now - created_date) / 86400000000 * 86400000000) by lia.
    DT.dlia.
Qed.

(** The clock readings made once the reference modification date has
    been looked at (lines 169-174). *)
Definition reads_after_modified (clock : nat -> Z) (reads : nat)
    (m : date_field) : nat :=
  match m with
  | Parsed parsed_modified =>
      if clock reads <? parsed_modified then S (S reads) else S reads
  | _ => reads
  end.

(** X6. The reference modification date influences the result only
    through the clock readings that looking at it costs: a record whose
    reference carries [modifiedDateTime] gets the dates, and leaves the
    clock where, the same record without it would after those readings. *)
Theorem reference_modified_only_costs_readings (clock : nat -> Z)
    (now days_range total_items : Z) (reads : nat) (date_idx : Z)
    (c m : date_field) :
  record_dates clock now days_range total_items reads date_idx
    (Some (mk_reference c m))
  = record_dates clock now days_range total_items
      (reads_after_modified clock reads m) date_idx
      (Some (mk_reference c Absent)).
Proof.
  unfold record_dates, from_reference, reads_after_modified.
  cbn [createdDateTime modifiedDateTime].
  destruct m as [| |pm]; try reflexivity.
  destruct (clock reads <? pm); reflexivity.
Qed.

Lemma update_loop_ids (clock : nat -> Z) (months_back : Z)
    (original_data : list (option original))
    (shuffled_indices : option (list Z)) (now total_items : Z)
    (seeded_items : list seeded_item) : forall idx reads,
  map update_id
      (update_loop clock months_back original_data shuffled_indices
         now total_items idx seeded_items reads)
  = omap app_id seeded_items.
Proof.
  induction seeded_items as [|seeded rest IH]; intros idx reads;
    [reflexivity|].
  cbn [update_loop omap list_omap].
  destruct (app_id seeded) as [id|]; [|apply IH].
  cbn [map update_id]. f_equal. apply IH.
Qed.

(** X7. [update_entity_dates] executes one update for every seeded
    record that has an identifier, in the order of the batch and with
    that identifier; records without one are skipped. *)
Theorem update_entity_dates_ids (clock : nat -> Z) (months_back : Z)
    (original_data : list (option original))
    (shuffled_indices : option (list Z)) (seeded_items : list seeded_item) :
  map update_id
      (update_entity_dates clock months_back original_data shuffled_indices
         seeded_items)
  = omap app_id seeded_items.
Proof. apply update_loop_ids. Qed.

(** A record without its name. *)
Definition unnamed (o : original) : original :=
  mk_original EmptyString (original_dates o).

Definition unnamed_item (seeded : seeded_item) : seeded_item :=
  mk_seeded (app_id seeded) (unnamed <$> seeded_original seeded).

Lemma select_original_unnamed (original_data : list (option original))
    (idx : nat) (seeded : seeded_item) :
  original_dates <$>
    select_original (map (fmap unnamed) original_data) idx
                    (unnamed_item seeded)
  = original_dates <$> select_original original_data idx seeded.
Proof.
  unfold select_original, unnamed_item. cbn [seeded_original].
  destruct (seeded_original seeded) as [o|]; [reflexivity|]. cbn [fmap option_fmap option_map].
  rewrite list_lookup_fmap.
  destruct (original_data !! idx) as [[o|]|]; reflexivity.
Qed.

Lemma update_loop_unnamed (clock : nat -> Z) (months_back : Z)
    (original_data : list (option original))
    (shuffled_indices : option (list Z)) (now total_items : Z)
    (seeded_items : list seeded_item) : forall idx reads,
  update_loop clock months_back (map (fmap unnamed) original_data)
    shuffled_indices now total_items idx (map unnamed_item seeded_items) reads
  = update_loop clock months_back original_data shuffled_indices
      now total_items idx seeded_items reads.
Proof.
  induction seeded_items as [|seeded rest IH]; intros idx reads;
    [reflexivity|].
  cbn [map update_loop]. cbn [unnamed_item app_id].
  destruct (app_id seeded) as [id|] eqn:Hid; [|apply IH].
  replace (mk_seeded (Some id) (unnamed <$> seeded_original seeded))
    with (unnamed_item seeded) by (unfold unnamed_item; by rewrite Hid).
  rewrite (select_original_unnamed original_data idx seeded).
  by rewrite IH.
Qed.

(** X8. The names of the records are never read: the lookup by
    [name_key] of lines 116-121 cannot find anything, and the updates
    are the same when every name is blanked, in the reference list and
    in the seeded records. *)
Theorem update_entity_dates_ignores_names (clock : nat -> Z)
    (months_back : Z) (original_data : list (option original))
    (shuffled_indices : option (list Z)) (seeded_items : list seeded_item) :
  update_entity_dates clock months_back (map (fmap unnamed) original_data)
    shuffled_indices (map unnamed_item seeded_items)
  = update_entity_dates clock months_back original_data shuffled_indices
      seeded_items.
Proof.
  unfold update_entity_dates. rewrite length_map. apply update_loop_unnamed.
Qed.

End BackfillFacts.

(** ** [parse_anthropic_response]: the shape of what is parsed and returned *)

Module ExtractMore.

Import Text Json Extract TextFacts ExtractFacts WellFormed.
Local Open Scope Z_scope.

(** *** The second scan *)

(** X9. The second bracket scan (lines 472-502) never finds an end: it
    repeats the first one, so when it runs its list of ends is empty and
    the end is the last closing bracket of the text, if that lies after
    the start.  An end that is found lies after the start, so the error
    "No valid JSON array ending found" always reports [json_end=-1]. *)
Theorem second_scan_finds_nothing
    (json_loads : str -> result json json_error) (text_content : str) :
  (forall json_start, 0 <= json_start ->
     let first_scan :=
       scan_end (slice_from text_content json_start) json_start 0
                false false in
     let last_bracket := rfind 93 text_content in
     (first_scan = -1 ->
      potential_ends (slice_from text_content json_start) json_start 0
                     false false = []) /\
     locate_end text_content json_start
     = (if first_scan =? -1
        then if json_start <? last_bracket then last_bracket + 1 else -1
        else first_scan)) /\
  (forall json_start json_end,
     parse_anthropic_response json_loads text_content
     = Err (ErrorParsing (NoValidEnding json_start json_end)) ->
     json_end = -1 /\ 0 <= json_start /\
     rfind 93 (working_text text_content) <= json_start).
Proof.
  split.
  - intros json_start Hjs first_scan last_bracket.
    split; [by apply potential_ends_none|].
    unfold locate_end. fold first_scan.
    destruct (Z.eqb_spec first_scan (-1)) as [Hf|Hf]; [|reflexivity].
    by rewrite potential_ends_none.
  - intros json_start json_end. rewrite parse_anthropic_response_cases.
    cbv zeta.
    destruct (Z.eqb_spec (json_start_of text_content) (-1)) as [Hs|Hs];
      [discriminate|].
    assert (Hjs : 0 <= json_start_of text_content).
    { apply json_start_present. destruct (decide (91%N ∈ text_content));
        [done|]. by apply json_start_absent in n. }
    destruct (locate_end_spec (working_text text_content)
                (json_start_of text_content) Hjs) as [[He Hr]|[He Hr]].
    + rewrite He. cbn [Z.eqb orb]. intros [= <- <-]. auto.
    + replace (_ || _) with false by lia.
      unfold parse_json_str.
      destruct (json_loads _); [discriminate|].
      match goal with |- context [match ?x with Some _ => _ | None => _ end] =>
        destruct x end; discriminate.
Qed.

(** *** The result is an array *)

Lemma array_loop_array (fuel : nat) : forall s values v rest,
  array_loop fuel s values = Ok (v, rest) -> exists items, v = JArr items.
Proof.
  induction fuel as [|fuel IH]; intros s values v rest H; [discriminate|].
  cbn [array_loop] in H.
  destruct (parse_value fuel s) as [[value rest0]|]; [|discriminate].
  destruct (expect 93 (skip_ws rest0)); [injection H as <- _; eauto|].
  destruct (expect 44 (skip_ws rest0)); [|discriminate]. eauto.
Qed.

(** [json.loads] of a text that starts with an opening bracket returns
    a list. *)
Lemma loads_array (s : str) (v : json) :
  head s = Some 91%N -> loads s = Ok v -> exists items, v = JArr items.
Proof.
  destruct s as [|c r]; [discriminate|]. intros [= ->]. unfold loads.
  change (startswith [65279%N] (91%N :: r)) with false. cbv iota.
  rewrite skip_ws_head by reflexivity. unfold fuel_for.
  cbn [parse_value].
  change (91 =? 34)%N with false. change (91 =? 123)%N with false.
  change (91 =? 91)%N with true. cbv iota.
  destruct (expect 93 (skip_ws r)) as [rest'|].
  - destruct (skip_ws rest'); [|discriminate]. intros [= <-]. eauto.
  - destruct (array_loop _ _ _) as [[obj rest]|] eqn:Ha; [|discriminate].
    apply array_loop_array in Ha as [items ->].
    destruct (skip_ws rest); [|discriminate]. intros [= <-]. eauto.
Qed.

Lemma head_rstrip (c : N) (r : str) :
  isspace c = false -> head (rstrip (c :: r)) = Some c.
Proof. intros H. cbn [rstrip]. rewrite H. by destruct (rstrip r). Qed.

Lemma head_strip (c : N) (r : str) :
  isspace c = false -> head (strip (c :: r)) = Some c.
Proof.
  intros H. unfold strip. rewrite lstrip_nonspace by done.
  by apply head_rstrip.
Qed.

(** Sanitizing keeps an opening bracket at the head. *)
Lemma sanitize_head (s : str) :
  head s = Some 91%N -> head (sanitize s) = Some 91%N.
Proof.
  destruct s as [|c r]; [discriminate|]. intros [= ->]. unfold sanitize.
  pose proof (head_strip 91 r eq_refl) as Hs.
  destruct (strip (91%N :: r)) as [|c r']; [discriminate|].
  injection Hs as ->. cbn [map collapse_spaces drop_trailing_commas].
  change (is_control 91) with false. cbv iota.
  change (isspace 91) with false. cbv iota.
  change ((91 =? 44)%N) with false. reflexivity.
Qed.

Lemma find_char_lookup (c : N) (s : str) :
  find [c] s <> -1 -> 0 <= find [c] s /\ s !! Z.to_nat (find [c] s) = Some c.
Proof.
  intros H. destruct (decide (c ∈ s)) as [Hin|Hout].
  - apply find_char_present in Hin as (k & -> & Hk).
    by rewrite Nat2Z.id; split; [lia|].
  - by apply find_char_absent in Hout.
Qed.

(** The start that is found is the index of an opening bracket. *)
Lemma json_start_bracket (text_content : str) :
  json_start_of text_content <> -1 ->
  0 <= json_start_of text_content /\
  working_text text_content !! Z.to_nat (json_start_of text_content)
  = Some 91%N.
Proof.
  intros Hne.
  assert (Hin : 91%N ∈ text_content).
  { destruct (decide (91%N ∈ text_content)) as [|Hout]; [done|].
    by apply json_start_absent in Hout. }
  revert Hne. unfold json_start_of, working_text, locate_start.
  assert (Hplain : find open_bracket text_content <> -1).
  { intros H. by apply find_char_absent in H. }
  assert (Hp : ((if find open_bracket text_content =? -1
                 then probe_prefixes prefixes text_content
                 else find open_bracket text_content) <> -1 ->
                0 <= find open_bracket text_content /\
                text_content !! Z.to_nat (find open_bracket text_content)
                = Some 91%N)).
  { intros _. by apply find_char_lookup. }
  destruct (fenced_content text_content) as [extracted|].
  - destruct (Z.eqb_spec (find open_bracket extracted) (-1)) as [He|He];
      cbn [negb fst snd].
    + destruct (Z.eqb_spec (find open_bracket text_content) (-1)); [done|].
      intros _. by apply find_char_lookup.
    + change (0 =? -1) with false. cbv iota. intros _. split; [lia|].
      apply find_char_lookup in He as [He0 He1].
      unfold slice_from. rewrite lookup_drop.
      by rewrite Nat.add_0_r.
  - cbn [fst snd].
    destruct (Z.eqb_spec (find open_bracket text_content) (-1)); [done|].
    intros _. by apply find_char_lookup.
Qed.

Lemma head_slice (s : str) (a b : Z) (c : N) :
  0 <= a < b -> s !! Z.to_nat a = Some c -> head (slice s a b) = Some c.
Proof.
  intros Hab Hc. unfold slice. rewrite head_lookup.
  rewrite lookup_take_lt by lia. by rewrite lookup_drop, Nat.add_0_r.
Qed.

Lemma head_truncated_json (json_str : str) (c : N) :
  0 <= rfind 125 json_str ->
  head json_str = Some c -> head (truncated_json json_str) = Some c.
Proof.
  destruct json_str as [|x r]; [discriminate|]. intros Hr [= ->].
  unfold truncated_json, slice_to.
  destruct (Z.to_nat (rfind 125 (c :: r) + 1)) as [|n] eqn:E; [lia|done].
Qed.

(** X10. Whatever [parse_anthropic_response] returns is a JSON array (a
    Python list): the text handed to [json.loads], and the repaired text
    too, start with the opening bracket that was located.  Nothing makes
    its items objects. *)
Theorem parse_anthropic_response_returns_array (text_content : str)
    (records : json) :
  extract text_content = Ok records -> exists items, records = JArr items.
Proof.
  unfold extract. rewrite parse_anthropic_response_cases. cbv zeta.
  destruct (Z.eqb_spec (json_start_of text_content) (-1)) as [Hs|Hs];
    [discriminate|].
  destruct (json_start_bracket text_content Hs) as [Hjs Hb].
  destruct (locate_end_spec (working_text text_content)
              (json_start_of text_content) Hjs) as [[He Hr]|[He Hr]].
  { rewrite He. discriminate. }
  replace (_ || _) with false by lia.
  set (json_str := sanitize _).
  assert (Hh : head json_str = Some 91%N).
  { apply sanitize_head, head_slice; [lia|exact Hb]. }
  unfold parse_json_str.
  destruct (loads json_str) as [v|e] eqn:Hl.
  { intros [= <-]. by eapply loads_array. }
  destruct (is_delimiter_error e); [|discriminate].
  destruct (Z.ltb_spec 0 (rfind 125 json_str)); [|discriminate].
  destruct (loads (truncated_json json_str)) as [v|e'] eqn:Hl';
    [|discriminate].
  intros [= <-]. eapply loads_array; [|exact Hl'].
  apply head_truncated_json; [lia|done].
Qed.

(** The theorem at the text [Here you go: [1, "two"]]: the list that is
    returned holds no object. *)
Lemma parse_anthropic_response_returns_array_witness :
  extract (py "Here you go: [1, 'two']") = Ok (JArr [JInt 1; JStr (lit "two")]) /\
  exists items, JArr [JInt 1; JStr (lit "two")] = JArr items.
Proof.
  assert (H : extract (py "Here you go: [1, 'two']")
              = Ok (JArr [JInt 1; JStr (lit "two")]))
    by (vm_compute; reflexivity).
  split; [exact H|].
  exact (parse_anthropic_response_returns_array _ _ H).
Defined.

(** *** Control characters *)

(** A character that sanitizing can leave: no control character, and
    no white space but the plain space. *)
Definition clean (c : N) : bool :=
  negb (is_control c) && (negb (isspace c) || (c =? 32)%N).

Definition printable (s : str) : Prop := Forall (fun c => (c <? 32)%N = false) s.

Lemma clean_printable (c : N) : clean c = true -> (c <? 32)%N = false.
Proof.
  intros H. destruct (N.ltb_spec c 32) as [Hlt|]; [|done]. exfalso.
  rewrite <- (N2Nat.id c) in H.
  assert (Hn : (N.to_nat c < 32)%nat) by lia. revert H Hn.
  generalize (N.to_nat c). intros n H Hn.
  do 32 (destruct n as [|n]; [by vm_compute in H|]). lia.
Qed.

Lemma collapse_spaces_clean (s : str) : forall in_run,
  Forall (fun c => is_control c = false) s ->
  Forall (fun c => clean c = true) (collapse_spaces in_run s).
Proof.
  induction s as [|c s IH]; intros in_run Hs; [constructor|].
  apply Forall_cons in Hs as [Hc Hs]. cbn [collapse_spaces].
  destruct (isspace c) eqn:Hsp.
  - destruct in_run; [by apply IH|].
    constructor; [reflexivity|by apply IH].
  - constructor; [|by apply IH]. unfold clean. by rewrite Hc, Hsp.
Qed.

Lemma drop_trailing_commas_sublist (s : str) :
  sublist (drop_trailing_commas s) s.
Proof.
  induction s as [|c s IH]; [constructor|]. cbn [drop_trailing_commas].
  destruct (_ && _); by constructor.
Qed.

Lemma Forall_sublist {A : Type} (P : A -> Prop) (l1 l2 : list A) :
  sublist l1 l2 -> Forall P l2 -> Forall P l1.
Proof.
  rewrite !Forall_forall. intros Hs H x Hx. apply H.
  by eapply elem_of_sublist.
Qed.

Lemma sanitize_clean (s : str) : Forall (fun c => clean c = true) (sanitize s).
Proof.
  unfold sanitize.
  eapply Forall_sublist; [apply drop_trailing_commas_sublist|].
  apply collapse_spaces_clean, Forall_fmap, Forall_true.
  intros c. simpl. destruct (is_control c) eqn:E; [reflexivity|exact E].
Qed.

Lemma printable_app (a b : str) : printable (a ++ b) -> printable b.
Proof. intros H. by apply Forall_app in H as [_ ?]. Qed.

Lemma printable_skip_ws (s : str) : printable s -> printable (skip_ws s).
Proof.
  intros H. destruct (skip_ws_consumes s) as (ws & Hs & _).
  rewrite Hs in H. by apply printable_app in H.
Qed.

Lemma printable_expect (c : N) (s r : str) :
  expect c s = Some r -> printable s -> printable r.
Proof.
  intros E H. apply expect_spec in E as ->. by apply Forall_cons in H as [_ ?].
Qed.

Lemma printable_consumes (P : str -> Prop) (s rest : str) :
  consumes P s rest -> printable s -> printable rest.
Proof. intros (w & -> & _). apply printable_app. Qed.

Ltac uncons :=
  repeat match goal with
         | H : printable (_ :: _) |- _ =>
             let Hc := fresh "Hc" in apply Forall_cons in H as [Hc H]
         | H : Forall _ (_ :: _) |- _ =>
             let Hc := fresh "Hc" in apply Forall_cons in H as [Hc H]
         end.

Lemma scanstring_printable (s acc : str) :
  printable s -> scanstring s acc <> Err InvalidControlCharacter.
Proof.
  remember (length s) as n eqn:Hn. assert (Hle : (length s <= n)%nat) by lia.
  clear Hn. revert s acc Hle.
  induction n as [|n IH]; intros s acc Hlen Hp.
  { destruct s; [done|simpl in Hlen; lia]. }
  destruct s as [|c r]; [done|]. cbn [scanstring].
  destruct (c =? 34)%N; [done|].
  destruct (c =? 92)%N.
  - destruct r as [|esc r1]; [done|].
    destruct (esc =? 117)%N.
    + destruct r1 as [|h1 [|h2 [|h3 [|h4 r2]]]]; try done.
      destruct (hex4 h1 h2 h3 h4) as [uni|]; [|done].
      uncons.
      assert (Hr2 : forall acc', scanstring r2 acc'
                                 <> Err InvalidControlCharacter).
      { intros acc'. apply IH; [simpl in *; lia|done]. }
      destruct ((55296 <=? uni)%N && (uni <=? 56319)%N); [|auto].
      destruct r2 as [|b [|u [|g1 [|g2 [|g3 [|g4 r3]]]]]]; auto.
      destruct ((b =? 92)%N && (u =? 117)%N); [|auto].
      destruct (hex4 g1 g2 g3 g4) as [uni2|]; [|done].
      destruct ((56320 <=? uni2)%N && (uni2 <=? 57343)%N); [|auto].
      uncons. apply IH; [simpl in *; lia|done].
    + destruct (backslash esc); [|done]. uncons.
      apply IH; [simpl in *; lia|done].
  - uncons. rewrite Hc. apply IH; [simpl in *; lia|done].
Qed.

Lemma parse_atom_printable (s : str) :
  parse_atom s <> Err InvalidControlCharacter.
Proof.
  unfold parse_atom.
  repeat match goal with
         | |- context [if ?b then _ else _] => destruct b; [done|]
         end.
  destruct (match_number s); [done|].
  repeat match goal with
         | |- context [if ?b then _ else _] => destruct b; [done|]
         end.
  done.
Qed.

(** A text without characters below U+0020 is never rejected for an
    invalid control character. *)
Lemma parse_printable (fuel : nat) :
  (forall s, printable s ->
     parse_value fuel s <> Err InvalidControlCharacter) /\
  (forall s values, printable s ->
     array_loop fuel s values <> Err InvalidControlCharacter) /\
  (forall s pairs, printable s ->
     object_loop fuel s pairs <> Err InvalidControlCharacter).
Proof.
  induction fuel as [|fuel (IHv & IHa & IHo)]; [by repeat split|].
  destruct (parse_consumes fuel) as (Cv & Ca & Co).
  split; [|split].
  - intros s Hp. cbn [parse_value].
    destruct s as [|c r]; [done|]. uncons.
    destruct (c =? 34)%N.
    { pose proof (scanstring_printable r [] Hp) as Hs.
      destruct (scanstring r []) as [[v' rest']|e]; [done|]. congruence. }
    destruct (c =? 123)%N.
    { destruct (expect 34 r) as [ks|] eqn:E1.
      { apply IHo. by eapply printable_expect. }
      destruct (expect 125 (skip_ws r)); [done|].
      destruct (expect 34 (skip_ws r)) as [ks|] eqn:E3; [|done].
      apply IHo. eapply printable_expect; [exact E3|].
      by apply printable_skip_ws. }
    destruct (c =? 91)%N; [|apply parse_atom_printable].
    destruct (expect 93 (skip_ws r)); [done|].
    apply IHa. by apply printable_skip_ws.
  - intros s values Hp. cbn [array_loop].
    pose proof (IHv s Hp) as Hv.
    destruct (parse_value fuel s) as [[value rest0]|e] eqn:Hpv; [|congruence].
    apply Cv in Hpv. apply printable_consumes in Hpv; [|done].
    destruct (expect 93 (skip_ws rest0)); [done|].
    destruct (expect 44 (skip_ws rest0)) as [rest1|] eqn:E2; [|done].
    apply IHa. apply printable_skip_ws.
    eapply printable_expect; [exact E2|]. by apply printable_skip_ws.
  - intros s pairs Hp. cbn [object_loop].
    pose proof (scanstring_printable s [] Hp) as Hs.
    destruct (scanstring s []) as [[key rest0]|e] eqn:Hk; [|congruence].
    apply scanstring_closes in Hk. apply printable_consumes in Hk; [|done].
    destruct (expect 58 (skip_ws rest0)) as [rest1|] eqn:E1; [|done].
    assert (Hp1 : printable (skip_ws rest1)).
    { apply printable_skip_ws. eapply printable_expect; [exact E1|].
      by apply printable_skip_ws. }
    pose proof (IHv _ Hp1) as Hv.
    destruct (parse_value fuel (skip_ws rest1)) as [[value rest2]|e] eqn:Hpv;
      [|congruence].
    apply Cv in Hpv. apply printable_consumes in Hpv; [|done].
    destruct (expect 125 (skip_ws rest2)); [done|].
    destruct (expect 44 (skip_ws rest2)) as [rest3|] eqn:E3; [|done].
    destruct (expect 34 (skip_ws rest3)) as [ks|] eqn:E4; [|done].
    apply IHo. eapply printable_expect; [exact E4|].
    apply printable_skip_ws. eapply printable_expect; [exact E3|].
    by apply printable_skip_ws.
Qed.

Lemma loads_printable (s : str) :
  printable s -> loads s <> Err InvalidControlCharacter.
Proof.
  intros Hp. unfold loads. destruct (startswith [65279%N] s); [done|].
  pose proof (proj1 (parse_printable (fuel_for (skip_ws s))) (skip_ws s)
                (printable_skip_ws s Hp)) as H.
  destruct (parse_value _ _) as [[obj rest]|e].
  - by destruct (skip_ws rest).
  - congruence.
Qed.

(** X11. The text handed to [json.loads] holds no control character
    and no white space but plain spaces: line breaks and tabs, also
    those inside string values, have become spaces.  So the function
    never fails with "Invalid control character". *)
Theorem sanitized_text_has_no_control_character :
  (forall json_str,
     Forall (fun c => clean c = true) (sanitize json_str)) /\
  (forall text_content snippet,
     extract text_content
     <> Err (FailedToParseJson InvalidControlCharacter snippet)).
Proof.
  split; [apply sanitize_clean|].
  intros text_content snip. unfold extract.
  rewrite parse_anthropic_response_cases. cbv zeta.
  destruct (_ =? -1); [discriminate|].
  destruct (_ || _); [discriminate|].
  set (json_str := sanitize _).
  assert (Hp : printable json_str).
  { eapply Forall_impl; [apply sanitize_clean|]. apply clean_printable. }
  pose proof (loads_printable json_str Hp) as Hl.
  unfold parse_json_str.
  destruct (loads json_str) as [v|e]; [discriminate|].
  match goal with |- context [match ?x with Some _ => _ | None => _ end] =>
    destruct x end; [discriminate|].
  congruence.
Qed.

End ExtractMore.

(** ** More facts about [str.strip] *)

Module TextMore.

Import Text TextFacts.
Local Open Scope Z_scope.

(** [bool(s)] for a string. *)
Definition nonempty (s : str) : bool :=
  match s with [] => false | _ :: _ => true end.

Lemma lstrip_idem (s : str) : lstrip (lstrip s) = lstrip s.
Proof.
  induction s as [|c s IH]; [reflexivity|]. simpl.
  destruct (isspace c) eqn:Hc; [exact IH|]. simpl. by rewrite Hc.
Qed.

Lemma rstrip_idem (s : str) : rstrip (rstrip s) = rstrip s.
Proof.
  induction s as [|c s IH]; [reflexivity|]. cbn [rstrip].
  destruct (rstrip s) as [|b r] eqn:Hr.
  - destruct (isspace c) eqn:Hc; [reflexivity|]. simpl. by rewrite Hc.
  - cbn [rstrip]. cbn [rstrip] in IH. by rewrite IH.
Qed.

(** A text that starts with no white space still does after [rstrip]. *)
Lemma lstrip_rstrip (t : str) : lstrip t = t -> lstrip (rstrip t) = rstrip t.
Proof.
  destruct t as [|c r]; [reflexivity|]. intros Ht.
  assert (Hc : isspace c = false).
  { destruct (isspace c) eqn:Hc; [|reflexivity]. exfalso.
    simpl in Ht. rewrite Hc in Ht.
    destruct (lstrip_suffix r) as [ws Hws]. rewrite Ht in Hws.
    apply (f_equal length) in Hws. rewrite length_app in Hws.
    simpl in Hws. lia. }
  cbn [rstrip]. rewrite Hc.
  destruct (rstrip r); by apply lstrip_nonspace.
Qed.

(** A text that [strip] leaves as it is. *)
Definition trimmed (s : str) : Prop := lstrip s = s /\ rstrip s = s.

Lemma strip_trimmed (s : str) : trimmed (strip s).
Proof.
  unfold strip. split; [apply lstrip_rstrip, lstrip_idem|apply rstrip_idem].
Qed.

Lemma trimmed_strip (s : str) : trimmed s -> strip s = s.
Proof. intros [Hl Hr]. unfold strip. by rewrite Hl, Hr. Qed.

Lemma strip_idem (s : str) : strip (strip s) = strip s.
Proof. apply trimmed_strip, strip_trimmed. Qed.

Lemma rstrip_app_fixed (p v : str) :
  rstrip v = v -> v <> [] -> rstrip (p ++ v) = p ++ v.
Proof.
  intros Hv Hne. induction p as [|a p IH]; [exact Hv|].
  cbn [app rstrip]. rewrite IH. by destruct (p ++ v) eqn:E;
    [apply app_eq_nil in E as [_ ?]|].
Qed.

(** A prefix that starts with no white space can be put before a
    trimmed text that is not empty. *)
Lemma trimmed_app (c : N) (p v : str) :
  isspace c = false -> trimmed v -> v <> [] -> trimmed ((c :: p) ++ v).
Proof.
  intros Hc [_ Hr] Hne. split.
  - by apply lstrip_nonspace.
  - by apply rstrip_app_fixed.
Qed.

End TextMore.

(** ** [utils/helpers.py]: [format_url], [format_phone_number] *)

Module Format.

Import Text TextFacts TextMore.
Local Open Scope Z_scope.

(** [[
def format_url(url: str) -> str:
    url = url.strip()
    if url and not url.startswith(("http://", "https://")):
        url = f"https://{url}"
    return url
]] *)
Definition format_url (url : str) : str :=
  let url := strip url in
  if nonempty url
     && negb (startswith (lit "http://") url
              || startswith (lit "https://") url)
  then lit "https://" ++ url
  else url.

(** The characters for which [str.isdigit] holds (Numeric_Type Digit or
    Decimal), as inclusive ranges of code points; Unicode 14.0, the
    database of CPython 3.11. *)
Definition digit_ranges : list (N * N) :=
  [(48, 57); (178, 179); (185, 185); (1632, 1641); (1776, 1785);
   (1984, 1993); (2406, 2415); (2534, 2543); (2662, 2671); (2790, 2799);
   (2918, 2927); (3046, 3055); (3174, 3183); (3302, 3311); (3430, 3439);
   (3558, 3567); (3664, 3673); (3792, 3801); (3872, 3881); (4160, 4169);
   (4240, 4249); (4969, 4977); (6112, 6121); (6160, 6169); (6470, 6479);
   (6608, 6618); (6784, 6793); (6800, 6809); (6992, 7001); (7088, 7097);
   (7232, 7241); (7248, 7257); (8304, 8304); (8308, 8313); (8320, 8329);
   (9312, 9320); (9332, 9340); (9352, 9360); (9450, 9450); (9461, 9469);
   (9471, 9471); (10102, 10110); (10112, 10120); (10122, 10130);
   (42528, 42537); (43216, 43225); (43264, 43273); (43472, 43481);
   (43504, 43513); (43600, 43609); (44016, 44025); (65296, 65305);
   (66720, 66729); (68160, 68163); (68912, 68921); (69216, 69224);
   (69714, 69722); (69734, 69743); (69872, 69881); (69942, 69951);
   (70096, 70105); (70384, 70393); (70736, 70745); (70864, 70873);
   (71248, 71257); (71360, 71369); (71472, 71481); (71904, 71913);
   (72016, 72025); (72784, 72793); (73040, 73049); (73120, 73129);
   (92768, 92777); (92864, 92873); (93008, 93017); (120782, 120831);
   (123200, 123209); (123632, 123641); (125264, 125273); (127232, 127242);
   (130032, 130041)]%N.
(** [c.isdigit()] *)
Definition isdigit (c : N) : bool :=
  existsb (fun r => (r.1 <=? c)%N && (c <=? r.2)%N) digit_ranges.

(** [[
def format_phone_number(phone: str | None) -> str:
    if not phone:
        return ""
    phone = str(phone)
    digits = "".join(filter(str.isdigit, phone))
    if len(digits) == 10:
        return f"({digits[:3]}) {digits[3:6]}-{digits[6:]}"
    elif len(digits) == 11 and digits[0] == "1":
        return f"({digits[1:4]}) {digits[4:7]}-{digits[7:]}"
    else:
        return phone
]] *)
Definition format_phone_number (phone : option str) : str :=
  match phone with
  | None => []
  | Some phone =>
      if negb (nonempty phone) then []
      else
        let digits := List.filter isdigit phone in
        if len digits =? 10 then
          lit "(" ++ slice_to digits 3 ++ lit ") " ++ slice digits 3 6
          ++ lit "-" ++ slice_from digits 6
        else if (len digits =? 11)
                && bool_decide (head digits = Some 49%N) then
          lit "(" ++ slice digits 1 4 ++ lit ") " ++ slice digits 4 7
          ++ lit "-" ++ slice_from digits 7
        else phone
  end.

Example format_examples :
  format_url (py "  example.com/a b \n") = lit "https://example.com/a b" /\
  format_url (lit "http://x") = lit "http://x" /\
  format_url (lit "HTTP://x") = lit "https://HTTP://x" /\
  format_url (py " \t") = [] /\
  format_phone_number (Some (lit "555.123.4567")) = lit "(555) 123-4567" /\
  format_phone_number (Some (lit "+1 555 123 4567")) = lit "(555) 123-4567" /\
  format_phone_number (Some (lit "123-4567")) = lit "123-4567" /\
  format_phone_number None = [].
Proof. repeat split; vm_compute; reflexivity. Qed.

(** *** Facts *)

(** X12. [format_url] is idempotent, and its result is empty (exactly
    when the url is blank) or starts with [http://] or [https://]. *)
Theorem format_url_idempotent (url : str) :
  format_url (format_url url) = format_url url /\
  (format_url url = []
   \/ startswith (lit "http://") (format_url url) = true
   \/ startswith (lit "https://") (format_url url) = true) /\
  (format_url url = [] <-> strip url = []).
Proof.
  pose proof (strip_trimmed url) as Ht.
  assert (Hr : format_url url =
               if nonempty (strip url)
                  && negb (startswith (lit "http://") (strip url)
                           || startswith (lit "https://") (strip url))
               then lit "https://" ++ strip url else strip url)
    by reflexivity.
  assert (Hfix : forall v, trimmed v ->
            (startswith (lit "http://") v || startswith (lit "https://") v)
            = true -> format_url v = v).
  { intros v Hv Hsw. unfold format_url. rewrite (trimmed_strip _ Hv), Hsw.
    by rewrite andb_false_r. }
  destruct (strip url) as [|c v] eqn:Hs.
  - rewrite Hr. cbn [nonempty andb]. repeat split; auto.
  - cbn [nonempty andb] in Hr.
    destruct (startswith (lit "http://") (c :: v)
              || startswith (lit "https://") (c :: v)) eqn:Hsw;
      cbn [negb] in Hr; rewrite Hr.
    + split; [by apply Hfix|]. split; [|split; discriminate].
      right. by apply orb_true_iff in Hsw.
    + assert (Hp : trimmed (lit "https://" ++ c :: v)).
      { change (lit "https://") with (104%N :: lit "ttps://").
        by apply trimmed_app. }
      assert (Hsw' : startswith (lit "https://") (lit "https://" ++ c :: v)
                     = true) by apply startswith_app.
      split; [|split; [auto|split; discriminate]].
      apply Hfix; [exact Hp|]. by rewrite Hsw', orb_true_r.
Qed.

Lemma filter_all {A : Type} (f : A -> bool) (l : list A) :
  List.filter f (List.filter f l) = List.filter f l.
Proof.
  induction l as [|x l IH]; [reflexivity|]. simpl.
  destruct (f x) eqn:E; [|exact IH]. simpl. by rewrite E, IH.
Qed.

Lemma filter_take {A : Type} (f : A -> bool) (l : list A) (n : nat) :
  List.filter f l = l -> List.filter f (take n l) = take n l.
Proof.
  revert n. induction l as [|x l IH]; intros [|n] H; try reflexivity.
  simpl in *. destruct (f x) eqn:E.
  - injection H as H. by rewrite IH.
  - exfalso. pose proof (List.filter_length_le f l) as Hl.
    rewrite H in Hl. simpl in Hl. lia.
Qed.

Lemma filter_drop {A : Type} (f : A -> bool) (l : list A) (n : nat) :
  List.filter f l = l -> List.filter f (drop n l) = drop n l.
Proof.
  revert n. induction l as [|x l IH]; intros [|n] H; try reflexivity;
    [exact H|].
  simpl in *. destruct (f x) eqn:E.
  - injection H as H. by apply IH.
  - exfalso. pose proof (List.filter_length_le f l) as Hl.
    rewrite H in Hl. simpl in Hl. lia.
Qed.

(** The pattern [(ddd) ddd-dddd] around ten digits. *)
Definition us_format (d : str) : str :=
  lit "(" ++ take 3 d ++ lit ") " ++ take 3 (drop 3 d) ++ lit "-" ++ drop 6 d.

Lemma us_format_digits (d : str) :
  List.filter isdigit d = d -> List.filter isdigit (us_format d) = d.
Proof.
  intros Hd. unfold us_format. rewrite !List.filter_app.
  change (List.filter isdigit (lit "(")) with (@nil N).
  change (List.filter isdigit (lit ") ")) with (@nil N).
  change (List.filter isdigit (lit "-")) with (@nil N).
  rewrite filter_take, filter_take, filter_drop; try done;
    [|by apply filter_drop].
  cbn [app]. change 6%nat with (3 + 3)%nat. rewrite <- drop_drop.
  by rewrite (take_drop 3 (drop 3 d)), take_drop.
Qed.

Lemma us_format_length (d : str) : len d = 10 -> len (us_format d) = 14.
Proof.
  unfold len, us_format. intros H.
  rewrite !length_app, !length_take, !length_drop.
  change (length (lit "(")) with 1%nat. change (length (lit ") ")) with 2%nat.
  change (length (lit "-")) with 1%nat. lia.
Qed.

Lemma format_phone_number_cases (phone : str) :
  let digits := List.filter isdigit phone in
  format_phone_number (Some phone) =
  if negb (nonempty phone) then []
  else if len digits =? 10 then us_format digits
  else if (len digits =? 11) && bool_decide (head digits = Some 49%N)
       then us_format (drop 1 digits)
  else phone.
Proof.
  cbv zeta. unfold format_phone_number, us_format, slice, slice_to, slice_from.
  change (Z.to_nat 3) with 3%nat. change (Z.to_nat 6) with 6%nat.
  change (Z.to_nat 1) with 1%nat. change (Z.to_nat 4) with 4%nat.
  change (Z.to_nat 7) with 7%nat.
  change (6 - 3)%nat with 3%nat. change (4 - 1)%nat with 3%nat.
  change (7 - 4)%nat with 3%nat.
  by rewrite !drop_drop.
Qed.

(** X13. [format_phone_number] is idempotent.  A number with ten
    digits, or with eleven of which the first is 1, becomes the fourteen
    characters [(ddd) ddd-dddd] that hold its last ten digits in order;
    any other text is returned as it is. *)
Theorem format_phone_number_idempotent (phone : option str) :
  let digits := List.filter isdigit (default [] phone) in
  let formatted := format_phone_number phone in
  format_phone_number (Some formatted) = formatted /\
  (len digits = 10 ->
   List.filter isdigit formatted = digits /\ len formatted = 14) /\
  (len digits = 11 -> head digits = Some 49%N ->
   List.filter isdigit formatted = drop 1 digits /\ len formatted = 14) /\
  (len digits <> 10 -> ~ (len digits = 11 /\ head digits = Some 49%N) ->
   formatted = default [] phone).
Proof.
  cbv zeta. destruct phone as [phone|].
  2:{ cbn [format_phone_number]. split; [reflexivity|]. by repeat split. }
  change (default [] (Some phone)) with phone.
  rewrite (format_phone_number_cases phone). cbv zeta.
  set (digits := List.filter isdigit phone).
  assert (Hd : List.filter isdigit digits = digits) by apply filter_all.
  destruct (nonempty phone) eqn:Hne; cbn [negb].
  2:{ destruct phone; [|discriminate]. split; [reflexivity|].
      by repeat split. }
  assert (Hus : forall d, List.filter isdigit d = d -> len d = 10 ->
            format_phone_number (Some (us_format d)) = us_format d).
  { intros d Hfd Hlen. rewrite format_phone_number_cases. cbv zeta.
    rewrite (us_format_digits d Hfd), Hlen. cbn [Z.eqb Pos.eqb].
    by unfold us_format. }
  assert (Hsame : forall a b : bool, a = false -> b = false ->
            (if negb (nonempty phone) then []
             else if a then us_format digits
             else if b then us_format (drop 1 digits) else phone) = phone).
  { intros a' b' H1 H2. by rewrite Hne, H1, H2. }
  destruct (Z.eqb_spec (len digits) 10) as [H10|H10].
  { split; [by apply Hus|]. split; [|split]; intros; try lia.
    split; [by apply us_format_digits|by apply us_format_length]. }
  destruct (Z.eqb_spec (len digits) 11) as [H11|H11]; cbn [andb].
  - destruct (bool_decide_reflect (head digits = Some 49%N)) as [Hh|Hh].
    + assert (Hd1 : List.filter isdigit (drop 1 digits) = drop 1 digits)
        by (by apply filter_drop).
      assert (Hl1 : len (drop 1 digits) = 10).
      { unfold len in *. rewrite length_drop. lia. }
      split; [by apply Hus|]. split; [|split]; intros; try lia.
      * split; [by apply us_format_digits|by apply us_format_length].
      * tauto.
    + split.
      { rewrite format_phone_number_cases. cbv zeta. fold digits.
        apply Hsame; [by apply Z.eqb_neq|].
        rewrite bool_decide_false by done. apply andb_false_r. }
      split; [|split]; intros; try lia; try done.
  - split.
    { rewrite format_phone_number_cases. cbv zeta. fold digits.
      apply Hsame; [by apply Z.eqb_neq|].
      by rewrite (proj2 (Z.eqb_neq _ _) H11). }
    split; [|split]; intros; try lia; try done.
Qed.

End Format.

(** ** [utils/helpers.py]: [get_min_entity_date], [resolve_user_id] *)

Module Helpers.

Local Open Scope Z_scope.

(** A user record, as far as these functions read it: the values under
    ["userID"] and ["email"], [None] when the key is missing. *)
Record user : Type := mk_user {
  userID : option Z;
  email : option (list N)
}.

(** [entity_date > min_entity_date]; the test is made only once a date
    has been stored. *)
Definition later_than (entity_date : Z) (min_entity_date : option Z) : bool :=
  match min_entity_date with
  | Some m => m <? entity_date
  | None => false
  end.

(** [[
min_entity_date = None
found_any = False
for entity_id in entity_ids:
    if entity_id and entity_id in entity_dates:
        entity_date = entity_dates[entity_id]
        if not found_any or entity_date > min_entity_date:
            min_entity_date = entity_date
            found_any = True
]] *)
Fixpoint scan_entity_ids (entity_dates : gmap Z Z)
    (entity_ids : list (option Z)) (min_entity_date : option Z)
    (found_any : bool) : option Z * bool :=
  match entity_ids with
  | [] => (min_entity_date, found_any)
  | entity_id :: rest =>
      match entity_id with
      | Some id =>
          if negb (id =? 0) then
            match entity_dates !! id with
            | Some entity_date =>
                if negb found_any || later_than entity_date min_entity_date
                then scan_entity_ids entity_dates rest (Some entity_date) true
                else scan_entity_ids entity_dates rest min_entity_date
                                     found_any
            | None =>
                scan_entity_ids entity_dates rest min_entity_date found_any
            end
          else scan_entity_ids entity_dates rest min_entity_date found_any
      | None => scan_entity_ids entity_dates rest min_entity_date found_any
      end
  end.

(** [get_min_entity_date(entity_dates, *entity_ids)]; [now] is the value
    of [datetime.now()] in the fallback. *)
Definition get_min_entity_date (now : Z) (entity_dates : gmap Z Z)
    (entity_ids : list (option Z)) : option Z :=
  let '(min_entity_date, found_any) :=
    scan_entity_ids entity_dates entity_ids None false in
  if negb found_any then Some (now - DT.days 365) else min_entity_date.

(** The [ValueError]s of [resolve_user_id]. *)
Inductive resolve_error : Type :=
  | FalsyUserId                       (* "gen_user_id is None or falsy" *)
  | UserIdNotFound (gen_user_id : Z). (* "not found in mapping or user list" *)

(** [[
for user in all_users:
    if user.get("userID") == gen_user_id:
        return gen_user_id
raise ValueError(...)
]] *)
Fixpoint search_users (gen_user_id : Z) (all_users : list user)
    : result Z resolve_error :=
  match all_users with
  | [] => Err (UserIdNotFound gen_user_id)
  | user :: rest =>
      if bool_decide (userID user = Some gen_user_id) then Ok gen_user_id
      else search_users gen_user_id rest
  end.

(** [[
def resolve_user_id(gen_user_id, generated_to_actual_user_id, all_users):
    if not gen_user_id:
        raise ValueError(...)
    actual_user_id = generated_to_actual_user_id.get(gen_user_id)
    if actual_user_id:
        return actual_user_id
    ...
]] *)
Definition resolve_user_id (gen_user_id : option Z)
    (generated_to_actual_user_id : gmap Z Z) (all_users : list user)
    : result Z resolve_error :=
  match gen_user_id with
  | None => Err FalsyUserId
  | Some g =>
      if g =? 0 then Err FalsyUserId
      else
        match generated_to_actual_user_id !! g with
        | Some actual_user_id =>
            if negb (actual_user_id =? 0) then Ok actual_user_id
            else search_users g all_users
        | None => search_users g all_users
        end
  end.

(** *** Facts *)

(** The dates of the identifiers that are given, not zero, and keys of
    [entity_dates], in the order of the call. *)
Definition found_dates (entity_dates : gmap Z Z)
    (entity_ids : list (option Z)) : list Z :=
  omap (fun entity_id =>
          match entity_id with
          | Some id => if id =? 0 then None else entity_dates !! id
          | None => None
          end) entity_ids.

Lemma scan_entity_ids_latest (entity_dates : gmap Z Z)
    (entity_ids : list (option Z)) : forall min_entity_date found_any,
  (found_any = true -> is_Some min_entity_date) ->
  let seen := (if found_any then option_list min_entity_date else [])
              ++ found_dates entity_dates entity_ids in
  match scan_entity_ids entity_dates entity_ids min_entity_date found_any with
  | (m, true) =>
      exists d, m = Some d /\ d ∈ seen /\ Forall (fun x => x <= d) seen
  | (_, false) => seen = []
  end.
Proof.
  induction entity_ids as [|entity_id rest IH]; intros m found Hm; cbv zeta.
  - cbn [scan_entity_ids found_dates omap list_omap]. rewrite app_nil_r.
    destruct found; [|reflexivity].
    destruct (Hm eq_refl) as [d ->]. exists d. cbn [option_list].
    split; [done|]. split; [by left|]. by repeat constructor.
  - cbn [scan_entity_ids found_dates omap list_omap].
    fold (found_dates entity_dates rest).
    destruct entity_id as [id|]; [|by apply IH].
    destruct (id =? 0); cbn [negb]; [by apply IH|].
    destruct (entity_dates !! id) as [entity_date|]; [|by apply IH].
    destruct found; cbn [negb orb].
    + destruct (Hm eq_refl) as [d ->]. cbn [later_than option_list app].
      destruct (Z.ltb_spec d entity_date) as [Hlt|Hge].
      * specialize (IH (Some entity_date) true ltac:(eauto)).
        cbv zeta in IH. cbn [option_list app] in IH.
        destruct (scan_entity_ids _ _ _ _) as [m' [|]]; [|done].
        destruct IH as (d' & -> & Hin & Hall). exists d'.
        apply Forall_cons in Hall as [Hle Hall].
        split; [done|]. split.
        -- apply elem_of_cons in Hin as [->|Hin];
             [right; by left|by do 2 right].
        -- repeat constructor; [lia|lia|done].
      * specialize (IH (Some d) true ltac:(eauto)).
        cbv zeta in IH. cbn [option_list app] in IH.
        destruct (scan_entity_ids _ _ _ _) as [m' [|]]; [|done].
        destruct IH as (d' & -> & Hin & Hall). exists d'.
        apply Forall_cons in Hall as [Hle Hall].
        split; [done|]. split.
        -- apply elem_of_cons in Hin as [->|Hin];
             [by left|by do 2 right].
        -- repeat constructor; [lia|lia|done].
    + specialize (IH (Some entity_date) true ltac:(eauto)).
      cbv zeta in IH. cbn [option_list app] in IH. cbn [app].
      by destruct (scan_entity_ids _ _ _ _) as [m' [|]].
Qed.

(** X14. [get_min_entity_date] returns the latest, not the earliest, of
    the dates that [entity_dates] holds for the identifiers given (an
    identifier that is [None], zero or unknown is passed over); when it
    finds none it returns the day 365 days before now.  It never returns
    [None]. *)
Theorem get_min_entity_date_latest (now : Z) (entity_dates : gmap Z Z)
    (entity_ids : list (option Z)) :
  let dates := found_dates entity_dates entity_ids in
  match dates with
  | [] =>
      get_min_entity_date now entity_dates entity_ids
      = Some (now - DT.days 365)
  | _ :: _ =>
      exists d, get_min_entity_date now entity_dates entity_ids = Some d /\
                d ∈ dates /\ Forall (fun x => x <= d) dates
  end.
Proof.
  cbv zeta. unfold get_min_entity_date.
  pose proof (scan_entity_ids_latest entity_dates entity_ids None false
                ltac:(discriminate)) as H.
  cbv zeta in H. cbn [app] in H.
  destruct (scan_entity_ids _ _ _ _) as [m [|]].
  - destruct H as (d & -> & Hin & Hall). cbn [negb].
    destruct (found_dates entity_dates entity_ids) as [|x l];
      [by apply elem_of_nil in Hin|]. eauto.
  - by rewrite H.
Qed.

Lemma search_users_spec (gen_user_id : Z) (all_users : list user) :
  search_users gen_user_id all_users =
  if bool_decide (Some gen_user_id ∈ map userID all_users)
  then Ok gen_user_id else Err (UserIdNotFound gen_user_id).
Proof.
  induction all_users as [|user rest IH]; [reflexivity|].
  cbn [search_users map].
  destruct (bool_decide_reflect (userID user = Some gen_user_id)) as [He|Hne].
  - rewrite bool_decide_true; [done|]. rewrite He. by left.
  - rewrite IH.
    destruct (bool_decide_reflect (Some gen_user_id ∈ map userID rest)).
    + rewrite bool_decide_true; [done|]. by right.
    + rewrite bool_decide_false; [done|].
      intros [H|H]%elem_of_cons; [by apply Hne|done].
Qed.

(** X15. The identifier that [resolve_user_id] returns is never zero.
    It is the mapped identifier whenever the mapping holds one that is
    not zero; the user list is read only otherwise, and then the
    generated identifier itself is returned if a user carries it.  The
    function raises exactly when the generated identifier is [None] or
    zero, or neither source knows it. *)
Theorem resolve_user_id_spec (gen_user_id : option Z)
    (generated_to_actual_user_id : gmap Z Z) (all_users : list user) :
  let r := resolve_user_id gen_user_id generated_to_actual_user_id
             all_users in
  (forall id, r = Ok id ->
     id <> 0 /\
     exists g, gen_user_id = Some g /\ g <> 0 /\
       (generated_to_actual_user_id !! g = Some id \/
        id = g /\ Some g ∈ map userID all_users /\
        (generated_to_actual_user_id !! g = None \/
         generated_to_actual_user_id !! g = Some 0))) /\
  (forall g a, gen_user_id = Some g -> g <> 0 ->
     generated_to_actual_user_id !! g = Some a -> a <> 0 -> r = Ok a) /\
  (is_ok r = false <->
   gen_user_id = None \/ gen_user_id = Some 0 \/
   exists g, gen_user_id = Some g /\
     (generated_to_actual_user_id !! g = None \/
      generated_to_actual_user_id !! g = Some 0) /\
     Some g ∉ map userID all_users).
Proof.
  cbv zeta. unfold resolve_user_id.
  destruct gen_user_id as [g|].
  2:{ split; [discriminate|]. split; [discriminate|]. cbn [is_ok].
      split; auto. }
  destruct (Z.eqb_spec g 0) as [->|Hg].
  { split; [discriminate|]. split; [by intros g a [= <-]|]. cbn [is_ok].
    split; auto. }
  rewrite search_users_spec.
  assert (Hmap : forall g' a', Some g = Some g' ->
            generated_to_actual_user_id !! g' = Some a' ->
            generated_to_actual_user_id !! g = Some a').
  { by intros g' a' [= <-]. }
  destruct (generated_to_actual_user_id !! g) as [a|] eqn:Hm.
  - destruct (Z.eqb_spec a 0) as [->|Ha]; cbn [negb].
    + destruct (bool_decide_reflect (Some g ∈ map userID all_users))
        as [Hin|Hout]; cbn [is_ok].
      * split; [|split].
        -- intros id [= <-]. split; [done|]. exists g. eauto 10.
        -- intros g' a' Hg' _ H Hne. apply (Hmap _ _ Hg') in H. congruence.
        -- split; [discriminate|].
           intros [H|[[= H]|(g' & [= <-] & _ & H)]]; done || congruence.
      * split; [discriminate|]. split.
        -- intros g' a' Hg' _ H Hne. apply (Hmap _ _ Hg') in H. congruence.
        -- split; [|done]. intros _. right. right. exists g. eauto.
    + cbn [is_ok]. split; [|split].
      * intros id [= <-]. split; [done|]. exists g. eauto.
      * intros g' a' Hg' _ H Hne. apply (Hmap _ _ Hg') in H. congruence.
      * split; [discriminate|].
        intros [H|[[= H]|(g' & [= <-] & [H|H] & _)]]; congruence.
  - destruct (bool_decide_reflect (Some g ∈ map userID all_users))
      as [Hin|Hout]; cbn [is_ok].
    + split; [|split].
      * intros id [= <-]. split; [done|]. exists g. eauto 10.
      * intros g' a' Hg' _ H Hne. apply (Hmap _ _ Hg') in H. congruence.
      * split; [discriminate|].
        intros [H|[[= H]|(g' & [= <-] & _ & H)]]; done || congruence.
    + split; [discriminate|]. split.
      * intros g' a' Hg' _ H Hne. apply (Hmap _ _ Hg') in H. congruence.
      * split; [|done]. intros _. right. right. exists g. eauto.
Qed.

End Helpers.

(** ** [utils/data_utils.py]: users and owners *)

Module Owners.

Import Text TextMore Helpers.
Local Open Scope Z_scope.

(** [[
def load_user_ids_and_emails(users_data=None):
    if users_data:
        user_emails = [user.get("email", "") for user in users_data
                       if user.get("email") and "@" in user.get("email", "")]
        user_ids = list(range(1, len(users_data) + 1))
        if not user_emails:
            user_emails = [settings.APP_ADMIN_EMAIL]
        return user_ids, user_emails
    return [1], [settings.APP_ADMIN_EMAIL]
]]
    [admin_email] is [settings.APP_ADMIN_EMAIL]. *)
Definition usable_email (user : user) : option (list N) :=
  match email user with
  | Some e => if nonempty e && bool_decide (64%N ∈ e) then Some e else None
  | None => None
  end.

Definition load_user_ids_and_emails (admin_email : str)
    (users_data : option (list user)) : list Z * list (list N) :=
  match users_data with
  | Some ((_ :: _) as users_data) =>
      let user_emails := omap usable_email users_data in
      let user_ids := seqZ 1 (Z.of_nat (length users_data)) in
      (user_ids,
       match user_emails with [] => [admin_email] | _ :: _ => user_emails end)
  | _ => ([1], [admin_email])
  end.

(** One [UPDATE table SET owner_column = %s WHERE id_column = %s]. *)
Record owner_update : Type := mk_owner_update {
  owner_column : str;
  owner_id : Z;
  owned_id : option Z
}.

(** [idx % len(user_ids)] with an empty [user_ids]. *)
Inductive owners_error : Type :=
  | ZeroDivisionError.

(** [[
available_users = [u for u in all_users if u.get("userID") != 1] or all_users
user_ids = [u.get("userID") for u in available_users if u.get("userID")]
]] *)
Definition available_users (all_users : list user) : list user :=
  match List.filter (fun u => negb (bool_decide (userID u = Some 1)))
                    all_users with
  | [] => all_users
  | l => l
  end.

Definition truthy_id (u : user) : option Z :=
  match userID u with
  | Some id => if id =? 0 then None else Some id
  | None => None
  end.

Definition user_ids (all_users : list user) : list Z :=
  omap truthy_id (available_users all_users).

Definition api_supported_tables : list str := [lit "example_entity_table"].

(** The loop of lines 352-365, from index [idx] on, with [user_ids] not
    empty: every seeded record gets an update, also one without an
    identifier. *)
Fixpoint owner_loop (user_ids : list Z) (owner_column : str) (idx : nat)
    (seeded_items : list Backfill.seeded_item) : list owner_update :=
  match seeded_items with
  | [] => []
  | seeded :: rest =>
      let app_id := Backfill.app_id seeded in
      let owner_id :=
        default 0 (user_ids !! (idx mod length user_ids)%nat) in
      mk_owner_update owner_column owner_id app_id
      :: owner_loop user_ids owner_column (S idx) rest
  end.

(** [update_entity_owners]: the updates executed.  For a table of
    [api_supported_tables] the loop of lines 323-333 computes an owner
    for every record with an identifier and executes nothing. *)
Definition update_entity_owners (all_users : list user) (table_name : str)
    (seeded_items : list Backfill.seeded_item)
    : result (list owner_update) owners_error :=
  let user_ids := user_ids all_users in
  if bool_decide (table_name ∈ api_supported_tables) then
    match omap Backfill.app_id seeded_items, user_ids with
    | _ :: _, [] => Err ZeroDivisionError
    | _, _ => Ok []
    end
  else
    let owner_column :=
      if bool_decide (table_name = lit "saved_list") then lit "created_by"
      else lit "owner" in
    match seeded_items, user_ids with
    | _ :: _, [] => Err ZeroDivisionError
    | _, _ => Ok (owner_loop user_ids owner_column 0 seeded_items)
    end.

(** *** Facts *)

(** X16. [load_user_ids_and_emails] never returns an empty list of
    identifiers or of emails.  The identifiers are the positions 1..n of
    the users, not their own identifiers; the emails are those of the
    users that hold an [@], or the administrator's alone, so there are
    at most as many emails as identifiers. *)
Theorem load_user_ids_and_emails_nonempty (admin_email : str)
    (users_data : option (list user)) :
  let r := load_user_ids_and_emails admin_email users_data in
  let n := Z.of_nat (length (default [] users_data)) in
  r.1 = seqZ 1 (Z.max 1 n) /\ r.1 <> [] /\ r.2 <> [] /\
  (length r.2 <= length r.1)%nat /\
  Forall (fun e => e = admin_email \/ 64%N ∈ e) r.2.
Proof.
  cbv zeta. unfold load_user_ids_and_emails.
  destruct users_data as [[|u users]|]; cbn [default from_option id fst snd];
    try (repeat split; try discriminate; try (simpl; lia);
         by repeat constructor).
  set (us := u :: users).
  assert (Hlen : 1 <= Z.of_nat (length us)) by (simpl; lia).
  rewrite Z.max_r by lia.
  assert (Hemails : Forall (fun e => e = admin_email \/ 64%N ∈ e)
                      (omap usable_email us)).
  { apply Forall_forall. intros e He. right.
    apply list_elem_of_omap in He as (x & _ & Hx).
    unfold usable_email in Hx. destruct (email x) as [e'|]; [|discriminate].
    destruct (nonempty e'); [|discriminate]. cbn [andb] in Hx.
    destruct (bool_decide_reflect (64%N ∈ e')); [|discriminate].
    by injection Hx as <-. }
  assert (Hle : (length (omap usable_email us) <= length us)%nat).
  { generalize us. intros l. induction l as [|x l IH]; [done|].
    cbn [omap list_omap]. destruct (usable_email x); simpl; lia. }
  split; [reflexivity|]. split.
  { intros H. apply (f_equal length) in H. rewrite length_seqZ in H.
    simpl in H. lia. }
  rewrite length_seqZ.
  destruct (omap usable_email us) as [|e es].
  - split; [discriminate|]. split; [simpl; lia|]. by repeat constructor.
  - split; [discriminate|]. split; [lia|done].
Qed.

Lemma available_users_not_admin (all_users : list user) :
  (exists u, u ∈ all_users /\ userID u <> Some 1) ->
  Forall (fun u => userID u <> Some 1) (available_users all_users).
Proof.
  intros (u & Hu & Hne). unfold available_users.
  set (l := List.filter _ all_users).
  assert (Hl : Forall (fun u => userID u <> Some 1) l).
  { apply Forall_forall. intros x Hx. apply list_elem_of_In in Hx.
    apply List.filter_In in Hx as [_ Hx].
    by destruct (bool_decide_reflect (userID x = Some 1)). }
  assert (Hin : u ∈ l).
  { apply list_elem_of_In, List.filter_In. split; [by apply list_elem_of_In|].
    by rewrite bool_decide_false. }
  destruct l; [by apply elem_of_nil in Hin|done].
Qed.

Lemma available_users_sub (all_users : list user) (u : user) :
  u ∈ available_users all_users -> u ∈ all_users.
Proof.
  unfold available_users.
  destruct (List.filter _ all_users) as [|x l] eqn:E; [done|].
  rewrite <- E. intros H. apply list_elem_of_In in H.
  apply List.filter_In in H as [H _]. by apply list_elem_of_In.
Qed.

Lemma user_ids_spec (all_users : list user) (id : Z) :
  id ∈ user_ids all_users ->
  id <> 0 /\ Some id ∈ map userID all_users /\
  ((exists u, u ∈ all_users /\ userID u <> Some 1) -> id <> 1).
Proof.
  unfold user_ids. intros H.
  apply list_elem_of_omap in H as (u & Hu & Hid).
  unfold truthy_id in Hid. destruct (userID u) as [i|] eqn:Hi; [|done].
  destruct (Z.eqb_spec i 0); [done|]. injection Hid as ->.
  split; [done|]. split.
  - apply list_elem_of_In, in_map_iff. exists u.
    split; [done|]. by apply list_elem_of_In, available_users_sub.
  - intros Hex. apply available_users_not_admin in Hex.
    rewrite Forall_forall in Hex. specialize (Hex u Hu). congruence.
Qed.

Lemma owner_loop_spec (ids : list Z) (col : str)
    (seeded_items : list Backfill.seeded_item) : forall idx,
  ids <> [] ->
  length (owner_loop ids col idx seeded_items) = length seeded_items /\
  map owned_id (owner_loop ids col idx seeded_items)
  = map Backfill.app_id seeded_items /\
  Forall (fun u => owner_id u ∈ ids /\ owner_column u = col)
         (owner_loop ids col idx seeded_items).
Proof.
  induction seeded_items as [|seeded rest IH]; intros idx Hne;
    [by repeat split|].
  cbn [owner_loop length map]. destruct (IH (S idx) Hne) as (H1 & H2 & H3).
  split; [by rewrite H1|]. split; [by rewrite H2|].
  constructor; [|exact H3]. cbn [owner_id owner_column]. split; [|done].
  assert (Hlt : (idx mod length ids < length ids)%nat).
  { apply Nat.mod_upper_bound. by destruct ids. }
  destruct (lookup_lt_is_Some_2 _ _ Hlt) as [x Hx]. rewrite Hx.
  by eapply list_elem_of_lookup_2.
Qed.

(** X17. For a table updated through the database, [update_entity_owners]
    executes one update for every seeded record, also for one without an
    identifier, in the order of the batch.  Every owner it assigns is a
    user identifier of [all_users] that is not zero, and it is not the
    administrator (identifier 1) as soon as one user has another
    identifier.  When no user has a usable identifier (and there is a
    record) the function raises [ZeroDivisionError] before any update. *)
Theorem update_entity_owners_assigns_users (all_users : list user)
    (table_name : str) (seeded_items : list Backfill.seeded_item) :
  table_name ∉ api_supported_tables ->
  match update_entity_owners all_users table_name seeded_items with
  | Ok updates =>
      map owned_id updates = map Backfill.app_id seeded_items /\
      Forall (fun u =>
                owner_id u <> 0 /\ Some (owner_id u) ∈ map userID all_users /\
                ((exists v, v ∈ all_users /\ userID v <> Some 1) ->
                 owner_id u <> 1) /\
                owner_column u = (if bool_decide (table_name = lit "saved_list")
                                  then lit "created_by" else lit "owner"))
             updates
  | Err ZeroDivisionError =>
      user_ids all_users = [] /\ seeded_items <> []
  end.
Proof.
  intros Htable. unfold update_entity_owners.
  rewrite bool_decide_false by done.
  destruct (user_ids all_users) as [|i ids] eqn:Hids.
  - destruct seeded_items; [by repeat split|]. by split.
  - set (col := if bool_decide _ then _ else _).
    assert (Hok : (match seeded_items with
                   | [] | _ => Ok (owner_loop (i :: ids) col 0 seeded_items)
                   end : result (list owner_update) owners_error)
                  = Ok (owner_loop (i :: ids) col 0 seeded_items))
      by (by destruct seeded_items).
    rewrite Hok.
    destruct (owner_loop_spec (i :: ids) col seeded_items 0%nat ltac:(done))
      as (_ & H2 & H3).
    split; [exact H2|].
    eapply Forall_impl; [exact H3|]. intros u [Hu ->].
    rewrite <- Hids in Hu. apply user_ids_spec in Hu as (? & ? & ?).
    by repeat split.
Qed.

(** The theorem with an administrator and users 7 and 9, for three
    records of [entity_table]: the owners are 7, 9, 7. *)
Lemma update_entity_owners_assigns_users_witness :
  let users := [mk_user (Some 1) None; mk_user (Some 7) None;
                mk_user (Some 9) None] in
  let items := [Backfill.mk_seeded (Some 11) None;
                Backfill.mk_seeded None None;
                Backfill.mk_seeded (Some 13) None] in
  match update_entity_owners users (lit "entity_table") items with
  | Ok updates =>
      map owner_id updates = [7; 9; 7] /\
      map owned_id updates = map Backfill.app_id items
  | Err _ => False
  end.
Proof.
  cbv zeta.
  pose proof (update_entity_owners_assigns_users
                [mk_user (Some 1) None; mk_user (Some 7) None;
                 mk_user (Some 9) None]
                (lit "entity_table")
                [Backfill.mk_seeded (Some 11) None;
                 Backfill.mk_seeded None None;
                 Backfill.mk_seeded (Some 13) None]) as H.
  assert (Ht : lit "entity_table" ∉ api_supported_tables).
  { intros Hin. apply (bool_decide_pack _) in Hin. vm_compute in Hin.
    exact Hin. }
  specialize (H Ht).
  destruct (update_entity_owners _ _ _) as [updates|e] eqn:E.
  - destruct H as [H _]. split; [|exact H].
    vm_compute in E. injection E as <-. reflexivity.
  - vm_compute in E. discriminate E.
Defined.

(** *** The round robin is balanced *)

(** The number of indices below [m] that are [j] modulo [k]. *)
Definition share (k j m : nat) : nat :=
  (m / k + (if (j <? m mod k)%nat then 1 else 0))%nat.

Lemma share_step (k j m : nat) :
  (j < k)%nat ->
  share k j (S m) = (share k j m + (if (m mod k =? j)%nat then 1 else 0))%nat.
Proof.
  intros Hj. unfold share.
  assert (Hk : k <> 0%nat) by lia.
  pose proof (Nat.div_mod_eq m k) as Hm.
  pose proof (Nat.mod_upper_bound m k Hk) as Hr.
  destruct (Nat.eq_dec (S (m mod k)) k) as [Hwrap|Hno].
  - assert (Hd : (S m / k = m / k + 1)%nat).
    { symmetry. apply (Nat.div_unique _ _ _ 0%nat); lia. }
    assert (Hmod : (S m mod k = 0)%nat).
    { symmetry. apply (Nat.mod_unique _ _ (m / k + 1)%nat); lia. }
    rewrite Hd, Hmod.
    destruct (Nat.ltb_spec j 0); [lia|].
    destruct (Nat.ltb_spec j (m mod k)), (Nat.eqb_spec (m mod k) j); lia.
  - assert (Hd : (S m / k = m / k)%nat).
    { symmetry. apply (Nat.div_unique _ _ _ (S (m mod k))); lia. }
    assert (Hmod : (S m mod k = S (m mod k))%nat).
    { symmetry. apply (Nat.mod_unique _ _ (m / k)%nat); lia. }
    rewrite Hd, Hmod.
    destruct (Nat.ltb_spec j (S (m mod k))), (Nat.ltb_spec j (m mod k)),
      (Nat.eqb_spec (m mod k) j); lia.
Qed.

(** The updates that assign the owner [a]. *)
Definition assigned (a : Z) (updates : list owner_update) : nat :=
  length (List.filter (fun u => owner_id u =? a) updates).

Lemma owner_loop_share (ids : list Z) (col : str) (j : nat) (a : Z)
    (seeded_items : list Backfill.seeded_item) : forall idx,
  NoDup ids -> ids !! j = Some a ->
  (assigned a (owner_loop ids col idx seeded_items)
   + share (length ids) j idx
   = share (length ids) j (idx + length seeded_items))%nat.
Proof.
  intros idx Hnd Hj. revert idx.
  assert (Hjk : (j < length ids)%nat) by (by eapply lookup_lt_Some).
  induction seeded_items as [|seeded rest IH]; intros idx.
  - cbn [owner_loop length]. unfold assigned. simpl. by rewrite Nat.add_0_r.
  - cbn [owner_loop length]. unfold assigned in *.
    cbn [List.filter owner_id].
    specialize (IH (S idx)).
    replace (idx + S (length rest))%nat with (S idx + length rest)%nat by lia.
    rewrite <- IH, (share_step _ _ idx Hjk).
    assert (Hlt : (idx mod length ids < length ids)%nat).
    { apply Nat.mod_upper_bound. lia. }
    destruct (lookup_lt_is_Some_2 _ _ Hlt) as [x Hx]. rewrite Hx.
    cbn [default from_option id].
    destruct (Nat.eqb_spec (idx mod length ids) j) as [He|Hne].
    + rewrite He in Hx. assert (x = a) as -> by congruence.
      rewrite Z.eqb_refl. simpl. lia.
    + destruct (Z.eqb_spec x a) as [->|_]; [|simpl; lia].
      exfalso. apply Hne. by eapply NoDup_lookup.
Qed.

(** X18. The owners are assigned in turn: when the usable user
    identifiers are pairwise distinct, the user at position [j] among
    [k] of them owns [n / k] of the [n] records, and one more when
    [j < n mod k].  So no user gets two records more than another. *)
Theorem update_entity_owners_balanced (all_users : list user)
    (table_name : str) (seeded_items : list Backfill.seeded_item)
    (j : nat) (a : Z) :
  table_name ∉ api_supported_tables ->
  NoDup (user_ids all_users) -> user_ids all_users !! j = Some a ->
  exists updates,
    update_entity_owners all_users table_name seeded_items = Ok updates /\
    assigned a updates
    = share (length (user_ids all_users)) j (length seeded_items) /\
    (length seeded_items / length (user_ids all_users)
     <= assigned a updates
     <= length seeded_items / length (user_ids all_users) + 1)%nat.
Proof.
  intros Htable Hnd Hj. unfold update_entity_owners.
  rewrite bool_decide_false by done.
  destruct (user_ids all_users) as [|i ids] eqn:Hids; [done|].
  set (col := if bool_decide _ then _ else _).
  exists (owner_loop (i :: ids) col 0 seeded_items).
  split; [by destruct seeded_items|].
  pose proof (owner_loop_share (i :: ids) col j a seeded_items 0%nat Hnd Hj)
    as H.
  assert (H0 : share (length (i :: ids)) j 0 = 0%nat).
  { unfold share. rewrite Nat.Div0.div_0_l, Nat.Div0.mod_0_l. reflexivity. }
  rewrite H0, Nat.add_0_r in H. cbn [Nat.add] in H.
  split; [exact H|]. rewrite H. unfold share.
  destruct (_ <? _)%nat; lia.
Qed.

(** The theorem for users 7 and 9 and three records: 7 owns two of
    them, 9 one. *)
Lemma update_entity_owners_balanced_witness :
  let users := [mk_user (Some 1) None; mk_user (Some 7) None;
                mk_user (Some 9) None] in
  let items := [Backfill.mk_seeded (Some 11) None;
                Backfill.mk_seeded None None;
                Backfill.mk_seeded (Some 13) None] in
  exists updates,
    update_entity_owners users (lit "entity_table") items = Ok updates /\
    assigned 7 updates = 2%nat /\ (1 <= assigned 7 updates <= 2)%nat.
Proof.
  cbv zeta.
  apply (update_entity_owners_balanced
           [mk_user (Some 1) None; mk_user (Some 7) None;
            mk_user (Some 9) None]
           (lit "entity_table")
           [Backfill.mk_seeded (Some 11) None;
            Backfill.mk_seeded None None;
            Backfill.mk_seeded (Some 13) None] 0%nat 7).
  - intros Hin. apply (bool_decide_pack _) in Hin. vm_compute in Hin.
    exact Hin.
  - apply (bool_decide_unpack _). vm_compute. exact I.
  - reflexivity.
Defined.

End Owners.

(** ** [core/example_entity.py]: [seed_example_entity] as a whole *)

Module Seed.

Import Dedup.
Local Open Scope Z_scope.

(** How one call of [api_utils.submit_form] (retries included) ends: it
    raises, or it returns the response's status code and the entity
    identifier it could extract. *)
Inductive submission : Type :=
  | Raised
  | Answered (status_code : Z) (entity_id : option Z).

(** The entries of [seeded_entities]; ["status"] is always ["success"]. *)
Record seeded_entity : Type := mk_seeded_entity {
  original_data : entity;
  entity_id : Z
}.

Inductive log_entry : Type :=
  | FailedToSeed (e : entity)      (* logger.warning("Failed to seed entity") *)
  | ErrorSeeding (e : entity).     (* logger.error("Error seeding entity") *)

(** The state of the submission loop. *)
Record progress : Type := mk_progress {
  seeded_count : nat;
  seeded_entities : list seeded_entity;
  log : list log_entry
}.

(** [[
for entity in tqdm(unique_entities, desc="Seeding entities"):
    try:
        form_data = {"name": entity.get("name", "")}
        result = await api_utils.submit_form("/api/entities/add", form_data)
        if result and result.get("status_code") == 200:
            entity_id = result.get("entity_id")
            if entity_id:
                seeded_entities.append({"original_data": entity,
                                        "entity_id": entity_id,
                                        "status": "success"})
                seeded_count += 1
        else:
            logger.warning(f"Failed to seed entity: {entity.get('name')}")
    except Exception as e:
        logger.error(f"Error seeding entity {entity.get('name')}: {e}")
]]
    [submit n entity] is the outcome of the n-th call. *)
Fixpoint submit_loop (submit : nat -> entity -> submission) (n : nat)
    (unique_entities : list entity) (st : progress) : progress :=
  match unique_entities with
  | [] => st
  | entity :: rest =>
      let st :=
        match submit n entity with
        | Raised =>
            mk_progress (seeded_count st) (seeded_entities st)
                        (log st ++ [ErrorSeeding entity])
        | Answered status_code entity_id =>
            if status_code =? 200 then
              match entity_id with
              | Some id =>
                  if negb (id =? 0) then
                    mk_progress (S (seeded_count st))
                      (seeded_entities st ++ [mk_seeded_entity entity id])
                      (log st)
                  else st
              | None => st
              end
            else
              mk_progress (seeded_count st) (seeded_entities st)
                          (log st ++ [FailedToSeed entity])
        end in
      submit_loop submit (S n) rest st
  end.

(** [get_all_users]: the placeholder returns the administrator alone. *)
Definition get_all_users (admin_email : list N) : list Helpers.user :=
  [Helpers.mk_user (Some 1) (Some admin_email)].

Section Seed.

(** [settings.APP_ADMIN_EMAIL], the clock, the outcomes of the
    submissions, and what [safe_strptime] makes of a record's
    [createdDateTime] and [modifiedDateTime]. *)
Variable admin_email : list N.
Variable clock : nat -> Z.
Variable submit : nat -> entity -> submission.
Variable dates_of : entity -> Backfill.reference.

(** The record as [update_entity_dates] reads it. *)
Definition to_original (e : entity) : Backfill.original :=
  Backfill.mk_original (default EmptyString (name e)) (dates_of e).

Definition to_seeded (s : seeded_entity) : Backfill.seeded_item :=
  Backfill.mk_seeded (Some (entity_id s)) (Some (to_original (original_data s))).

(** What a run leaves behind: the returned summary, the log, and the
    updates made in the database. *)
Record outcome : Type := mk_outcome {
  summary_count : nat;            (* ["seeded_entities"] *)
  details : list seeded_entity;   (* ["details"] *)
  run_log : list log_entry;
  date_updates : list Backfill.update;
  owner_updates : result (list Owners.owner_update) Owners.owners_error
}.

(** [seed_example_entity] on the records that [load_existing_data]
    returned. *)
Definition seed_example_entity (entities_data : list entity) : outcome :=
  let unique_entities := deduplicate entities_data in
  let st := submit_loop submit 0 unique_entities (mk_progress 0 [] []) in
  match seeded_entities st with
  | [] => mk_outcome (seeded_count st) [] (log st) [] (Ok [])
  | _ :: _ =>
      let seeded_items := map to_seeded (seeded_entities st) in
      mk_outcome (seeded_count st) (seeded_entities st) (log st)
        (Backfill.update_entity_dates clock 36
           (map (fun e => Some (to_original e)) unique_entities) None
           seeded_items)
        (Owners.update_entity_owners (get_all_users admin_email)
           (Text.lit "entity_table") seeded_items)
  end.

(** *** Facts *)

Lemma submit_loop_spec (unique_entities : list entity) :
  forall n st,
    seeded_count st = length (seeded_entities st) ->
    let st' := submit_loop submit n unique_entities st in
    seeded_count st' = length (seeded_entities st') /\
    exists added,
      seeded_entities st' = seeded_entities st ++ added /\
      sublist (map original_data added) unique_entities /\
      Forall (fun s => entity_id s <> 0) added.
Proof.
  induction unique_entities as [|entity rest IH]; intros n st Hc; cbv zeta.
  - cbn [submit_loop]. split; [exact Hc|]. exists [].
    by rewrite app_nil_r.
  - cbn [submit_loop].
    assert (Hskip : forall st0 : progress,
              seeded_count st0 = length (seeded_entities st0) ->
              seeded_entities st0 = seeded_entities st ->
              let st' := submit_loop submit (S n) rest st0 in
              seeded_count st' = length (seeded_entities st') /\
              exists added,
                seeded_entities st' = seeded_entities st ++ added /\
                sublist (map original_data added) (entity :: rest) /\
                Forall (fun s => entity_id s <> 0) added).
    { intros st0 Hc0 Hs0. cbv zeta.
      destruct (IH (S n) st0 Hc0) as (H1 & added & H2 & H3 & H4).
      split; [exact H1|]. exists added. rewrite <- Hs0.
      split; [exact H2|]. split; [by constructor|exact H4]. }
    destruct (submit n entity) as [|status_code oid].
    { by apply Hskip. }
    destruct (status_code =? 200); [|by apply Hskip].
    destruct oid as [id|]; [|by apply Hskip].
    destruct (Z.eqb_spec id 0) as [|Hid]; cbn [negb]; [by apply Hskip|].
    set (st0 := mk_progress _ _ _).
    destruct (IH (S n) st0) as (H1 & added & H2 & H3 & H4).
    { subst st0. cbn [seeded_count seeded_entities].
      rewrite length_app, Hc. simpl. lia. }
    split; [exact H1|]. exists (mk_seeded_entity entity id :: added).
    split; [|split].
    + rewrite H2. subst st0. cbn [seeded_entities].
      by rewrite <- app_assoc.
    + cbn [map original_data]. by constructor.
    + by constructor.
Qed.

Lemma sublist_NoDup_map {A B : Type} (f : A -> B) (l1 l2 : list A) :
  sublist l1 l2 -> NoDup (map f l2) -> NoDup (map f l1).
Proof.
  intros Hs Hnd. eapply sublist_NoDup; [exact Hnd|]. clear Hnd.
  induction Hs; simpl; [constructor|by constructor|by constructor].
Qed.

(** X19. [seed_example_entity] reports as many seeded entities as it
    lists.  The listed records are, in their order, records of the input
    whose folded names are pairwise distinct, each with an identifier
    that is not zero.  When any entity was seeded, one date update per
    listed entity is executed, for its identifier and in the same order,
    and (with the placeholder [get_all_users]) every listed entity is
    given to the administrator, user 1. *)
Theorem seed_example_entity_consistent (entities_data : list entity) :
  let r := seed_example_entity entities_data in
  summary_count r = length (details r) /\
  sublist (map original_data (details r)) entities_data /\
  NoDup (map (fun s => entity_name_lower (original_data s)) (details r)) /\
  Forall (fun s => entity_id s <> 0) (details r) /\
  map Backfill.update_id (date_updates r) = map entity_id (details r) /\
  owner_updates r
  = Ok (map (fun s => Owners.mk_owner_update (Text.lit "owner") 1
                        (Some (entity_id s))) (details r)).
Proof.
  cbv zeta. unfold seed_example_entity.
  destruct (submit_loop_spec (deduplicate entities_data) 0%nat
              (mk_progress 0 [] []) eq_refl) as (Hc & added & Ha & Hs & Hid).
  cbv zeta in Hc, Ha. cbn [seeded_entities app] in Ha.
  set (st := submit_loop submit 0 (deduplicate entities_data)
               (mk_progress 0 [] [])) in *.
  rewrite Ha in *. clear Ha.
  assert (Hsub : sublist (map original_data added) entities_data).
  { etrans; [exact Hs|]. rewrite deduplicate_kept. apply kept_sublist. }
  assert (Hnd : NoDup (map (fun s => entity_name_lower (original_data s))
                           added)).
  { rewrite <- (map_map original_data entity_name_lower).
    eapply sublist_NoDup_map; [exact Hs|].
    rewrite deduplicate_kept. apply kept_NoDup. }
  destruct added as [|s0 added0] eqn:Hadded.
  { cbn [summary_count details date_updates owner_updates map].
    repeat split; done. }
  rewrite <- Hadded in *.
  cbn [summary_count details date_updates owner_updates].
  split; [exact Hc|]. split; [exact Hsub|]. split; [exact Hnd|].
  split; [exact Hid|]. split.
  - unfold Backfill.update_entity_dates.
    rewrite BackfillFacts.update_loop_ids.
    clear. induction added as [|s l IH]; [reflexivity|].
    cbn [map omap list_omap to_seeded Backfill.app_id]. by rewrite IH.
  - unfold Owners.update_entity_owners.
    rewrite bool_decide_false.
    2:{ intros Hin. apply (bool_decide_pack _) in Hin. vm_compute in Hin.
        exact Hin. }
    rewrite bool_decide_false.
    2:{ intros Heq. apply (f_equal length) in Heq. vm_compute in Heq.
        discriminate Heq. }
    change (Owners.user_ids (get_all_users admin_email)) with [1].
    transitivity (Ok (E:=Owners.owners_error)
                    (Owners.owner_loop [1] (Text.lit "owner") 0
                       (map to_seeded added)));
      [by destruct (map to_seeded added)|].
    f_equal. generalize 0%nat. clear.
    induction added as [|s l IH]; intros idx; [reflexivity|].
    cbn [map Owners.owner_loop to_seeded Backfill.app_id length].
    rewrite Nat.mod_1_r. cbn [lookup list_lookup default from_option id].
    by rewrite IH.
Qed.

End Seed.

End Seed.

(** ** [generate/example_generate.py]: [generate_example_entities] *)

Module Generate.

Import Dedup.
Local Open Scope Z_scope.

Definition DEFAULT_ENTITIES_COUNT : Z := 50.
Definition ENTITIES_BATCH_SIZE : Z := 5.

(** [{e.get("name", "").lower() for e in existing if e.get("name")}] *)
Definition existing_name (e : entity) : option string :=
  match name e with
  | Some n => if PyStr.is_empty n then None else Some (PyStr.lower n)
  | None => None
  end.

Definition used_names_of (existing : list entity) : gset string :=
  list_to_set (omap existing_name existing).

(** [[
for entity in batch_entities:
    entity_name = entity.get("name", "").strip()
    if entity_name and entity_name.lower() not in used_names:
        used_names.add(entity_name.lower())
        new_entities.append(entity)
]] *)
Fixpoint add_batch (batch_entities : list entity) (used_names : gset string)
    (new_entities : list entity) : gset string * list entity :=
  match batch_entities with
  | [] => (used_names, new_entities)
  | entity :: rest =>
      let entity_name := PyStr.strip (default EmptyString (name entity)) in
      if negb (PyStr.is_empty entity_name)
         && negb (bool_decide (PyStr.lower entity_name ∈ used_names))
      then add_batch rest ({[PyStr.lower entity_name]} ∪ used_names)
                     (new_entities ++ [entity])
      else add_batch rest used_names new_entities
  end.

(** The state of the loop over the batches: the names in use, the new
    entities, the requests made and the batches that failed. *)
Record progress : Type := mk_progress {
  used_names : gset string;
  new_entities : list entity;
  requests : nat;
  failed : list nat
}.

(** [[
for batch_num in tqdm(range(batches), desc="Generating entities"):
    batch_size = min(ENTITIES_BATCH_SIZE, needed - len(new_entities))
    if batch_size <= 0:
        break
    prompt = create_entities_prompt(used_names, batch_size)
    try:
        response = await make_anthropic_request(...)
        batch_entities = parse_anthropic_response(response)
        for entity in batch_entities: ...
    except Exception as e:
        logger.error(f"Error generating batch {batch_num + 1}: {e}")
]]
    [respond batch_num batch_size] is what the request and the parsing
    of its answer give: the batch, or [None] when either raises. *)
Fixpoint batch_loop (respond : nat -> Z -> option (list entity)) (needed : Z)
    (batch_num : nat) (remaining : nat) (st : progress) : progress :=
  match remaining with
  | O => st
  | S remaining =>
      let batch_size :=
        Z.min ENTITIES_BATCH_SIZE
              (needed - Z.of_nat (length (new_entities st))) in
      if batch_size <=? 0 then st
      else
        let st :=
          match respond batch_num batch_size with
          | Some batch_entities =>
              let '(used, new) :=
                add_batch batch_entities (used_names st) (new_entities st) in
              mk_progress used new (S (requests st)) (failed st)
          | None =>
              mk_progress (used_names st) (new_entities st)
                          (S (requests st)) (failed st ++ [batch_num])
          end in
        batch_loop respond needed (S batch_num) remaining st
  end.

(** What a run leaves behind: the returned list, what was written to
    the data file ([None] when nothing was), and the requests made. *)
Record outcome : Type := mk_outcome {
  all_entities : list entity;
  saved : option (list entity);
  requests_made : nat
}.

(** [generate_example_entities] on the records that [load_existing_data]
    returned. *)
Definition generate_example_entities
    (respond : nat -> Z -> option (list entity)) (existing : list entity)
    : outcome :=
  let used_names := used_names_of existing in
  let target_count := DEFAULT_ENTITIES_COUNT in
  let current_count := Z.of_nat (length existing) in
  let needed := Z.max 0 (target_count - current_count) in
  if needed =? 0 then mk_outcome existing None 0
  else
    let batches := (needed + ENTITIES_BATCH_SIZE - 1) / ENTITIES_BATCH_SIZE in
    let st := batch_loop respond needed 0 (Z.to_nat batches)
                (mk_progress used_names [] 0 []) in
    let all_entities := existing ++ new_entities st in
    mk_outcome all_entities (Some all_entities) (requests st).

(** *** Facts *)

(** The inner loop is the deduplication loop of [seed_example_entity]. *)
Lemma add_batch_dedup (batch : list entity) : forall used new,
  add_batch batch used new = dedup_loop batch used new.
Proof.
  induction batch as [|e batch IH]; intros used new; [reflexivity|].
  cbn [add_batch dedup_loop]. fold (entity_name e).
  fold (entity_name_lower e).
  destruct (PyStr.is_empty (entity_name e)); cbn [negb andb]; [apply IH|].
  destruct (decide (entity_name_lower e ∈ used)) as [Hin|Hout].
  - rewrite bool_decide_true by done. apply IH.
  - rewrite bool_decide_false by done. apply IH.
Qed.

Lemma dedup_loop_used (es : list entity) : forall seen unique,
  (dedup_loop es seen unique).1
  = list_to_set (map entity_name_lower (kept seen es)) ∪ seen.
Proof.
  induction es as [|e es IH]; intros seen unique; simpl; [set_solver|].
  destruct (PyStr.is_empty (entity_name e)); [apply IH|].
  destruct (decide (entity_name_lower e ∈ seen)); [apply IH|].
  rewrite IH. simpl. set_solver.
Qed.

(** The new entities are named, have distinct folded names, and none
    that was in use at the start. *)
Definition fresh (used0 : gset string) (new : list entity) : Prop :=
  Forall (fun e => named e = true) new /\
  NoDup (map entity_name_lower new) /\
  Forall (fun e => entity_name_lower e ∉ used0) new.

Definition tracked (used0 : gset string) (st : progress) : Prop :=
  used_names st
  = list_to_set (map entity_name_lower (new_entities st)) ∪ used0 /\
  fresh used0 (new_entities st).

Lemma kept_named (es : list entity) (seen : gset string) :
  Forall (fun e => named e = true) (kept seen es) /\
  Forall (fun e => entity_name_lower e ∉ seen) (kept seen es).
Proof.
  split; apply Forall_forall; intros e He; apply list_elem_of_In in He;
    by apply kept_fresh in He as [? ?].
Qed.

Lemma add_batch_tracked (used0 : gset string) (batch : list entity)
    (st : progress) (n : nat) (f : list nat) :
  tracked used0 st ->
  tracked used0
    (let '(used, new) := add_batch batch (used_names st) (new_entities st) in
     mk_progress used new n f).
Proof.
  intros (Hu & Hn & Hnd & Hf).
  rewrite add_batch_dedup.
  pose proof (dedup_loop_used batch (used_names st) (new_entities st)) as H1.
  pose proof (dedup_loop_kept batch (used_names st) (new_entities st)) as H2.
  destruct (dedup_loop _ _ _) as [used new]. cbn [fst snd] in H1, H2.
  subst used new.
  destruct (kept_named batch (used_names st)) as [Hk1 Hk2].
  pose proof (kept_NoDup batch (used_names st)) as Hk3.
  unfold tracked, fresh. cbn [used_names new_entities].
  split; [|split; [|split]].
  - rewrite Hu, map_app, list_to_set_app_L. set_solver.
  - by apply Forall_app.
  - rewrite map_app. apply NoDup_app. split; [exact Hnd|]. split; [|exact Hk3].
    intros k Hk Hk'.
    apply list_elem_of_In, in_map_iff in Hk' as (e & <- & He).
    apply list_elem_of_In in He.
    rewrite Forall_forall in Hk2. apply (Hk2 e He). rewrite Hu.
    apply elem_of_union_l, elem_of_list_to_set. exact Hk.
  - apply Forall_app. split; [exact Hf|].
    eapply Forall_impl; [exact Hk2|]. intros e He Hin. apply He.
    rewrite Hu. by apply elem_of_union_r.
Qed.

Lemma batch_loop_tracked (respond : nat -> Z -> option (list entity))
    (needed : Z) (used0 : gset string) (remaining : nat) :
  forall batch_num st,
    tracked used0 st ->
    let st' := batch_loop respond needed batch_num remaining st in
    tracked used0 st' /\
    (requests st' <= requests st + remaining)%nat.
Proof.
  induction remaining as [|remaining IH]; intros batch_num st Ht; cbv zeta.
  - cbn [batch_loop]. split; [exact Ht|lia].
  - cbn [batch_loop]. destruct (_ <=? 0); [split; [exact Ht|lia]|].
    destruct (respond batch_num _) as [batch|].
    + pose proof (add_batch_tracked used0 batch st (S (requests st))
                    (failed st) Ht) as Ht'.
      destruct (add_batch batch (used_names st) (new_entities st))
        as [used new].
      destruct (IH (S batch_num) _ Ht') as [H1 H2].
      split; [exact H1|]. cbn [requests] in H2. lia.
    + assert (Ht' : tracked used0
                      (mk_progress (used_names st) (new_entities st)
                         (S (requests st)) (failed st ++ [batch_num])))
        by exact Ht.
      destruct (IH (S batch_num) _ Ht') as [H1 H2].
      split; [exact H1|]. cbn [requests] in H2. lia.
Qed.

Lemma generate_example_entities_spec
    (respond : nat -> Z -> option (list entity)) (existing : list entity) :
  let r := generate_example_entities respond existing in
  exists new,
    all_entities r = existing ++ new /\
    fresh (used_names_of existing) new /\
    (requests_made r <= 10)%nat /\
    (50 <= Z.of_nat (length existing) ->
     new = [] /\ requests_made r = 0%nat /\ saved r = None) /\
    (Z.of_nat (length existing) < 50 -> saved r = Some (all_entities r)).
Proof.
  cbv zeta. unfold generate_example_entities, DEFAULT_ENTITIES_COUNT,
    ENTITIES_BATCH_SIZE.
  destruct (Z.eqb_spec (Z.max 0 (50 - Z.of_nat (length existing))) 0)
    as [Hz|Hnz].
  - exists []. cbn [all_entities requests_made saved].
    rewrite app_nil_r. split; [done|]. split.
    { repeat split; constructor. }
    split; [lia|]. split; [done|lia].
  - set (needed := Z.max 0 (50 - Z.of_nat (length existing))) in *.
    set (st0 := mk_progress (used_names_of existing) [] 0 []).
    assert (Ht0 : tracked (used_names_of existing) st0).
    { unfold tracked, fresh, st0. cbn [used_names new_entities map].
      split; [set_solver|]. repeat split; constructor. }
    destruct (batch_loop_tracked respond needed (used_names_of existing)
                (Z.to_nat ((needed + 5 - 1) / 5)) 0%nat st0 Ht0)
      as [[_ Hfresh] Hreq].
    cbv zeta in Hfresh, Hreq.
    exists (new_entities (batch_loop respond needed 0
                            (Z.to_nat ((needed + 5 - 1) / 5)) st0)).
    cbn [all_entities requests_made saved].
    split; [done|]. split; [exact Hfresh|]. split.
    + cbn [requests st0] in Hreq.
      assert ((needed + 5 - 1) / 5 <= 10) by (subst needed; DT.dlia).
      lia.
    + split; [lia|done].
Qed.

(** X20. [generate_example_entities] returns the existing records
    followed by new ones.  Every new record has a name that is not blank;
    the folded (trimmed, lower-cased) names of the new records are
    pairwise distinct, and none is the lower-cased name of an existing
    record.  At most ten requests are made, and none (and nothing is
    saved) when fifty records exist already. *)
Theorem generate_example_entities_fresh
    (respond : nat -> Z -> option (list entity)) (existing : list entity) :
  let r := generate_example_entities respond existing in
  exists new,
    all_entities r = existing ++ new /\
    fresh (used_names_of existing) new /\
    (requests_made r <= 10)%nat /\
    (50 <= Z.of_nat (length existing) ->
     new = [] /\ requests_made r = 0%nat /\ saved r = None) /\
    (Z.of_nat (length existing) < 50 -> saved r = Some (all_entities r)).
Proof. apply generate_example_entities_spec. Qed.

(** A record list that deduplication leaves as it is, given the folded
    names seen so far. *)
Lemma kept_all (es : list entity) : forall seen,
  Forall (fun e => named e = true) es ->
  NoDup (map entity_name_lower es) ->
  Forall (fun e => entity_name_lower e ∉ seen) es ->
  kept seen es = es.
Proof.
  induction es as [|e es IH]; intros seen Hn Hnd Hs; [reflexivity|].
  apply Forall_cons in Hn as [Hne Hn]. apply Forall_cons in Hs as [Hse Hs].
  cbn [map] in Hnd. apply NoDup_cons in Hnd as [Hfirst Hnd].
  cbn [kept]. unfold named in Hne.
  destruct (PyStr.is_empty (entity_name e)); [discriminate|].
  rewrite decide_False by done. f_equal. apply IH; [done|done|].
  apply Forall_forall. intros x Hx.
  rewrite Forall_forall in Hs. specialize (Hs x Hx).
  intros [Heq%elem_of_singleton|Hin]%elem_of_union; [|done].
  apply Hfirst. rewrite <- Heq. apply list_elem_of_In, in_map.
  by apply list_elem_of_In.
Qed.

Lemma kept_app (a b : list entity) : forall seen,
  kept seen (a ++ b)
  = kept seen a
    ++ kept (list_to_set (map entity_name_lower (kept seen a)) ∪ seen) b.
Proof.
  induction a as [|e a IH]; intros seen; cbn [app kept map].
  - f_equal. set_solver.
  - destruct (PyStr.is_empty (entity_name e)); [apply IH|].
    destruct (decide (entity_name_lower e ∈ seen)); [apply IH|].
    cbn [app map]. rewrite IH. do 3 f_equal. cbn [list_to_set foldr].
    set_solver.
Qed.

(** A name without white space at its ends. *)
Definition trimmed_name (e : entity) : Prop :=
  PyStr.strip (default EmptyString (name e)) = default EmptyString (name e).

Lemma existing_name_folded (e : entity) :
  trimmed_name e -> named e = true ->
  existing_name e = Some (entity_name_lower e).
Proof.
  unfold trimmed_name, named, existing_name, entity_name_lower, entity_name.
  intros Ht Hn. rewrite Ht in *. destruct (name e) as [n|]; simpl in *.
  - by destruct (PyStr.is_empty n).
  - discriminate.
Qed.

(** X21. Generation and seeding agree on duplicates when the names on
    file are trimmed: if the existing records have names without white
    space at their ends and the deduplication of [seed_example_entity]
    keeps all of them, it also keeps every record of the list that
    [generate_example_entities] returns. *)
Theorem generated_entities_survive_deduplication
    (respond : nat -> Z -> option (list entity)) (existing : list entity) :
  Forall trimmed_name existing ->
  deduplicate existing = existing ->
  deduplicate (all_entities (generate_example_entities respond existing))
  = all_entities (generate_example_entities respond existing).
Proof.
  intros Htrim Hdedup.
  destruct (generate_example_entities_spec respond existing)
    as (new & -> & (Hn & Hnd & Hf) & _).
  rewrite deduplicate_kept in *. rewrite kept_app, Hdedup. f_equal.
  apply kept_all; [exact Hn|exact Hnd|].
  eapply Forall_impl; [exact Hf|]. intros e He Hin. apply He.
  apply elem_of_union in Hin as [Hin|Hin]; [|set_solver].
  apply elem_of_list_to_set in Hin.
  apply list_elem_of_In, in_map_iff in Hin as (x & Hx & Hin).
  unfold used_names_of. apply elem_of_list_to_set, list_elem_of_omap.
  exists x. apply list_elem_of_In in Hin. split; [exact Hin|].
  rewrite <- Hx. apply existing_name_folded.
  - rewrite Forall_forall in Htrim. by apply Htrim.
  - rewrite <- Hdedup in Hin. apply list_elem_of_In in Hin.
    by apply kept_fresh in Hin as [? _].
Qed.

(** The theorem with one record on file and a first batch that repeats
    its name in other letters: only the second record of the batch is
    added. *)
Lemma generated_entities_survive_deduplication_witness :
  let acme := mk_entity (Some "Acme"%string) [] in
  let batch := [mk_entity (Some " ACME "%string) [];
                mk_entity (Some "Bolt"%string) []] in
  let respond := fun (n : nat) (_ : Z) =>
                   match n with O => Some batch | _ => None end in
  all_entities (generate_example_entities respond [acme])
  = [acme; mk_entity (Some "Bolt"%string) []] /\
  deduplicate (all_entities (generate_example_entities respond [acme]))
  = all_entities (generate_example_entities respond [acme]).
Proof.
  cbv zeta. split; [vm_compute; reflexivity|].
  apply generated_entities_survive_deduplication.
  - repeat constructor.
  - vm_compute. reflexivity.
Defined.

End Generate.

(** ** [utils/helpers.py]: [calculate_activity_date] and
       [calculate_activity_date_modified] *)

Module Activity.

Import PyNum.
Local Open Scope Z_scope.

(** [random.randint] raises [ValueError] on an empty range. *)
Inductive random_error : Type :=
  | EmptyRange (a b : Z).

Section Draws.

(** The raw values that the generator yields, one for every call of
    [random.randint] or [random.random]: every outcome of a call is the
    image of some raw value, so a property proved for every [draws]
    holds for every run. *)
Variable draws : nat -> Z.

(** A computation that draws: from the number of draws made so far to a
    result and the new number, or to the exception raised. *)
Definition M (A : Type) : Type := nat -> result (A * nat) random_error.

Definition ret {A : Type} (a : A) : M A := fun k => Ok (a, k).

Definition bind {A B : Type} (m : M A) (f : A -> M B) : M B :=
  fun k => match m k with
           | Ok (a, k') => f a k'
           | Err e => Err e
           end.

Local Notation "x <- m ;; f" := (bind m (fun x => f))
  (at level 100, m at next level, right associativity).

(** [random.randint(a, b)]: an integer of [[a, b]]. *)
Definition randint (a b : Z) : M Z :=
  fun k => if b <? a then Err (EmptyRange a b)
           else Ok (a + draws k mod (b - a + 1), S k).

(** [random.random()]: a multiple of 2^-53 in [[0, 1)]. *)
Definition random : M float :=
  fun k => Ok (PrimFloat.mul (float_of_int (draws k mod 2 ^ 53))
                             0x1p-53%float, S k).

(** Lines 144-155 of [helpers.py]: the age of the activity in days. *)
Definition pick_days_ago (min_days max_days : Z)
    (is_recent_activity is_past_activity : bool) (days_offset : Z) : M Z :=
  if is_recent_activity then
    ret (if is_past_activity then days_offset else - days_offset)
  else if (min_days =? 0) && (max_days =? 30) then
    rand <- random ;;
    if PrimFloat.ltb rand f0_3 then randint 0 7
    else if PrimFloat.ltb rand f0_7 then randint 8 20
    else randint 21 30
  else randint min_days max_days.

(** [d.replace(hour=hours, minute=minutes, second=seconds, microsecond=0)] *)
Definition at_time (d hours minutes seconds : Z) : Z :=
  DT.replace_hmsu d hours minutes seconds 0.

(** Lines 167-183: an activity is not to predate its entity. *)
Definition after_entity (base_time : Z) (min_entity_date : option Z)
    (hours minutes seconds : Z) (activity_date : Z) : M Z :=
  match min_entity_date with
  | Some min_entity_date =>
      if activity_date <? min_entity_date then
        days_after_entity <- randint 1 30 ;;
        let activity_date :=
          at_time (min_entity_date + DT.days days_after_entity)
                  hours minutes seconds in
        if base_time <? activity_date then
          let days_available := DT.delta_days base_time min_entity_date in
          if 0 <? days_available then
            days_after_entity <- randint 1 (Z.max 1 days_available) ;;
            ret (at_time (min_entity_date + DT.days days_after_entity)
                         hours minutes seconds)
          else
            minutes_ago <- randint 1 1440 ;;
            seconds_ago <- randint 0 59 ;;
            ret (at_time (base_time - (minutes_ago * DT.MINUTE
                                       + DT.seconds seconds_ago))
                         hours minutes seconds)
        else ret activity_date
      else ret activity_date
  | None => ret activity_date
  end.

(** Lines 186-196: an activity that is not upcoming is moved back when
    it is after [base_time]. *)
Definition not_in_future (base_time : Z)
    (is_recent_activity is_past_activity : bool)
    (hours minutes seconds : Z) (activity_date : Z) : M Z :=
  if (base_time <? activity_date)
     && negb (is_recent_activity && negb is_past_activity) then
    minutes_ago <- randint 1 60 ;;
    seconds_ago <- randint 0 59 ;;
    let activity_date :=
      at_time (base_time - (minutes_ago * DT.MINUTE + DT.seconds seconds_ago))
              hours minutes seconds in
    if base_time <? activity_date then
      minutes_ago <- randint 60 1440 ;;
      seconds_ago <- randint 0 59 ;;
      ret (at_time (base_time - (minutes_ago * DT.MINUTE
                                 + DT.seconds seconds_ago))
                   hours minutes seconds)
    else ret activity_date
  else ret activity_date.

(** [calculate_activity_date] *)
Definition calculate_activity_date (base_time min_days max_days : Z)
    (min_entity_date : option Z) (is_recent_activity is_past_activity : bool)
    (days_offset : Z) (apply_weekend_skip : bool) : M Z :=
  days_ago <- pick_days_ago min_days max_days is_recent_activity
                            is_past_activity days_offset ;;
  hours <- randint 8 17 ;;
  minutes <- randint 0 59 ;;
  seconds <- randint 0 59 ;;
  let activity_date := base_time - DT.days days_ago in
  let activity_date := at_time activity_date hours minutes seconds in
  let activity_date :=
    if apply_weekend_skip then SkipWeekend.skip_weekend activity_date
    else activity_date in
  activity_date <- after_entity base_time min_entity_date
                                hours minutes seconds activity_date ;;
  not_in_future base_time is_recent_activity is_past_activity
                hours minutes seconds activity_date.

(** [if date_modified > base_time: date_modified = base_time] *)
Definition capped (base_time date_modified : Z) : Z :=
  if base_time <? date_modified then base_time else date_modified.

(** Lines 240-245 and 247-252: a modification one or two hours after
    the activity. *)
Definition soon_after (activity_date base_time : Z) : M Z :=
  hours_offset <- randint 1 2 ;;
  minutes_offset <- randint 0 59 ;;
  ret (capped base_time
         (activity_date + (DT.hours hours_offset
                           + minutes_offset * DT.MINUTE))).

(** [calculate_activity_date_modified] *)
Definition calculate_activity_date_modified (activity_date base_time : Z)
    (is_recent_activity is_past_activity : bool) (max_days_after : Z)
    : M Z :=
  if is_recent_activity && negb is_past_activity then
    let days_until_activity := DT.delta_days activity_date base_time in
    if 0 <? days_until_activity then
      let hours_until_activity :=
        days_until_activity * 24
        + (DT.hour activity_date - DT.hour base_time) in
      hours_offset <- randint 1 (Z.min hours_until_activity 48) ;;
      let date_modified := base_time + DT.hours hours_offset in
      ret (if activity_date <? date_modified
           then activity_date - DT.hours 1 else date_modified)
    else ret base_time
  else
    let max_days_after_created := DT.delta_days base_time activity_date in
    date_modified <-
      (if 0 <? max_days_after_created then
         let max_update_days := Z.min max_days_after_created max_days_after in
         if 0 <? max_update_days then
           days_after_created <- randint 1 max_update_days ;;
           let date_modified := activity_date + DT.days days_after_created in
           mod_hour <- randint 8 17 ;;
           mod_minute <- randint 0 59 ;;
           mod_second <- randint 0 59 ;;
           ret (capped base_time
                  (DT.replace_hmsu date_modified mod_hour mod_minute
                                   mod_second 0))
         else soon_after activity_date base_time
       else soon_after activity_date base_time) ;;
    ret (if date_modified <=? activity_date
         then capped base_time (activity_date + DT.hours 1)
         else date_modified).

(** *** Facts *)

(** What holds of the result of a computation, if it raises nothing. *)
Definition returns {A : Type} (m : M A) (k : nat) (P : A -> Prop) : Prop :=
  match m k with
  | Ok (a, _) => P a
  | Err _ => False
  end.

Lemma returns_ret {A : Type} (a : A) (k : nat) (P : A -> Prop) :
  P a -> returns (ret a) k P.
Proof. done. Qed.

Lemma returns_bind {A B : Type} (m : M A) (f : A -> M B) (k : nat)
    (P : A -> Prop) (Q : B -> Prop) :
  returns m k P -> (forall a k', P a -> returns (f a) k' Q) ->
  returns (bind m f) k Q.
Proof.
  unfold returns, bind. destruct (m k) as [[a k']|e]; [|done].
  intros Ha Hf. by apply Hf.
Qed.

Lemma returns_randint (a b : Z) (k : nat) :
  a <= b -> returns (randint a b) k (fun v => a <= v <= b).
Proof.
  intros Hab. unfold returns, randint.
  destruct (Z.ltb_spec b a); [lia|].
  pose proof (Z.mod_pos_bound (draws k) (b - a + 1) ltac:(lia)). lia.
Qed.

Lemma returns_impl {A : Type} (m : M A) (k : nat) (P Q : A -> Prop) :
  (forall a, P a -> Q a) -> returns m k P -> returns m k Q.
Proof.
  unfold returns. intros H. destruct (m k) as [[a k']|e]; [apply H|done].
Qed.

(** A datetime at the drawn time of day. *)
Definition stamped (hours minutes seconds : Z) (d : Z) : Prop :=
  DT.tod_of d = Backfill.time_of_day hours minutes seconds 0.

Section Stamp.

Variables hours minutes seconds : Z.
Hypothesis hours_range : 8 <= hours <= 17.
Hypothesis minutes_range : 0 <= minutes <= 59.
Hypothesis seconds_range : 0 <= seconds <= 59.

Lemma fields_drawn : Backfill.fields_ok hours minutes seconds 0.
Proof using hours_range minutes_range seconds_range.
  unfold Backfill.fields_ok. lia.
Qed.

Lemma at_time_stamped (d : Z) :
  stamped hours minutes seconds (at_time d hours minutes seconds) /\
  DT.day_of (at_time d hours minutes seconds) = DT.day_of d.
Proof using hours_range minutes_range seconds_range.
  unfold stamped, at_time. split.
  - apply BackfillFacts.replace_hmsu_fields, fields_drawn.
  - apply Backfill.replace_hmsu_day, fields_drawn.
Qed.

Lemma skip_weekend_stamped (d : Z) :
  stamped hours minutes seconds d ->
  stamped hours minutes seconds (SkipWeekend.skip_weekend d).
Proof using hours_range minutes_range seconds_range.
  unfold stamped, SkipWeekend.skip_weekend. intros H.
  destruct (_ =? 5); [by rewrite SkipWeekendFacts.tod_of_add_days|].
  destruct (_ =? 6); [by rewrite SkipWeekendFacts.tod_of_add_days|done].
Qed.

Lemma after_entity_stamped (base_time : Z) (min_entity_date : option Z)
    (activity_date : Z) (k : nat) :
  stamped hours minutes seconds activity_date ->
  returns (after_entity base_time min_entity_date hours minutes seconds
                        activity_date) k
          (stamped hours minutes seconds).
Proof using hours_range minutes_range seconds_range.
  intros Hs. unfold after_entity.
  destruct min_entity_date as [m|]; [|by apply returns_ret].
  destruct (activity_date <? m); [|by apply returns_ret].
  eapply returns_bind; [apply (returns_randint 1 30); lia|].
  intros d1 k1 Hd1. cbv beta zeta.
  destruct (base_time <? _); [|apply returns_ret, at_time_stamped].
  destruct (0 <? _).
  - eapply returns_bind; [apply returns_randint; lia|].
    intros d2 k2 Hd2. apply returns_ret, at_time_stamped.
  - eapply returns_bind; [apply (returns_randint 1 1440); lia|].
    intros m1 k2 Hm1.
    eapply returns_bind; [apply (returns_randint 0 59); lia|].
    intros s1 k3 Hs1. apply returns_ret, at_time_stamped.
Qed.

(** A datetime on [base_time]'s calendar day or an earlier one. *)
Definition by_day (base_time d : Z) : Prop :=
  DT.day_of d <= DT.day_of base_time.

Lemma at_time_before (base_time minutes_ago seconds_ago : Z) :
  0 <= minutes_ago -> 0 <= seconds_ago ->
  by_day base_time
    (at_time (base_time - (minutes_ago * DT.MINUTE + DT.seconds seconds_ago))
             hours minutes seconds).
Proof using hours_range minutes_range seconds_range.
  intros Hm Hsec. unfold by_day.
  rewrite (proj2 (at_time_stamped _)). apply DT.day_of_mono.
  unfold DT.MINUTE, DT.seconds, DT.SECOND. lia.
Qed.

Lemma not_in_future_spec (base_time : Z)
    (is_recent_activity is_past_activity : bool) (activity_date : Z)
    (k : nat) :
  stamped hours minutes seconds activity_date ->
  returns (not_in_future base_time is_recent_activity is_past_activity
                         hours minutes seconds activity_date) k
          (fun d => stamped hours minutes seconds d /\
                    (is_recent_activity && negb is_past_activity = false ->
                     by_day base_time d)).
Proof using hours_range minutes_range seconds_range.
  intros Hs. unfold not_in_future.
  destruct (Z.ltb_spec base_time activity_date) as [Hlt|Hge]; cbn [andb].
  2:{ apply returns_ret. split; [done|]. intros _.
      by apply DT.day_of_mono. }
  destruct (is_recent_activity && negb is_past_activity); cbn [negb].
  { apply returns_ret. by split. }
  eapply returns_bind; [apply (returns_randint 1 60); lia|].
  intros m1 k1 Hm1.
  eapply returns_bind; [apply (returns_randint 0 59); lia|].
  intros s1 k2 Hs1. cbv beta zeta.
  destruct (base_time <? _).
  - eapply returns_bind; [apply (returns_randint 60 1440); lia|].
    intros m2 k3 Hm2.
    eapply returns_bind; [apply (returns_randint 0 59); lia|].
    intros s2 k4 Hs2. apply returns_ret.
    split; [apply at_time_stamped|]. intros _. apply at_time_before; cbv beta in *; lia.
  - apply returns_ret.
    split; [apply at_time_stamped|]. intros _. apply at_time_before; cbv beta in *; lia.
Qed.

Lemma stamped_fields (d : Z) :
  stamped hours minutes seconds d ->
  DT.hour d = hours /\ DT.minute d = minutes /\ DT.second d = seconds /\
  DT.microsecond d = 0.
Proof using hours_range minutes_range seconds_range.
  unfold stamped, DT.hour, DT.minute, DT.second, DT.microsecond.
  intros ->. unfold Backfill.time_of_day, DT.HOUR, DT.MINUTE, DT.SECOND.
  repeat split; DT.dlia.
Qed.

End Stamp.

Lemma pick_days_ago_raises (min_days max_days : Z)
    (is_recent_activity is_past_activity : bool) (days_offset : Z)
    (k : nat) :
  match pick_days_ago min_days max_days is_recent_activity is_past_activity
                      days_offset k with
  | Ok _ => True
  | Err _ =>
      is_recent_activity = false /\ max_days < min_days
  end.
Proof.
  unfold pick_days_ago. destruct is_recent_activity; [done|].
  destruct ((min_days =? 0) && (max_days =? 30)).
  - unfold bind, random.
    destruct (PrimFloat.ltb _ f0_3); [done|].
    by destruct (PrimFloat.ltb _ f0_7).
  - unfold randint. by destruct (Z.ltb_spec max_days min_days).
Qed.

End Draws.

(** X22. Whatever the generator yields, [calculate_activity_date] returns
    a datetime between 08:00:00 and 17:59:59 with no microseconds.  For
    an activity that is not upcoming the result is not after
    [base_time]'s calendar day, and not after [base_time] itself when
    [base_time] is at 18:00 or later (earlier in the day the result can
    be after it: the time of day is put back after every correction).
    The function raises only when [random.randint(min_days, max_days)]
    is given an empty range. *)
Theorem calculate_activity_date_business_hours (draws : nat -> Z)
    (base_time min_days max_days : Z) (min_entity_date : option Z)
    (is_recent_activity is_past_activity : bool) (days_offset : Z)
    (apply_weekend_skip : bool) (k : nat) :
  match calculate_activity_date draws base_time min_days max_days
          min_entity_date is_recent_activity is_past_activity days_offset
          apply_weekend_skip k with
  | Ok (d, _) =>
      8 <= DT.hour d <= 17 /\ DT.microsecond d = 0 /\
      (is_recent_activity && negb is_past_activity = false ->
       DT.day_of d <= DT.day_of base_time /\
       (18 <= DT.hour base_time -> d <= base_time))
  | Err _ => is_recent_activity = false /\ max_days < min_days
  end.
Proof.
  unfold calculate_activity_date. unfold bind at 1.
  pose proof (pick_days_ago_raises draws min_days max_days
                is_recent_activity is_past_activity days_offset k) as Hpick.
  destruct (pick_days_ago _ _ _ _ _ _ _) as [[days_ago k0]|e]; [|exact Hpick].
  clear Hpick.
  set (Q := fun d : Z =>
              8 <= DT.hour d <= 17 /\ DT.microsecond d = 0 /\
              (is_recent_activity && negb is_past_activity = false ->
               DT.day_of d <= DT.day_of base_time /\
               (18 <= DT.hour base_time -> d <= base_time))).
  match goal with |- match ?m k0 with _ => _ end =>
    assert (H : returns m k0 Q) end.
  2:{ unfold returns in H.
      match goal with H : match ?x with _ => _ end |- match ?y with _ => _ end =>
        change y with x; destruct x as [[d k']|e] end; [exact H|done]. }
  eapply returns_bind; [apply (returns_randint draws 8 17); lia|].
  intros hours k1 Hh.
  eapply returns_bind; [apply (returns_randint draws 0 59); lia|].
  intros minutes k2 Hm.
  eapply returns_bind; [apply (returns_randint draws 0 59); lia|].
  intros seconds k3 Hs. cbv beta in Hh, Hm, Hs. cbv beta zeta.
  eapply returns_bind.
  { apply (after_entity_stamped draws hours minutes seconds Hh Hm Hs).
    destruct apply_weekend_skip.
    - apply (skip_weekend_stamped hours minutes seconds Hh Hm Hs).
      apply (at_time_stamped hours minutes seconds Hh Hm Hs).
    - apply (at_time_stamped hours minutes seconds Hh Hm Hs). }
  intros d1 k4 Hd1.
  eapply returns_impl;
    [|apply (not_in_future_spec draws hours minutes seconds Hh Hm Hs);
      exact Hd1].
  intros d [Hst Hday]. unfold Q.
  destruct (stamped_fields hours minutes seconds Hh Hm Hs d Hst)
    as (Hhour & _ & _ & Hus).
  split; [lia|]. split; [exact Hus|].
  intros Hup. specialize (Hday Hup). split; [exact Hday|].
  intros Hlate. unfold by_day in Hday.
  pose proof (DT.day_tod d) as Hd. pose proof (DT.day_tod base_time) as Hb.
  unfold stamped in Hst. rewrite Hst in Hd.
  unfold DT.hour in Hlate.
  pose proof (DT.tod_range base_time) as Hr.
  unfold Backfill.time_of_day in Hd.
  rewrite DT.DAY_val in *. unfold DT.HOUR, DT.MINUTE, DT.SECOND in *.
  assert (18 * 3600000000 <= DT.tod_of base_time) by DT.dlia.
  nia.
Qed.

(** X23. Whatever the generator yields, [calculate_activity_date_modified]
    raises nothing.  For an activity that is not upcoming the result is
    never after [base_time], and it is after the activity whenever the
    activity is before [base_time] (otherwise it is [base_time]).  For an
    upcoming activity at least a day ahead the result is after
    [base_time] and not after the activity; for any other upcoming
    activity it is [base_time]. *)
Theorem calculate_activity_date_modified_bounds (draws : nat -> Z)
    (activity_date base_time : Z)
    (is_recent_activity is_past_activity : bool) (max_days_after : Z)
    (k : nat) :
  match calculate_activity_date_modified draws activity_date base_time
          is_recent_activity is_past_activity max_days_after k with
  | Ok (d, _) =>
      if is_recent_activity && negb is_past_activity then
        if 0 <? DT.delta_days activity_date base_time
        then base_time < d <= activity_date
        else d = base_time
      else
        d <= base_time /\
        (activity_date < base_time -> activity_date < d) /\
        (base_time <= activity_date -> d = base_time)
  | Err _ => False
  end.
Proof.
  set (Q := fun d : Z =>
              if is_recent_activity && negb is_past_activity then
                if 0 <? DT.delta_days activity_date base_time
                then base_time < d <= activity_date
                else d = base_time
              else
                d <= base_time /\
                (activity_date < base_time -> activity_date < d) /\
                (base_time <= activity_date -> d = base_time)).
  match goal with |- match ?m k with _ => _ end =>
    assert (H : returns m k Q) end.
  2:{ unfold returns in H.
      match goal with H : match ?x with _ => _ end |- match ?y with _ => _ end =>
        change y with x; destruct x as [[d k']|e] end; [exact H|done]. }
  unfold calculate_activity_date_modified, Q.
  destruct (is_recent_activity && negb is_past_activity).
  - destruct (Z.ltb_spec 0 (DT.delta_days activity_date base_time))
      as [Hpos|Hnon]; [|by apply returns_ret].
    pose proof (Backfill.hour_range activity_date) as Ha.
    pose proof (Backfill.hour_range base_time) as Hb.
    eapply returns_bind; [apply returns_randint; lia|].
    intros ho k1 Hho. cbv beta in Hho. apply returns_ret.
    unfold DT.delta_days, DT.hours in *. rewrite DT.DAY_val in *.
    unfold DT.HOUR, DT.MINUTE, DT.SECOND.
    destruct (Z.ltb_spec activity_date (base_time + ho * (60 * (60 * 1000000))));
      DT.dlia.
  - assert (Hsoon : forall k0,
              returns (soon_after draws activity_date base_time) k0
                      (fun d => d <= base_time)).
    { intros k0. unfold soon_after.
      eapply returns_bind; [apply (returns_randint draws 1 2); lia|].
      intros ho k1 Hho.
      eapply returns_bind; [apply (returns_randint draws 0 59); lia|].
      intros mo k2 Hmo. cbv beta in *. apply returns_ret. unfold capped.
      destruct (Z.ltb_spec base_time
                  (activity_date + (DT.hours ho + mo * DT.MINUTE))); lia. }
    eapply (returns_bind _ _ _ (fun d => d <= base_time)).
    + destruct (0 <? DT.delta_days base_time activity_date); [|apply Hsoon].
      destruct (Z.ltb_spec 0 (Z.min (DT.delta_days base_time activity_date)
                                max_days_after)); [|apply Hsoon].
      eapply returns_bind; [apply returns_randint; lia|].
      intros dd k1 Hdd.
      eapply returns_bind; [apply (returns_randint draws 8 17); lia|].
      intros h k2 Hh.
      eapply returns_bind; [apply (returns_randint draws 0 59); lia|].
      intros m k3 Hm.
      eapply returns_bind; [apply (returns_randint draws 0 59); lia|].
      intros s k4 Hs. cbv beta in *. apply returns_ret. unfold capped.
      destruct (Z.ltb_spec base_time
                  (DT.replace_hmsu (activity_date + DT.days dd) h m s 0)); lia.
    + intros d k' Hd. cbv beta in Hd. apply returns_ret. cbv beta.
      unfold capped, DT.hours, DT.HOUR, DT.MINUTE, DT.SECOND.
      destruct (Z.leb_spec d activity_date);
        [destruct (Z.ltb_spec base_time
                     (activity_date + 1 * (60 * (60 * 1000000))))|]; lia.
Qed.

End Activity.

(** ** Python's [int.__repr__] and [json.dump] *)

Module PyInt.

Import Text Json.

(** The decimal digits of [n >= 0], most significant first; [fuel] bounds
    their number. *)
Fixpoint digits_fuel (fuel : nat) (n : Z) : str :=
  match fuel with
  | O => []
  | S fuel =>
      (if n <? 10 then [] else digits_fuel fuel (n / 10))
      ++ [Z.to_N (48 + n mod 10)]
  end.

Definition digits_of (n : Z) : str :=
  digits_fuel (S (Z.to_nat (Z.log2 n))) n.

(** [str(n)] without the limit on the number of digits: the text of an
    integer known to be small, such as a list index. *)
Definition str_of_int (n : Z) : str :=
  if n <? 0 then 45%N :: digits_of (- n) else digits_of n.

(** [sys.get_int_max_str_digits()] *)
Definition MAX_STR_DIGITS : Z := 4300.

(** [int.__repr__(n)], also [str(n)]: [None] stands for the
    [ValueError] "Exceeds the limit (4300 digits) for integer string
    conversion". *)
Definition int_repr (n : Z) : option str :=
  if MAX_STR_DIGITS <? len (digits_of (Z.abs n)) then None
  else Some (str_of_int n).

Example int_repr_examples :
  int_repr 0 = Some (lit "0") /\ int_repr 7 = Some (lit "7") /\
  int_repr 10 = Some (lit "10") /\ int_repr (-305) = Some (lit "-305") /\
  int_repr 1234567890123 = Some (lit "1234567890123") /\
  int_repr (- 2 ^ 63) = Some (lit "-9223372036854775808").
Proof. vm_compute. repeat split. Qed.

End PyInt.

Module Dump.

Import Text Json PyInt.
Local Open Scope N_scope.

(** The hexadecimal digit of ['{0:04x}'.format]. *)
Definition hex_char (d : N) : N := if d <? 10 then 48 + d else 87 + d.

(** [ESCAPE_DCT] of [json.encoder] on the characters that [ESCAPE]
    matches; any other character stands for itself. *)
Definition escape_char (c : N) : str :=
  if c =? 34 then [92; 34]
  else if c =? 92 then [92; 92]
  else if c =? 10 then [92; 110]
  else if c =? 13 then [92; 114]
  else if c =? 9 then [92; 116]
  else if c =? 8 then [92; 98]
  else if c =? 12 then [92; 102]
  else if c <? 32 then [92; 117; 48; 48; hex_char (c / 16); hex_char (c mod 16)]
  else [c].

(** [encode_basestring(s)], the string encoder when [ensure_ascii] is
    false. *)
Definition encode_basestring (s : str) : str :=
  34 :: flat_map escape_char s ++ [34].

(** ['\n' + ' ' * (2 * level)] *)
Definition newline_indent (level : nat) : str := 10 :: repeat 32 (2 * level)%nat.

Section Encoder.

(** [float.__repr__] of the float that a lexeme denotes. *)
Variable float_repr : str -> str.

(** [JSONEncoder(indent=2, ensure_ascii=False).iterencode(o)], all
    chunks joined; [None] when [int.__repr__] raises. *)
Fixpoint iterencode (level : nat) (o : json) : option str :=
  match o with
  | JNull => Some (lit "null")
  | JBool b => Some (if b then lit "true" else lit "false")
  | JInt n => int_repr n
  | JFloat lexeme => Some (float_repr lexeme)
  | JNaN => Some (lit "NaN")
  | JInfinity negative =>
      Some (if negative then lit "-Infinity" else lit "Infinity")
  | JStr s => Some (encode_basestring s)
  | JArr [] => Some (lit "[]")
  | JArr (value :: lst) =>
      match iterencode (S level) value with
      | None => None
      | Some first =>
          match
            (fix rest (lst : list json) : option str :=
               match lst with
               | [] => Some (newline_indent level ++ [93])
               | value :: lst =>
                   match iterencode (S level) value, rest lst with
                   | Some chunk, Some chunks =>
                       Some (44 :: newline_indent (S level) ++ chunk
                             ++ chunks)
                   | _, _ => None
                   end
               end) lst
          with
          | None => None
          | Some chunks =>
              Some (91 :: newline_indent (S level) ++ first ++ chunks)
          end
      end
  | JObj [] => Some (lit "{}")
  | JObj ((key, value) :: dct) =>
      match iterencode (S level) value with
      | None => None
      | Some first =>
          match
            (fix rest (dct : list (str * json)) : option str :=
               match dct with
               | [] => Some (newline_indent level ++ [125])
               | (key, value) :: dct =>
                   match iterencode (S level) value, rest dct with
                   | Some chunk, Some chunks =>
                       Some (44 :: newline_indent (S level)
                             ++ encode_basestring key ++ [58; 32] ++ chunk
                             ++ chunks)
                   | _, _ => None
                   end
               end) dct
          with
          | None => None
          | Some chunks =>
              Some (123 :: newline_indent (S level)
                    ++ encode_basestring key ++ [58; 32] ++ first ++ chunks)
          end
      end
  end.

(** The items after the first, and the closing bracket. *)
Fixpoint list_rest (level : nat) (lst : list json) : option str :=
  match lst with
  | [] => Some (newline_indent level ++ [93])
  | value :: lst =>
      match iterencode (S level) value, list_rest level lst with
      | Some chunk, Some chunks =>
          Some (44 :: newline_indent (S level) ++ chunk ++ chunks)
      | _, _ => None
      end
  end.

Fixpoint dict_rest (level : nat) (dct : list (str * json)) : option str :=
  match dct with
  | [] => Some (newline_indent level ++ [125])
  | (key, value) :: dct =>
      match iterencode (S level) value, dict_rest level dct with
      | Some chunk, Some chunks =>
          Some (44 :: newline_indent (S level)
                ++ encode_basestring key ++ [58; 32] ++ chunk ++ chunks)
      | _, _ => None
      end
  end.

(** [json.dumps(obj, indent=2, ensure_ascii=False)], which is also the
    text that [json.dump] writes. *)
Definition dumps (obj : json) : option str := iterencode 0 obj.

End Encoder.

End Dump.

(** ** A saved file loads back *)

Module DumpFacts.

Import Text Json PyInt Dump TextFacts WellFormed.

(** *** Decimal digits *)

Lemma digits_value_snoc (ds : str) (c : N) :
  digits_value (ds ++ [c]) = digits_value ds * 10 + Z.of_N (c - 48).
Proof. unfold digits_value. by rewrite fold_left_app. Qed.

Lemma is_digit_range (c : N) : is_digit c = true <-> (48 <= c <= 57)%N.
Proof.
  unfold is_digit. rewrite andb_true_iff, !N.leb_le. tauto.
Qed.

Lemma digits_fuel_spec (fuel : nat) : forall n,
  0 <= n < 2 ^ Z.of_nat fuel ->
  digits_value (digits_fuel fuel n) = n /\
  Forall (fun c => is_digit c = true) (digits_fuel fuel n) /\
  (0 < n -> exists c ds, digits_fuel fuel n = c :: ds /\ c <> 48%N).
Proof.
  induction fuel as [|fuel IH]; intros n Hn.
  { change (2 ^ Z.of_nat 0) with 1 in Hn. assert (n = 0) as -> by lia.
    repeat split; [constructor|lia]. }
  cbn [digits_fuel].
  assert (Hd : is_digit (Z.to_N (48 + n mod 10)) = true).
  { apply is_digit_range. DT.dlia. }
  assert (Hv : Z.of_N (Z.to_N (48 + n mod 10) - 48) = n mod 10) by DT.dlia.
  destruct (Z.ltb_spec n 10) as [Hlt|Hge].
  - cbn [app]. unfold digits_value. cbn [fold_left]. rewrite Hv.
    split; [DT.dlia|]. split; [by repeat constructor|].
    intros Hpos. eexists _, _. split; [done|]. DT.dlia.
  - assert (Hq : 0 <= n / 10 < 2 ^ Z.of_nat fuel).
    { rewrite Nat2Z.inj_succ, Z.pow_succ_r in Hn by lia. DT.dlia. }
    destruct (IH _ Hq) as (IHv & IHd & IHh).
    rewrite digits_value_snoc, IHv, Hv.
    split; [DT.dlia|]. split; [apply Forall_app; by repeat constructor|].
    intros _. destruct IHh as (c & ds & -> & Hc); [DT.dlia|].
    by eexists _, _.
Qed.

Lemma digits_of_spec (n : Z) :
  0 <= n ->
  digits_value (digits_of n) = n /\
  Forall (fun c => is_digit c = true) (digits_of n) /\
  (0 < n -> exists c ds, digits_of n = c :: ds /\ c <> 48%N).
Proof.
  intros Hn. apply digits_fuel_spec. split; [done|].
  destruct (Z.eq_dec n 0) as [->|Hne]; [done|].
  rewrite Nat2Z.inj_succ, Z2Nat.id by apply Z.log2_nonneg.
  apply Z.log2_spec. lia.
Qed.

(** The digits start with one that is not zero, or are the one digit 0. *)
Lemma digits_of_shape (n : Z) :
  0 <= n ->
  exists c ds, digits_of n = c :: ds /\ is_digit c = true /\
    Forall (fun c => is_digit c = true) ds /\
    digits_value (c :: ds) = n /\ (c = 48%N -> ds = [] /\ n = 0).
Proof.
  intros Hn. destruct (digits_of_spec n Hn) as (Hv & Hd & Hh).
  destruct (Z.eq_dec n 0) as [->|Hne].
  { exists 48%N, []. repeat split; by repeat constructor. }
  destruct Hh as (c & ds & Heq & Hc); [lia|].
  rewrite Heq in Hv, Hd. apply Forall_cons in Hd as [Hc' Hds].
  exists c, ds. by repeat split.
Qed.

(** Where a number ends: at the end of the text or before a character
    that continues no number. *)
Definition number_stops (rest : str) : bool :=
  match rest with
  | [] => true
  | c :: _ => negb (is_digit c || (c =? 46) || (c =? 101) || (c =? 69))%N
  end.

Lemma span_digits_app (ds rest : str) :
  Forall (fun c => is_digit c = true) ds -> number_stops rest = true ->
  span_digits (ds ++ rest) = (ds, rest).
Proof.
  intros Hds Hrest. induction Hds as [|c ds Hc _ IH].
  - destruct rest as [|c r]; [done|]. cbn [app span_digits].
    cbn [number_stops] in Hrest. by destruct (is_digit c).
  - cbn [app span_digits]. by rewrite Hc, IH.
Qed.

Lemma number_tail (rest : str) :
  number_stops rest = true ->
  number_frac rest = ([], rest) /\ number_exp rest = ([], rest).
Proof.
  destruct rest as [|c r]; [done|]. cbn [number_stops].
  rewrite negb_true_iff, !orb_false_iff. intros [[[_ H1] H2] H3].
  unfold number_frac, number_exp, expect. by rewrite H1, H2, H3.
Qed.

Lemma match_number_digits (negative : bool) (n : Z) (rest : str) :
  0 <= n -> number_stops rest = true ->
  match_number ((if negative then [45%N] else []) ++ digits_of n ++ rest)
  = Some (JInt (if negative then - n else n), rest).
Proof.
  intros Hn Hrest.
  destruct (digits_of_shape n Hn) as (c & ds & -> & Hc & Hds & Hv & Hz).
  apply is_digit_range in Hc as Hr.
  destruct (number_tail rest Hrest) as [Hf He].
  assert (Hint : number_integer ((c :: ds) ++ rest) = Some (c :: ds, rest)).
  { cbn [app number_integer]. destruct (N.eqb_spec c 48) as [->|_].
    - by destruct Hz as [-> _].
    - by rewrite Hc, span_digits_app. }
  unfold match_number. destruct negative.
  - change (number_sign ([45%N] ++ (c :: ds) ++ rest))
      with ([45%N], (c :: ds) ++ rest).
    cbv zeta iota. rewrite Hint, Hf, He. by rewrite Hv.
  - assert (Hs : number_sign ([] ++ (c :: ds) ++ rest)
                 = ([], (c :: ds) ++ rest)).
    { unfold number_sign, expect. cbn [app].
      destruct (N.eqb_spec c 45) as [->|_]; [lia|done]. }
    rewrite Hs. cbv zeta iota. rewrite Hint, Hf, He. by rewrite Hv.
Qed.


Lemma str_of_int_shape (n : Z) :
  exists negative : bool, str_of_int n
    = (if negative then [45%N] else []) ++ digits_of (Z.abs n) /\
    n = (if negative then - Z.abs n else Z.abs n).
Proof.
  unfold str_of_int. destruct (Z.ltb_spec n 0).
  - exists true. replace (Z.abs n) with (- n) by lia. split; [done|lia].
  - exists false. replace (Z.abs n) with n by lia. by split.
Qed.

(** The first character of a value: it is no white space, no closing
    bracket and no byte order mark. *)
Definition value_start (c : N) : bool :=
  negb (is_ws c || (c =? 93) || (c =? 65279))%N.

Definition starts_value (text : str) : Prop :=
  exists c r, text = c :: r /\ value_start c = true.

Lemma digit_value_start (c : N) : is_digit c = true -> value_start c = true.
Proof.
  intros H%is_digit_range. unfold value_start, is_ws.
  repeat match goal with
         | |- context [(c =? ?k)%N] => destruct (N.eqb_spec c k); [lia|]
         end.
  done.
Qed.

Lemma str_of_int_start (n : Z) : starts_value (str_of_int n).
Proof.
  destruct (str_of_int_shape n) as ([] & -> & _).
  - by eexists _, _.
  - destruct (digits_of_shape (Z.abs n)) as (c & ds & -> & Hc & _); [lia|].
    eexists _, _. split; [done|]. by apply digit_value_start.
Qed.

Lemma parse_atom_number (s : str) (found : json * str) :
  (exists c r, s = c :: r /\ (is_digit c = true \/ c = 45%N)) ->
  match_number s = Some found -> parse_atom s = Ok found.
Proof.
  intros (c & r & -> & Hc) Hm. unfold parse_atom. rewrite Hm.
  assert (Hr : (c <= 57)%N).
  { destruct Hc as [Hc%is_digit_range | ->]; lia. }
  cbn [lit list_ascii_of_string map N_of_ascii startswith].
  cbn.
  repeat match goal with
         | |- context [(?k =? c)%N] => destruct (N.eqb_spec k c); [lia|]
         end.
  done.
Qed.

Lemma parse_int (n : Z) (rest : str) :
  number_stops rest = true ->
  parse_value 1 (str_of_int n ++ rest) = Ok (JInt n, rest).
Proof.
  intros Hrest.
  destruct (str_of_int_shape n) as (negative & Hs & Hn).
  pose proof (match_number_digits negative (Z.abs n) rest ltac:(lia) Hrest)
    as Hm.
  rewrite <- Hn, app_assoc, <- Hs in Hm.
  assert (Hc : exists c r, str_of_int n ++ rest = c :: r /\
                           (is_digit c = true \/ c = 45%N)).
  { rewrite Hs. destruct negative; [by eexists _, _; split; [|right]|].
    destruct (digits_of_shape (Z.abs n)) as (c & ds & -> & Hc & _); [lia|].
    eexists _, _. split; [done|]. by left. }
  apply parse_atom_number in Hm; [|done].
  destruct Hc as (c & r & Hcr & Hc). rewrite Hcr in *.
  cbn [parse_value].
  assert (Hr : (45 <= c <= 57)%N).
  { destruct Hc as [Hc%is_digit_range | ->]; lia. }
  repeat match goal with
         | |- context [(c =? ?k)%N] => destruct (N.eqb_spec c k); [lia|]
         end.
  done.
Qed.

(** *** Strings *)

Lemma hex4_escape (c : N) :
  (c < 32)%N -> hex4 48 48 (hex_char (c / 16)) (hex_char (c mod 16)) = Some c.
Proof.
  intros Hc. assert (Hn : (N.to_nat c < 32)%nat) by lia.
  rewrite <- (N2Nat.id c). generalize dependent (N.to_nat c). clear Hc.
  intros n Hn. do 32 (destruct n as [|n]; [reflexivity|]). lia.
Qed.

Lemma scanstring_escape_char (c : N) (s acc : str) :
  scanstring (escape_char c ++ s) acc = scanstring s (c :: acc).
Proof.
  unfold escape_char.
  destruct (N.eqb_spec c 34) as [->|H34]; [done|].
  destruct (N.eqb_spec c 92) as [->|H92]; [done|].
  destruct (N.eqb_spec c 10) as [->|_]; [done|].
  destruct (N.eqb_spec c 13) as [->|_]; [done|].
  destruct (N.eqb_spec c 9) as [->|_]; [done|].
  destruct (N.eqb_spec c 8) as [->|_]; [done|].
  destruct (N.eqb_spec c 12) as [->|_]; [done|].
  destruct (N.ltb_spec c 32) as [Hlt|Hge].
  - cbn [app scanstring].
    change (92 =? 34)%N with false. change (92 =? 92)%N with true.
    change (117 =? 117)%N with true. cbv iota.
    rewrite hex4_escape by done.
    replace ((55296 <=? c)%N) with false; [done|].
    symmetry. apply N.leb_gt. lia.
  - cbn [app scanstring].
    destruct (N.eqb_spec c 34); [done|]. destruct (N.eqb_spec c 92); [done|].
    destruct (N.ltb_spec c 32); [lia|done].
Qed.

Lemma scanstring_escaped (s rest : str) : forall acc,
  scanstring (flat_map escape_char s ++ 34%N :: rest) acc
  = Ok (rev acc ++ s, rest).
Proof.
  induction s as [|c s IH]; intros acc.
  - cbn. by rewrite app_nil_r.
  - cbn [flat_map]. rewrite <- app_assoc, scanstring_escape_char, IH.
    cbn [rev]. by rewrite <- app_assoc.
Qed.

Lemma parse_string (s rest : str) :
  parse_value 1 (encode_basestring s ++ rest) = Ok (JStr s, rest).
Proof.
  unfold encode_basestring. cbn [app parse_value].
  change (34 =? 34)%N with true. cbv iota.
  rewrite <- app_assoc. cbn [app]. by rewrite scanstring_escaped.
Qed.

(** *** White space *)

Lemma skip_ws_start (text rest : str) :
  starts_value text -> skip_ws (text ++ rest) = text ++ rest.
Proof.
  intros (c & r & -> & Hc). cbn [app]. apply skip_ws_head.
  unfold value_start in Hc. rewrite negb_true_iff, !orb_false_iff in Hc.
  tauto.
Qed.

Lemma skip_ws_spaces (n : nat) (s : str) :
  skip_ws (repeat 32%N n ++ s) = skip_ws s.
Proof. induction n as [|n IH]; [done|]. cbn. exact IH. Qed.

Lemma skip_ws_indent (level : nat) (s : str) :
  skip_ws (newline_indent level ++ s) = skip_ws s.
Proof. unfold newline_indent. cbn [app skip_ws]. apply skip_ws_spaces. Qed.

Lemma starts_value_not_closing (text rest : str) :
  starts_value text -> expect 93 (text ++ rest) = None.
Proof.
  intros (c & r & -> & Hc). cbn [app expect].
  unfold value_start in Hc. rewrite negb_true_iff, !orb_false_iff in Hc.
  destruct Hc as [[_ ->] _]. done.
Qed.


(** *** Fuel *)

(** A result that is not [OutOfFuel] is the same with more fuel. *)
Lemma parse_more_fuel (fuel : nat) :
  (forall s r, parse_value fuel s = r -> r <> Err OutOfFuel ->
     parse_value (S fuel) s = r) /\
  (forall s values r, array_loop fuel s values = r -> r <> Err OutOfFuel ->
     array_loop (S fuel) s values = r) /\
  (forall s pairs r, object_loop fuel s pairs = r -> r <> Err OutOfFuel ->
     object_loop (S fuel) s pairs = r).
Proof.
  induction fuel as [|fuel (IHv & IHa & IHo)].
  { repeat split; intros; by subst. }
  split; [|split].
  - intros s r <-. cbn [parse_value].
    destruct s as [|c r0]; [done|].
    destruct (c =? 34)%N; [done|].
    destruct (c =? 123)%N.
    { destruct (expect 34 r0); [intros; by apply IHo|].
      destruct (expect 125 (skip_ws r0)); [done|].
      destruct (expect 34 (skip_ws r0)); [intros; by apply IHo|done]. }
    destruct (c =? 91)%N; [|done].
    destruct (expect 93 (skip_ws r0)); [done|]. intros; by apply IHa.
  - intros s values r <-. cbn [array_loop].
    destruct (parse_value fuel s) as [[value rest]|e] eqn:Hp.
    + rewrite (IHv _ _ Hp) by done.
      destruct (expect 93 (skip_ws rest)); [done|].
      destruct (expect 44 (skip_ws rest)); [|done]. intros; by apply IHa.
    + intros He. rewrite (IHv _ _ Hp); [done|]. congruence.
  - intros s pairs r <-. cbn [object_loop].
    destruct (scanstring s []) as [[key rest]|e]; [|done].
    destruct (expect 58 (skip_ws rest)) as [rest1|]; [|done].
    destruct (parse_value fuel (skip_ws rest1)) as [[value rest2]|e] eqn:Hp.
    + rewrite (IHv _ _ Hp) by done.
      destruct (expect 125 (skip_ws rest2)); [done|].
      destruct (expect 44 (skip_ws rest2)) as [rest3|]; [|done].
      destruct (expect 34 (skip_ws rest3)); [|done]. intros; by apply IHo.
    + intros He. rewrite (IHv _ _ Hp); [done|]. congruence.
Qed.

Lemma parse_value_fuel_le (fuel fuel' : nat) (s : str) (found : json * str) :
  (fuel <= fuel')%nat -> parse_value fuel s = Ok found ->
  parse_value fuel' s = Ok found.
Proof.
  induction 1 as [|fuel' _ IH]; [done|]. intros H.
  by apply (proj1 (parse_more_fuel fuel')); [apply IH|].
Qed.

Lemma array_loop_fuel_le (fuel fuel' : nat) (s : str) (values : list json)
    (found : json * str) :
  (fuel <= fuel')%nat -> array_loop fuel s values = Ok found ->
  array_loop fuel' s values = Ok found.
Proof.
  induction 1 as [|fuel' _ IH]; [done|]. intros H.
  by apply (proj1 (proj2 (parse_more_fuel fuel'))); [apply IH|].
Qed.

Lemma object_loop_fuel_le (fuel fuel' : nat) (s : str)
    (pairs : list (str * json)) (found : json * str) :
  (fuel <= fuel')%nat -> object_loop fuel s pairs = Ok found ->
  object_loop fuel' s pairs = Ok found.
Proof.
  induction 1 as [|fuel' _ IH]; [done|]. intros H.
  by apply (proj2 (proj2 (parse_more_fuel fuel'))); [apply IH|].
Qed.

(** What some fuel finds, any fuel that is enough finds. *)
Lemma parse_value_any_fuel (fuel fuel' : nat) (s : str)
    (found : json * str) :
  parse_value fuel s = Ok found -> parse_value fuel' s <> Err OutOfFuel ->
  parse_value fuel' s = Ok found.
Proof.
  intros H Hne. destruct (Nat.le_gt_cases fuel fuel') as [Hle|Hgt].
  { by apply (parse_value_fuel_le fuel). }
  rewrite <- H. symmetry.
  assert (Hle : (fuel' <= fuel)%nat) by lia. clear Hgt H.
  induction Hle as [|fuel _ IH]; [done|].
  by apply (proj1 (parse_more_fuel fuel)).
Qed.


(** *** Dicts *)

Lemma dict_set_fresh (k : str) (v : json) (d : list (str * json)) :
  k ∉ d.*1 -> dict_set k v d = d ++ [(k, v)].
Proof.
  induction d as [|[k' v'] d IH]; [done|]. cbn [fmap list_fmap fst].
  intros [Hk Hd]%not_elem_of_cons. cbn [dict_set app].
  destruct (decide (k' = k)) as [->|_]; [done|]. by rewrite IH.
Qed.

Lemma dict_fold (pairs : list (str * json)) : forall d,
  NoDup (d.*1 ++ pairs.*1) ->
  fold_left (fun d kv => dict_set kv.1 kv.2 d) pairs d = d ++ pairs.
Proof.
  induction pairs as [|[k v] pairs IH]; intros d Hnd.
  { by rewrite app_nil_r. }
  cbn [fold_left fst snd]. cbn [fmap list_fmap fst] in Hnd.
  apply NoDup_app in Hnd as Hnd'. destruct Hnd' as (_ & Hdis & _).
  rewrite dict_set_fresh.
  - rewrite IH; [by rewrite <- app_assoc|].
    rewrite fmap_app. cbn [fmap list_fmap fst]. by rewrite <- app_assoc.
  - intros Hk. apply (Hdis k Hk). by left.
Qed.

Lemma dict_distinct (pairs : list (str * json)) :
  NoDup pairs.*1 -> dict pairs = pairs.
Proof. intros Hnd. unfold dict. by rewrite dict_fold. Qed.

(** *** Values *)

Section NestedInduction.

Variable P : json -> Prop.
Hypothesis HNull : P JNull.
Hypothesis HBool : forall b, P (JBool b).
Hypothesis HInt : forall n, P (JInt n).
Hypothesis HFloat : forall lexeme, P (JFloat lexeme).
Hypothesis HNaN : P JNaN.
Hypothesis HInfinity : forall negative, P (JInfinity negative).
Hypothesis HStr : forall s, P (JStr s).
Hypothesis HArr : forall items, Forall P items -> P (JArr items).
Hypothesis HObj :
  forall pairs, Forall (fun kv => P kv.2) pairs -> P (JObj pairs).

Lemma json_nested_ind : forall v, P v.
Proof using All.
  fix IH 1. intros [ |b|n|lexeme| |negative|s|items|pairs].
  - apply HNull.
  - apply HBool.
  - apply HInt.
  - apply HFloat.
  - apply HNaN.
  - apply HInfinity.
  - apply HStr.
  - apply HArr. induction items as [|x items IHl]; constructor;
      [apply IH|apply IHl].
  - apply HObj. induction pairs as [|[k x] pairs IHl]; constructor;
      [apply IH|apply IHl].
Qed.

End NestedInduction.

(** A value that holds no float, with dicts whose keys are distinct (as
    the keys of a Python dict are). *)
Fixpoint plain_data (v : json) : bool :=
  match v with
  | JFloat _ => false
  | JArr items => forallb plain_data items
  | JObj pairs =>
      bool_decide (NoDup pairs.*1)
      && forallb (fun '(_, value) => plain_data value) pairs
  | _ => true
  end.

Definition no_cr (text : str) : Prop := Forall (fun c => c <> 13%N) text.

Lemma no_cr_digits (ds : str) :
  Forall (fun c => is_digit c = true) ds -> no_cr ds.
Proof.
  intros H. eapply Forall_impl; [exact H|].
  intros c Hc%is_digit_range. lia.
Qed.

Lemma no_cr_str_of_int (n : Z) : no_cr (str_of_int n).
Proof.
  destruct (str_of_int_shape n) as (negative & -> & _).
  apply Forall_app. split; [by destruct negative; repeat constructor|].
  apply no_cr_digits. apply digits_of_spec. lia.
Qed.

Lemma no_cr_escape_char (c : N) : no_cr (escape_char c).
Proof.
  unfold escape_char.
  repeat match goal with
         | |- context [(c =? ?k)%N] =>
             destruct (N.eqb_spec c k) as [->|?]; [by repeat constructor|]
         end.
  destruct (N.ltb_spec c 32) as [Hlt|_]; [|by repeat constructor].
  assert (Hh : forall d, hex_char d <> 13%N).
  { intros d. unfold hex_char. destruct (N.ltb_spec d 10); lia. }
  by repeat constructor.
Qed.

Lemma no_cr_basestring (s : str) : no_cr (encode_basestring s).
Proof.
  unfold encode_basestring. constructor; [done|].
  apply Forall_app. split; [|by repeat constructor].
  induction s as [|c s IH]; [constructor|].
  cbn [flat_map]. apply Forall_app. split; [apply no_cr_escape_char|done].
Qed.

Lemma no_cr_indent (level : nat) : no_cr (newline_indent level).
Proof.
  constructor; [done|]. apply Forall_forall.
  intros c Hc%list_elem_of_In%repeat_spec. by subst.
Qed.


Section ReadsBack.

Variable float_repr : str -> str.

Lemma iterencode_list (level : nat) (value : json) (lst : list json) :
  iterencode float_repr level (JArr (value :: lst))
  = match iterencode float_repr (S level) value,
          list_rest float_repr level lst with
    | Some first, Some chunks =>
        Some (91%N :: newline_indent (S level) ++ first ++ chunks)
    | _, _ => None
    end.
Proof.
  cbn [iterencode].
  destruct (iterencode float_repr (S level) value) as [first|]; [|done].
  match goal with
  | |- match ?f lst with _ => _ end = _ =>
      assert (Hf : forall l, f l = list_rest float_repr level l)
  end.
  { induction l as [|x l IH]; [done|]. cbn [list_rest]. by rewrite <- IH. }
  by rewrite Hf.
Qed.

Lemma iterencode_dict (level : nat) (key : str) (value : json)
    (dct : list (str * json)) :
  iterencode float_repr level (JObj ((key, value) :: dct))
  = match iterencode float_repr (S level) value,
          dict_rest float_repr level dct with
    | Some first, Some chunks =>
        Some (123%N :: newline_indent (S level)
              ++ encode_basestring key ++ [58%N; 32%N] ++ first ++ chunks)
    | _, _ => None
    end.
Proof.
  cbn [iterencode].
  destruct (iterencode float_repr (S level) value) as [first|]; [|done].
  match goal with
  | |- match ?f dct with _ => _ end = _ =>
      assert (Hf : forall l, f l = dict_rest float_repr level l)
  end.
  { induction l as [|[k x] l IH]; [done|]. cbn [dict_rest]. by rewrite <- IH. }
  by rewrite Hf.
Qed.

(** The text written for [v] starts like a value, holds no carriage
    return and, before anything that ends a number, is read as [v]. *)
Definition reads_back (v : json) : Prop :=
  plain_data v = true ->
  forall level text rest,
    iterencode float_repr level v = Some text -> number_stops rest = true ->
    starts_value text /\ no_cr text /\
    exists fuel, parse_value fuel (text ++ rest) = Ok (v, rest).

Lemma literal_reads_back (v : json) (text : str) :
  (forall level, iterencode float_repr level v = Some text) ->
  starts_value text -> no_cr text ->
  (forall rest, parse_value 1 (text ++ rest) = Ok (v, rest)) ->
  reads_back v.
Proof.
  intros He Hs Hcr Hp _ level text' rest Ht _.
  rewrite He in Ht. injection Ht as <-. eauto.
Qed.

Lemma array_items_read_back (lst : list json) :
  Forall reads_back lst -> forallb plain_data lst = true ->
  forall level chunks rest values x text_x,
    reads_back x -> plain_data x = true ->
    iterencode float_repr (S level) x = Some text_x ->
    list_rest float_repr level lst = Some chunks ->
    no_cr chunks /\
    exists fuel,
      array_loop fuel (text_x ++ chunks ++ rest) values
      = Ok (JArr (rev values ++ x :: lst), rest).
Proof.
  induction 1 as [|y lst Hy _ IH]; intros Hplain level chunks rest values x
    text_x Hx Hpx Htx Hchunks.
  - cbn [list_rest] in Hchunks.
    assert (chunks = newline_indent level ++ [93%N]) as -> by congruence.
    split; [apply Forall_app; split; [apply no_cr_indent|by repeat constructor]|].
    destruct (Hx Hpx (S level) text_x ((newline_indent level ++ [93%N]) ++ rest)
                Htx eq_refl) as (_ & _ & fuel & Hp).
    exists (S fuel). cbn [array_loop]. rewrite Hp.
    rewrite <- app_assoc, skip_ws_indent. by cbn.
  - cbn [forallb] in Hplain. apply andb_true_iff in Hplain as [Hpy Hplain].
    cbn [list_rest] in Hchunks.
    destruct (iterencode float_repr (S level) y) as [chunk|] eqn:Hty;
      [|done].
    destruct (list_rest float_repr level lst) as [chunks'|] eqn:Hrest;
      [|done].
    assert (chunks = 44%N :: newline_indent (S level) ++ chunk ++ chunks')
      as -> by congruence.
    destruct (IH Hplain level chunks' rest (x :: values) y chunk Hy Hpy Hty
                Hrest) as (Hcr' & fuel' & Hloop).
    destruct (Hy Hpy (S level) chunk [] Hty eq_refl) as (Hsy & Hcry & _).
    split.
    { constructor; [done|]. repeat (apply Forall_app; split); try done.
      apply no_cr_indent. }
    destruct (Hx Hpx (S level) text_x
                ((44%N :: newline_indent (S level) ++ chunk ++ chunks') ++ rest)
                Htx eq_refl) as (_ & _ & fuel & Hp).
    exists (S (Nat.max fuel fuel')). cbn [array_loop].
    rewrite (parse_value_fuel_le fuel (Nat.max fuel fuel') _ _ ltac:(lia) Hp).
    cbn [app skip_ws is_ws N.eqb Pos.eqb orb expect].
    rewrite <- !app_assoc, skip_ws_indent, skip_ws_start by done.
    rewrite (array_loop_fuel_le fuel' (Nat.max fuel fuel') _ _ _ ltac:(lia) Hloop).
    cbn [rev]. by rewrite <- app_assoc.
Qed.

Lemma object_items_read_back (dct : list (str * json)) :
  Forall (fun kv => reads_back kv.2) dct ->
  forallb (fun '(_, value) => plain_data value) dct = true ->
  forall level chunks rest pairs key x text_x,
    reads_back x -> plain_data x = true ->
    iterencode float_repr (S level) x = Some text_x ->
    dict_rest float_repr level dct = Some chunks ->
    no_cr chunks /\
    exists fuel,
      object_loop fuel
        (flat_map escape_char key
         ++ 34%N :: 58%N :: 32%N :: text_x ++ chunks ++ rest) pairs
      = Ok (JObj (dict (rev pairs ++ (key, x) :: dct)), rest).
Proof.
  induction 1 as [|[key' y] dct Hy _ IH]; intros Hplain level chunks rest
    pairs key x text_x Hx Hpx Htx Hchunks.
  - cbn [dict_rest] in Hchunks.
    assert (chunks = newline_indent level ++ [125%N]) as -> by congruence.
    split; [apply Forall_app; split; [apply no_cr_indent|by repeat constructor]|].
    destruct (Hx Hpx (S level) text_x ((newline_indent level ++ [125%N]) ++ rest)
                Htx eq_refl) as (Hsx & _ & fuel & Hp).
    exists (S fuel). cbn [object_loop]. rewrite scanstring_escaped.
    cbn [rev app skip_ws is_ws N.eqb Pos.eqb orb expect].
    rewrite skip_ws_start by done. rewrite Hp.
    rewrite <- app_assoc, skip_ws_indent. by cbn.
  - cbn [forallb] in Hplain. apply andb_true_iff in Hplain as [Hpy Hplain].
    cbn [snd] in Hy. cbn [dict_rest] in Hchunks.
    destruct (iterencode float_repr (S level) y) as [chunk|] eqn:Hty;
      [|done].
    destruct (dict_rest float_repr level dct) as [chunks'|] eqn:Hrest;
      [|done].
    assert (chunks = 44%N :: newline_indent (S level)
                     ++ encode_basestring key' ++ [58%N; 32%N] ++ chunk
                     ++ chunks') as -> by congruence.
    destruct (IH Hplain level chunks' rest ((key, x) :: pairs) key' y chunk
                Hy Hpy Hty Hrest) as (Hcr' & fuel' & Hloop).
    destruct (Hy Hpy (S level) chunk [] Hty eq_refl) as (_ & Hcry & _).
    split.
    { constructor; [done|]. repeat (apply Forall_app; split); try done.
      - apply no_cr_indent.
      - apply no_cr_basestring.
      - by repeat constructor. }
    destruct (Hx Hpx (S level) text_x
                ((44%N :: newline_indent (S level)
                  ++ encode_basestring key' ++ [58%N; 32%N] ++ chunk
                  ++ chunks') ++ rest)
                Htx eq_refl) as (Hsx & _ & fuel & Hp).
    exists (S (Nat.max fuel fuel')). cbn [object_loop].
    rewrite scanstring_escaped.
    cbn [rev app skip_ws is_ws N.eqb Pos.eqb orb expect].
    rewrite skip_ws_start by done. cbn [app] in Hp.
    rewrite (parse_value_fuel_le fuel (Nat.max fuel fuel') _ _ ltac:(lia) Hp).
    cbn [app skip_ws is_ws N.eqb Pos.eqb orb expect].
    rewrite <- !app_assoc, skip_ws_indent.
    unfold encode_basestring.
    cbn [app skip_ws is_ws N.eqb Pos.eqb orb expect].
    rewrite <- !app_assoc. cbn [app].
    rewrite (object_loop_fuel_le fuel' (Nat.max fuel fuel') _ _ _ ltac:(lia) Hloop).
    cbn [rev]. by rewrite <- app_assoc.
Qed.

Lemma plain_data_reads_back : forall v, reads_back v.
Proof.
  apply json_nested_ind.
  - apply (literal_reads_back _ (lit "null")); try done.
    + by eexists _, _.
    + by repeat constructor.
  - intros [].
    + apply (literal_reads_back _ (lit "true")); try done.
      * by eexists _, _.
      * by repeat constructor.
    + apply (literal_reads_back _ (lit "false")); try done.
      * by eexists _, _.
      * by repeat constructor.
  - intros n _ level text rest Ht Hrest. cbn [iterencode] in Ht.
    unfold int_repr in Ht.
    destruct (MAX_STR_DIGITS <? len (digits_of (Z.abs n))); [done|].
    assert (text = str_of_int n) as -> by congruence.
    split; [apply str_of_int_start|]. split; [apply no_cr_str_of_int|].
    exists 1%nat. by apply parse_int.
  - by intros lexeme Hp.
  - apply (literal_reads_back _ (lit "NaN")); try done.
    + by eexists _, _.
    + by repeat constructor.
  - intros [].
    + apply (literal_reads_back _ (lit "-Infinity")); try done.
      * by eexists _, _.
      * by repeat constructor.
    + apply (literal_reads_back _ (lit "Infinity")); try done.
      * by eexists _, _.
      * by repeat constructor.
  - intros s. apply (literal_reads_back _ (encode_basestring s)); try done.
    + by eexists _, _.
    + apply no_cr_basestring.
    + apply parse_string.
  - intros [|x lst] Hitems Hplain level text rest Ht Hrest.
    { cbn [iterencode] in Ht. assert (text = lit "[]") as -> by congruence.
      split; [by eexists _, _|]. split; [by repeat constructor|].
      by exists 1%nat. }
    rewrite iterencode_list in Ht. apply Forall_cons in Hitems as [Hx Hlst].
    cbn [plain_data forallb] in Hplain.
    apply andb_true_iff in Hplain as [Hpx Hplain].
    destruct (iterencode float_repr (S level) x) as [first|] eqn:Hfirst;
      [|done].
    destruct (list_rest float_repr level lst) as [chunks|] eqn:Hchunks;
      [|done].
    assert (text = 91%N :: newline_indent (S level) ++ first ++ chunks)
      as -> by congruence.
    destruct (array_items_read_back lst Hlst Hplain level chunks rest [] x
                first Hx Hpx Hfirst Hchunks) as (Hcr & fuel & Hloop).
    destruct (Hx Hpx (S level) first [] Hfirst eq_refl) as (Hsx & Hcrx & _).
    split; [by eexists _, _|]. split.
    { constructor; [done|]. repeat (apply Forall_app; split); try done.
      apply no_cr_indent. }
    exists (S fuel). cbn [app parse_value N.eqb Pos.eqb].
    rewrite <- !app_assoc, skip_ws_indent, skip_ws_start by done.
    by rewrite starts_value_not_closing.
  - intros [|[key x] dct] Hitems Hplain level text rest Ht Hrest.
    { cbn [iterencode] in Ht. assert (text = lit "{}") as -> by congruence.
      split; [by eexists _, _|]. split; [by repeat constructor|].
      by exists 1%nat. }
    rewrite iterencode_dict in Ht. apply Forall_cons in Hitems as [Hx Hdct].
    cbn [plain_data forallb] in Hplain.
    apply andb_true_iff in Hplain as [Hnd Hplain].
    apply bool_decide_eq_true in Hnd.
    apply andb_true_iff in Hplain as [Hpx Hplain]. cbn [snd] in Hx.
    destruct (iterencode float_repr (S level) x) as [first|] eqn:Hfirst;
      [|done].
    destruct (dict_rest float_repr level dct) as [chunks|] eqn:Hchunks;
      [|done].
    assert (text = 123%N :: newline_indent (S level)
                   ++ encode_basestring key ++ [58%N; 32%N] ++ first
                   ++ chunks) as -> by congruence.
    destruct (object_items_read_back dct Hdct Hplain level chunks rest [] key
                x first Hx Hpx Hfirst Hchunks) as (Hcr & fuel & Hloop).
    destruct (Hx Hpx (S level) first [] Hfirst eq_refl) as (Hsx & Hcrx & _).
    split; [by eexists _, _|]. split.
    { constructor; [done|]. repeat (apply Forall_app; split); try done.
      - apply no_cr_indent.
      - apply no_cr_basestring.
      - by repeat constructor. }
    exists (S fuel). cbn [app parse_value N.eqb Pos.eqb].
    rewrite <- !app_assoc.
    replace (expect 34 (newline_indent (S level)
               ++ encode_basestring key ++ [58%N; 32%N] ++ first ++ chunks
               ++ rest)) with (@None str) by done.
    rewrite skip_ws_indent. unfold encode_basestring.
    cbn [app skip_ws is_ws N.eqb Pos.eqb orb expect].
    rewrite <- !app_assoc. cbn [app]. rewrite Hloop.
    cbn [rev app]. by rewrite dict_distinct.
Qed.

(** What [json.dumps] writes for plain data, [json.loads] reads as that
    data. *)
Lemma dumps_loads (obj : json) (text : str) :
  plain_data obj = true -> dumps float_repr obj = Some text ->
  no_cr text /\ starts_value text /\ loads text = Ok obj.
Proof.
  intros Hplain Hd.
  destruct (plain_data_reads_back obj Hplain 0%nat text [] Hd eq_refl)
    as (Hs & Hcr & fuel & Hp).
  rewrite app_nil_r in Hp. split; [done|]. split; [done|].
  pose proof (skip_ws_start text [] Hs) as Hws. rewrite app_nil_r in Hws.
  unfold loads. rewrite Hws.
  destruct Hs as (c & r & -> & Hc).
  unfold value_start in Hc. rewrite negb_true_iff, !orb_false_iff in Hc.
  destruct Hc as [_ Hbom]. cbn [startswith].
  rewrite N.eqb_sym, Hbom. cbn [andb].
  rewrite (parse_value_any_fuel fuel _ _ _ Hp); [done|].
  apply (proj1 (parse_fuel _)). unfold fuel_for. lia.
Qed.

End ReadsBack.

End DumpFacts.

(** ** [utils/data_utils.py]: the data file *)

Module DataFile.

Import Text Json Dump DumpFacts.
Local Open Scope N_scope.

(** A file as [open(encoding="utf-8")] sees it: absent, holding bytes
    that are no UTF-8, or holding the encoding of a text. *)
Inductive file : Type :=
  | Missing
  | Undecodable
  | Content (text : str).

(** What reading in text mode does to line ends: [\r\n] and [\r] become
    [\n]. *)
Fixpoint universal_newlines (s : str) : str :=
  match s with
  | [] => []
  | c :: r =>
      if c =? 13 then
        10 :: match r with
              | d :: r' =>
                  if d =? 10 then universal_newlines r'
                  else universal_newlines r
              | [] => []
              end
      else c :: universal_newlines r
  end.

(** [json.load(f)] on a file that holds [text].  [Json.loads] has no
    limit on the digits of an integer literal, where Python raises a
    [ValueError] beyond 4300, which [load_existing_data] answers with
    the empty list. *)
Definition json_load (text : str) : result json json_error :=
  loads (universal_newlines text).

(** A character that UTF-8 cannot encode. *)
Definition surrogate (c : N) : bool := (55296 <=? c) && (c <=? 57343).

Definition _normalize_loaded_json (data : json) : list json :=
  match data with
  | JArr items => items
  | JObj _ => [data]
  | _ => []
  end.

Section DataFile.

Variable float_repr : str -> str.

(** [save_json_file(filepath, data)]: the text that the file holds when
    the function returns [True]; [None] when it returns [False], because
    [json.dump] raised or a character could not be encoded (the file has
    then been truncated and holds part of the text at most).  Errors of
    the file system are left out. *)
Definition save_json_file (data : json) : option str :=
  match dumps float_repr data with
  | Some text => if existsb surrogate text then None else Some text
  | None => None
  end.

(** What [load_existing_data] returns, and the outcome of the call of
    [save_json_file] that it makes, if it makes one. *)
Record loaded : Type := mk_loaded {
  entities : list json;
  rewritten : option (option str)
}.

Definition load_existing_data (f : file) : loaded :=
  match f with
  | Missing | Undecodable => mk_loaded [] None
  | Content text =>
      match json_load text with
      | Ok data => mk_loaded (_normalize_loaded_json data) None
      | Err UnexpectedBOM =>
          (* decoded again as utf-8-sig, which drops the mark *)
          match json_load (drop 1 text) with
          | Ok data =>
              let normalized := _normalize_loaded_json data in
              mk_loaded normalized (Some (save_json_file (JArr normalized)))
          | Err _ => mk_loaded [] None
          end
      | Err _ => mk_loaded [] None
      end
  end.

Lemma universal_newlines_no_cr (text : str) :
  no_cr text -> universal_newlines text = text.
Proof.
  induction 1 as [|c text Hc _ IH]; [done|]. cbn [universal_newlines].
  destruct (N.eqb_spec c 13); [done|]. by rewrite IH.
Qed.

Lemma saved_loads_back (data : json) (text : str) :
  plain_data data = true -> save_json_file data = Some text ->
  load_existing_data (Content text)
  = mk_loaded (_normalize_loaded_json data) None /\
  head text <> Some 65279.
Proof.
  intros Hplain Hsave. unfold save_json_file in Hsave.
  destruct (dumps float_repr data) as [text'|] eqn:Hd; [|done].
  destruct (existsb surrogate text'); [done|].
  assert (text' = text) as -> by congruence.
  destruct (dumps_loads float_repr data text Hplain Hd) as (Hcr & Hs & Hl).
  split.
  - unfold load_existing_data, json_load.
    by rewrite universal_newlines_no_cr, Hl.
  - destruct Hs as (c & r & -> & Hc). cbn [head]. intros [= ->]. done.
Qed.

End DataFile.

(** X24. What [save_json_file] has written, [load_existing_data] reads
    back: when a list of records without floats is saved and the function
    returns [True], loading the file returns the same list, and rewrites
    nothing. *)
Theorem saved_entities_load_back (float_repr : str -> str)
    (data : list json) (text : str) :
  plain_data (JArr data) = true ->
  save_json_file float_repr (JArr data) = Some text ->
  load_existing_data float_repr (Content text) = mk_loaded data None.
Proof.
  intros Hplain Hsave.
  by destruct (saved_loads_back float_repr (JArr data) text Hplain Hsave).
Qed.

Lemma saved_entities_load_back_witness :
  let data := [JObj [(lit "name", JStr (py "Ann's \'caf\\u00e9\'\n"));
                     (lit "id", JInt (-7)); (lit "tags", JArr [JNull])];
               JObj []] in
  exists text,
    save_json_file (fun lexeme => lexeme) (JArr data) = Some text /\
    load_existing_data (fun lexeme => lexeme) (Content text)
    = mk_loaded data None.
Proof.
  eexists. split; [vm_compute; reflexivity|].
  apply saved_entities_load_back; vm_compute; reflexivity.
Defined.

(** X25. A file that starts with a byte order mark is read without it
    and saved again, as a list: a file that held one object now holds a
    list of one.  When that save succeeds on data without floats, the
    file no longer starts with the mark, and loading it again returns the
    same list and rewrites nothing.  A second mark is not removed: the
    result is the empty list, and the file is left as it is. *)
Theorem load_existing_data_repairs_bom (float_repr : str -> str) :
  (forall text data,
     json_load text = Ok data ->
     let normalized := _normalize_loaded_json data in
     load_existing_data float_repr (Content (65279 :: text))
     = mk_loaded normalized
         (Some (save_json_file float_repr (JArr normalized))) /\
     (forall text',
        plain_data (JArr normalized) = true ->
        save_json_file float_repr (JArr normalized) = Some text' ->
        head text' <> Some 65279 /\
        load_existing_data float_repr (Content text')
        = mk_loaded normalized None)) /\
  (forall text,
     load_existing_data float_repr (Content (65279 :: 65279 :: text))
     = mk_loaded [] None).
Proof.
  assert (Hbom : forall text,
            json_load (65279 :: text) = Err UnexpectedBOM).
  { intros text. unfold json_load. cbn [universal_newlines].
    change (65279 =? 13) with false. cbv iota. done. }
  split.
  - intros text data Hload normalized. split.
    + unfold load_existing_data. rewrite Hbom.
      change (drop 1 (65279 :: text)) with text. by rewrite Hload.
    + intros text' Hplain Hsave.
      destruct (saved_loads_back float_repr _ text' Hplain Hsave) as [Hl Hh].
      by split.
  - intros text. unfold load_existing_data.
    rewrite Hbom. change (drop 1 (65279 :: 65279 :: text)) with (65279 :: text).
    by rewrite Hbom.
Qed.

End DataFile.

(** ** [utils/helpers.py]: [safe_int] *)

Module SafeInt.

Import Text Json PyInt.

(** The characters of category Nd, which [int] reads as decimal digits:
    every range starts at a digit zero and holds whole runs of ten. *)
Definition decimal_ranges : list (N * N) :=
  [(48, 57); (1632, 1641); (1776, 1785); (1984, 1993); (2406, 2415);
   (2534, 2543); (2662, 2671); (2790, 2799); (2918, 2927); (3046, 3055);
   (3174, 3183); (3302, 3311); (3430, 3439); (3558, 3567); (3664, 3673);
   (3792, 3801); (3872, 3881); (4160, 4169); (4240, 4249); (6112, 6121);
   (6160, 6169); (6470, 6479); (6608, 6617); (6784, 6793); (6800, 6809);
   (6992, 7001); (7088, 7097); (7232, 7241); (7248, 7257); (42528, 42537);
   (43216, 43225); (43264, 43273); (43472, 43481); (43504, 43513);
   (43600, 43609); (44016, 44025); (65296, 65305); (66720, 66729);
   (68912, 68921); (69734, 69743); (69872, 69881); (69942, 69951);
   (70096, 70105); (70384, 70393); (70736, 70745); (70864, 70873);
   (71248, 71257); (71360, 71369); (71472, 71481); (71904, 71913);
   (72016, 72025); (72784, 72793); (73040, 73049); (73120, 73129);
   (92768, 92777); (92864, 92873); (93008, 93017); (120782, 120831);
   (123200, 123209); (123632, 123641); (125264, 125273); (130032, 130041)]%N.

(** [Py_UNICODE_TODECIMAL(c)] *)
Definition decimal_value (c : N) : option Z :=
  match List.find (fun r => (r.1 <=? c)%N && (c <=? r.2)%N) decimal_ranges with
  | Some r => Some (Z.of_N ((c - r.1) mod 10))
  | None => None
  end.

(** The white space that [int] skips at both ends of a text: the C
    white space in ASCII and the Unicode white space beyond. *)
Definition int_space (c : N) : bool :=
  if (c <? 127)%N then ((9 <=? c) && (c <=? 13) || (c =? 32))%N
  else isspace c.

Fixpoint skip_int_space (s : str) : str :=
  match s with
  | c :: r => if int_space c then skip_int_space r else s
  | [] => []
  end.

(** The two [ValueError]s of [int]: "invalid literal for int() with base
    10" and "Exceeds the limit (4300 digits) for integer string
    conversion". *)
Inductive int_error : Type :=
  | InvalidLiteral
  | ExceedsLimit.

(** The digits after the first, with single underscores between digits:
    the value, the number of digits and the text that follows. *)
Fixpoint scan_digits (s : str) (acc : Z) (digits : nat)
    : option (Z * nat * str) :=
  match s with
  | c :: r =>
      match decimal_value c with
      | Some d => scan_digits r (acc * 10 + d) (S digits)
      | None =>
          if (c =? 95)%N then
            match r with
            | c' :: r' =>
                match decimal_value c' with
                | Some d => scan_digits r' (acc * 10 + d) (S digits)
                | None => None
                end
            | [] => None
            end
          else Some (acc, digits, s)
      end
  | [] => Some (acc, digits, [])
  end.

(** [int(s)] for a [str]. *)
Definition py_int (s : str) : result Z int_error :=
  let s := skip_int_space s in
  let '(negative, s) :=
    match s with
    | c :: r =>
        if (c =? 45)%N then (true, r)
        else if (c =? 43)%N then (false, r) else (false, s)
    | [] => (false, s)
    end in
  match s with
  | c :: r =>
      match decimal_value c with
      | Some d =>
          match scan_digits r d 1 with
          | Some (value, digits, rest) =>
              if MAX_STR_DIGITS <? Z.of_nat digits then Err ExceedsLimit
              else
                match skip_int_space rest with
                | [] => Ok (if negative then - value else value)
                | _ :: _ => Err InvalidLiteral
                end
          | None => Err InvalidLiteral
          end
      | None => Err InvalidLiteral
      end
  | [] => Err InvalidLiteral
  end.

(** The argument of [safe_int]: [None], a [bool], an [int], a [str] or
    anything else. *)
Inductive value : Type :=
  | VNone
  | VBool (b : bool)
  | VInt (n : Z)
  | VStr (s : str)
  | VOther.

Inductive safe_int_error : Type :=
  | CannotConvertNone              (* "Cannot convert None to int" *)
  | CannotConvert                  (* "Cannot convert value '...' to int" *)
  | IntRaised (e : int_error).

(** [s.isdigit()] *)
Definition all_digits (s : str) : bool :=
  match s with
  | [] => false
  | _ :: _ => forallb Format.isdigit s
  end.

(** [[
def safe_int(value: Any) -> int:
    if value is None:
        raise ValueError("Cannot convert None to int")
    if isinstance(value, int):
        return value
    if isinstance(value, str):
        stripped = value.strip()
        if stripped.isdigit() or (stripped.startswith("-") and stripped[1:].isdigit()):
            return int(stripped)
    raise ValueError(f"Cannot convert value '{value}' to int")
]]
    A [bool] is an [int], and is returned as it is. *)
Definition safe_int (value : value) : result Z safe_int_error :=
  match value with
  | VNone => Err CannotConvertNone
  | VBool b => Ok (if b then 1 else 0)
  | VInt n => Ok n
  | VStr s =>
      let stripped := strip s in
      if all_digits stripped
         || (startswith (lit "-") stripped && all_digits (drop 1 stripped))
      then match py_int stripped with
           | Ok n => Ok n
           | Err e => Err (IntRaised e)
           end
      else Err CannotConvert
  | VOther => Err CannotConvert
  end.

Import DumpFacts TextFacts.

Lemma decimal_value_ascii (c : N) :
  is_digit c = true -> decimal_value c = Some (Z.of_N (c - 48)).
Proof.
  intros Hc. unfold decimal_value, decimal_ranges. cbn [List.find fst snd].
  unfold is_digit in Hc. rewrite Hc. apply is_digit_range in Hc.
  f_equal. f_equal. apply N.mod_small. lia.
Qed.

Lemma isdigit_ascii (c : N) : is_digit c = true -> Format.isdigit c = true.
Proof.
  intros Hc. unfold Format.isdigit, Format.digit_ranges.
  cbn [existsb fst snd]. unfold is_digit in Hc. by rewrite Hc.
Qed.

(** A digit or a minus sign is no white space, for [strip] and for
    [int]. *)
Lemma sign_digit_no_space (c : N) :
  (45 <= c <= 57)%N -> isspace c = false /\ int_space c = false.
Proof.
  intros Hc. unfold int_space, isspace.
  repeat match goal with
         | |- context [(?a <=? ?b)%N] => destruct (N.leb_spec a b); try lia
         | |- context [(?a =? ?b)%N] => destruct (N.eqb_spec a b); try lia
         | |- context [(?a <? ?b)%N] => destruct (N.ltb_spec a b); try lia
         end; done.
Qed.

Lemma scan_digits_ascii (ds : str) : forall acc digits,
  Forall (fun c => is_digit c = true) ds ->
  scan_digits ds acc digits
  = Some (fold_left (fun acc c => acc * 10 + Z.of_N (c - 48)) ds acc,
          (digits + length ds)%nat, []).
Proof.
  induction ds as [|c ds IH]; intros acc digits Hds.
  { cbn. by rewrite Nat.add_0_r. }
  apply Forall_cons in Hds as [Hc Hds].
  cbn [scan_digits fold_left length]. rewrite decimal_value_ascii by done.
  rewrite IH by done. do 2 f_equal. f_equal. lia.
Qed.

Lemma py_int_digits (negative : bool) (n : Z) :
  0 <= n -> len (digits_of n) <= MAX_STR_DIGITS ->
  py_int ((if negative then [45%N] else []) ++ digits_of n)
  = Ok (if negative then - n else n).
Proof.
  intros Hn Hlen.
  destruct (digits_of_shape n Hn) as (c & ds & Heq & Hc & Hds & Hv & _).
  rewrite Heq in *. apply is_digit_range in Hc as Hr.
  assert (Hbody : forall negative' : bool,
            match c :: ds with
            | c :: r =>
                match decimal_value c with
                | Some d =>
                    match scan_digits r d 1 with
                    | Some (value, digits, rest) =>
                        if MAX_STR_DIGITS <? Z.of_nat digits
                        then Err ExceedsLimit
                        else
                          match skip_int_space rest with
                          | [] => Ok (if negative' then - value else value)
                          | _ :: _ => Err InvalidLiteral
                          end
                    | None => Err InvalidLiteral
                    end
                | None => Err InvalidLiteral
                end
            | [] => Err InvalidLiteral
            end = Ok (if negative' then - n else n)).
  { intros negative'. rewrite decimal_value_ascii, scan_digits_ascii by done.
    unfold len in Hlen. cbn [length] in Hlen.
    destruct (Z.ltb_spec MAX_STR_DIGITS (Z.of_nat (1 + length ds)));
      [lia|].
    cbn [skip_int_space]. unfold digits_value in Hv. cbn [fold_left] in Hv.
    by rewrite Z.add_0_l in Hv; rewrite Hv. }
  unfold py_int. destruct negative.
  - cbn [app skip_int_space]. change (int_space 45) with false. cbv iota.
    change (45 =? 45)%N with true. cbv iota. exact (Hbody true).
  - cbn [app skip_int_space].
    destruct (sign_digit_no_space c ltac:(lia)) as [_ ->].
    destruct (N.eqb_spec c 45); [lia|]. destruct (N.eqb_spec c 43); [lia|].
    exact (Hbody false).
Qed.

Lemma str_of_int_strip (n : Z) (ws1 ws2 : str) :
  Forall (fun c => isspace c = true) ws1 ->
  Forall (fun c => isspace c = true) ws2 ->
  strip (ws1 ++ str_of_int n ++ ws2) = str_of_int n.
Proof.
  intros H1 H2.
  assert (Hchars : Forall (fun c => (45 <= c <= 57)%N) (str_of_int n)).
  { destruct (str_of_int_shape n) as (negative & -> & _).
    apply Forall_app. split; [destruct negative; repeat constructor; lia|].
    destruct (digits_of_spec (Z.abs n) ltac:(lia)) as (_ & Hd & _).
    eapply Forall_impl; [exact Hd|]. intros c Hc%is_digit_range. lia. }
  destruct (str_of_int_start n) as (c & r & Heq & _).
  rewrite Heq in *. apply Forall_cons in Hchars as Hh. destruct Hh as [Hc _].
  unfold strip. rewrite lstrip_spaces by done. cbn [app].
  rewrite lstrip_nonspace by (by apply sign_digit_no_space).
  destruct (exists_last (l := c :: r) ltac:(done)) as (front & z & Hlast).
  rewrite Hlast in Hchars. apply Forall_app in Hchars as [_ Hz].
  apply Forall_cons in Hz as [Hz _].
  change (c :: r ++ ws2) with ((c :: r) ++ ws2).
  rewrite Hlast, <- app_assoc. cbn [app].
  apply rstrip_app_nonspace; [by apply sign_digit_no_space|done].
Qed.

End SafeInt.

Module SafeIntFacts.

(** X26. [safe_int] reads back what [str] writes: for every integer
    that [str] can write, the text, with any white space around it, is
    converted to that integer. *)
Theorem safe_int_reads_str (n : Z) (text ws1 ws2 : Text.str) :
  PyInt.int_repr n = Some text ->
  Forall (fun c => Text.isspace c = true) ws1 ->
  Forall (fun c => Text.isspace c = true) ws2 ->
  SafeInt.safe_int (SafeInt.VStr (ws1 ++ text ++ ws2)) = Ok n.
Proof.
  intros Hrepr H1 H2. unfold PyInt.int_repr in Hrepr.
  destruct (Z.ltb_spec PyInt.MAX_STR_DIGITS
              (Text.len (PyInt.digits_of (Z.abs n)))) as [|Hlen]; [done|].
  assert (text = PyInt.str_of_int n) as -> by congruence.
  unfold SafeInt.safe_int. cbv zeta.
  rewrite SafeInt.str_of_int_strip by done.
  destruct (DumpFacts.str_of_int_shape n) as (negative & Hs & Hn).
  destruct (DumpFacts.digits_of_spec (Z.abs n) ltac:(lia)) as (_ & Hd & _).
  assert (Hall : SafeInt.all_digits (PyInt.digits_of (Z.abs n)) = true).
  { destruct (DumpFacts.digits_of_shape (Z.abs n) ltac:(lia))
      as (c & ds & Heq & _).
    rewrite Heq in *. unfold SafeInt.all_digits. apply forallb_forall.
    intros x Hx%list_elem_of_In. apply SafeInt.isdigit_ascii.
    by apply (proj1 (Forall_forall _ _) Hd). }
  pose proof (SafeInt.py_int_digits negative (Z.abs n) ltac:(lia) Hlen) as Hp.
  rewrite <- Hs, <- Hn in Hp. rewrite Hp.
  rewrite Hs. destruct negative; cbn [app].
  - change (Text.startswith (Text.lit "-") (45%N :: PyInt.digits_of (Z.abs n)))
      with true.
    change (drop 1 (45%N :: PyInt.digits_of (Z.abs n)))
      with (PyInt.digits_of (Z.abs n)).
    rewrite Hall. by rewrite orb_true_r.
  - by rewrite Hall.
Qed.

Lemma safe_int_reads_str_witness :
  SafeInt.safe_int (SafeInt.VStr (Text.py " \t-42\n")) = Ok (-42).
Proof.
  apply (safe_int_reads_str (-42) (Text.lit "-42") (Text.py " \t")
           (Text.py "\n")).
  - vm_compute. reflexivity.
  - repeat constructor.
  - repeat constructor.
Defined.

End SafeIntFacts.

(** ** [utils/data_utils.py]: [build_company_id_mapping] *)

Module Companies.

Import Text PyInt.

(** A generated company: the value under ["name"] ([None] when the key
    is absent; a name is text). *)
Record company : Type := mk_company {
  name : option str
}.

(** [f"Company {i+1}"]; an index has far fewer than 4300 digits. *)
Definition company_label (i : nat) : str :=
  lit "Company " ++ str_of_int (Z.of_nat i + 1).

(** [{f"Company {i+1}": i+1 for i in range(n)}] *)
Fixpoint company_names (n : nat) : gmap str Z :=
  match n with
  | O => ∅
  | S i => <[company_label i := Z.of_nat i + 1]> (company_names i)
  end.

(** [[
for idx, gen_company in enumerate(companies_list):
    gen_company_id = idx + 1
    company_name = gen_company.get("name", "").strip()
    actual_company_id = company_name_to_id.get(company_name)
    if actual_company_id:
        generated_to_actual[gen_company_id] = actual_company_id
]] *)
Fixpoint mapping_loop (company_name_to_id : gmap str Z) (idx : nat)
    (companies_list : list company) (generated_to_actual : gmap Z Z)
    : gmap Z Z :=
  match companies_list with
  | [] => generated_to_actual
  | gen_company :: rest =>
      let gen_company_id := Z.of_nat idx + 1 in
      let company_name := strip (default [] (name gen_company)) in
      mapping_loop company_name_to_id (S idx) rest
        match company_name_to_id !! company_name with
        | Some actual_company_id =>
            if actual_company_id =? 0 then generated_to_actual
            else <[gen_company_id := actual_company_id]> generated_to_actual
        | None => generated_to_actual
        end
  end.

(** The test [if companies_list:] around the loop changes nothing: the
    loop over an empty list does nothing. *)
Definition build_company_id_mapping (companies_list : list company)
    : gmap Z Z :=
  mapping_loop (company_names (length companies_list)) 0 companies_list ∅.

Example build_company_id_mapping_example :
  build_company_id_mapping
    [mk_company (Some (lit " Company 2 ")); mk_company (Some (lit "Acme"));
     mk_company None; mk_company (Some (lit "Company 4"))]
  = {[1 := 2; 4 := 4]}.
Proof. vm_compute. reflexivity. Qed.

Lemma str_of_int_inj (a b : Z) :
  0 <= a -> 0 <= b -> str_of_int a = str_of_int b -> a = b.
Proof.
  intros Ha Hb. unfold str_of_int.
  destruct (Z.ltb_spec a 0); [lia|]. destruct (Z.ltb_spec b 0); [lia|].
  intros Heq.
  destruct (DumpFacts.digits_of_spec a Ha) as [<- _].
  destruct (DumpFacts.digits_of_spec b Hb) as [<- _]. by rewrite Heq.
Qed.

Lemma company_names_lookup (n : nat) (key : str) (a : Z) :
  company_names n !! key = Some a <->
  1 <= a <= Z.of_nat n /\ key = lit "Company " ++ str_of_int a.
Proof.
  induction n as [|n IH].
  { cbn [company_names]. rewrite lookup_empty. split; [done|lia]. }
  cbn [company_names]. rewrite lookup_insert_Some, IH. unfold company_label.
  split.
  - intros [[<- <-]|[Hne [Hr ->]]]; (split; [lia|done]).
  - intros [Hr ->]. destruct (Z.eq_dec a (Z.of_nat n + 1)) as [->|Hne].
    + by left.
    + right. split; [|split; [lia|done]].
      intros Heq%app_inv_head%str_of_int_inj; lia.
Qed.

(** The identifier found for a company, if any. *)
Definition actual_of (company_name_to_id : gmap str Z) (c : company)
    : option Z :=
  match company_name_to_id !! strip (default [] (name c)) with
  | Some a => if a =? 0 then None else Some a
  | None => None
  end.

Lemma mapping_loop_lookup (names : gmap str Z)
    (companies_list : list company) :
  forall idx generated_to_actual g,
    (forall k, Z.of_nat idx < k -> generated_to_actual !! k = None) ->
    mapping_loop names idx companies_list generated_to_actual !! g
    = if decide (Z.of_nat idx < g)
      then companies_list !! Z.to_nat (g - Z.of_nat idx - 1)
           ≫= actual_of names
      else generated_to_actual !! g.
Proof.
  induction companies_list as [|c rest IH]; intros idx m g Hm.
  { cbn [mapping_loop]. destruct (decide _); [by rewrite Hm|done]. }
  cbn [mapping_loop].
  set (m' := match names !! strip (default [] (name c)) with
             | Some a => if a =? 0 then m else <[Z.of_nat idx + 1 := a]> m
             | None => m
             end).
  assert (Hm' : forall k, k <> Z.of_nat idx + 1 -> m' !! k = m !! k).
  { intros k Hk. subst m'.
    destruct (names !! strip (default [] (name c))) as [a|]; [|done].
    destruct (a =? 0); [done|]. by rewrite lookup_insert_ne. }
  rewrite IH by (intros k Hk; rewrite Hm' by lia; apply Hm; lia).
  destruct (decide (Z.of_nat (S idx) < g)) as [Hin|Hout].
  - destruct (decide _) as [_|]; [|lia].
    replace (Z.to_nat (g - Z.of_nat idx - 1))
      with (S (Z.to_nat (g - Z.of_nat (S idx) - 1))) by lia.
    done.
  - destruct (decide (Z.of_nat idx < g)) as [Hin|Hout'];
      [|apply Hm'; lia].
    assert (g = Z.of_nat idx + 1) as -> by lia.
    replace (Z.to_nat (Z.of_nat idx + 1 - Z.of_nat idx - 1)) with 0%nat
      by lia.
    cbn [lookup list_lookup mbind option_bind]. subst m'. unfold actual_of.
    destruct (names !! strip (default [] (name c))) as [a|];
      [|apply Hm; lia].
    destruct (a =? 0); [apply Hm; lia|by rewrite lookup_insert_eq].
Qed.

(** X27. [build_company_id_mapping] maps the generated identifier [g]
    (the position of a company, from 1) to [a] exactly when the trimmed
    name of that company is the text [Company a] for an [a] between 1
    and the number of companies.  A company with any other name, or
    without one, gets no entry. *)
Theorem build_company_id_mapping_by_label (companies_list : list company)
    (g a : Z) :
  build_company_id_mapping companies_list !! g = Some a <->
  1 <= g /\ 1 <= a <= Z.of_nat (length companies_list) /\
  exists c, companies_list !! Z.to_nat (g - 1) = Some c /\
            strip (default [] (name c)) = lit "Company " ++ str_of_int a.
Proof.
  unfold build_company_id_mapping.
  rewrite mapping_loop_lookup by (intros; apply lookup_empty).
  change (Z.of_nat 0) with 0. rewrite Z.sub_0_r.
  destruct (decide (0 < g)) as [Hg|Hg].
  - destruct (companies_list !! Z.to_nat (g - 1)) as [c|];
      cbn [mbind option_bind].
    + unfold actual_of.
      destruct (company_names (length companies_list)
                  !! strip (default [] (name c))) as [a'|] eqn:Hn.
      * apply company_names_lookup in Hn as [Hr Hkey].
        destruct (Z.eqb_spec a' 0); [lia|]. split.
        -- intros [= <-]. split; [lia|]. split; [done|]. by exists c.
        -- intros (_ & Hr' & c' & [= <-] & Hkey'). f_equal.
           rewrite Hkey in Hkey'. apply app_inv_head in Hkey'.
           apply str_of_int_inj in Hkey'; lia.
      * split; [done|]. intros (_ & Hr & c' & [= <-] & Hkey).
        assert (company_names (length companies_list)
                  !! strip (default [] (name c)) = Some a) as Hs
          by by apply company_names_lookup.
        congruence.
    + split; [done|]. by intros (_ & _ & c & Hc & _).
  - rewrite lookup_empty. split; [done|lia].
Qed.

End Companies.
